(** * wip: a task tracker built around a small dependency graph

    Shallow embedding of [src/wip/model.py] and of the graph-manipulating
    commands of [src/wip/cli.py], followed by the properties of the
    task-graph engine.

    Conventions of the embedding
    - Python [int] is [Z]; [str] is [string]; [str(n)] on an [int] is
      stdpp's [pretty], the decimal rendering.
    - [State.tasks : dict[str, Task]] is a [gmap string Task.t].  The equality
      of Python dicts (and so of [State], a dataclass) does not look at the
      insertion order, and neither does [gmap].  Where the code iterates
      over a dict or a set, the model iterates over [map_to_list] or
      [elements]; the order of the iteration is not the one of CPython.
    - [set[int]] is [gset Z].
    - A command of the CLI loads the state, works on it and either saves it
      or prints an error and returns without saving.  A command is a
      function from the loaded state to a [response]: [Saved st' out] when
      [save_state] was reached, [Info out] when it printed a notice and
      returned, [Failed e] when it printed an error and returned.
    - [datetime.now().isoformat()] is an argument of the commands that
      read the clock. *)

From stdpp Require Import base option strings pretty gmap list relations sorting.
From Stdlib Require Import ZArith Lia Ascii.

Local Open Scope Z_scope.
#[local] Set Warnings "-clear-no-such-hyp".

(** ** Python values and exceptions *)

(** The values [to_dict] produces and [from_dict] consumes (what [json]
    reads and writes). *)
#[local] Set Warnings "-register-all".
Inductive pyval : Type :=
| PNone
| PBool (b : bool)
| PInt (n : Z)
| PStr (s : string)
| PList (l : list pyval)
| PDict (d : gmap string pyval).

Inductive exn : Type :=
| KeyError (k : string)
| TypeError
| AttributeError
| ValueError.

(** A computation that returns or raises. *)
Inductive res (A : Type) : Type :=
| Ok (a : A)
| Raise (e : exn).
Arguments Ok {A} a.
Arguments Raise {A} e.

#[global] Instance res_ret : MRet res := λ A a, Ok a.
#[global] Instance res_bind : MBind res := λ A B f m,
  match m with
  | Ok a => f a
  | Raise e => Raise e
  end.

(** [d[k]] *)
Definition getitem (d : pyval) (k : string) : res pyval :=
  match d with
  | PDict m =>
      match m !! k with
      | Some v => Ok v
      | None => Raise (KeyError k)
      end
  | _ => Raise TypeError
  end.

(** [d.get(k, default)] *)
Definition get (d : pyval) (k : string) (dflt : pyval) : res pyval :=
  match d with
  | PDict m => Ok (default dflt (m !! k))
  | _ => Raise AttributeError
  end.

(** The dataclass annotations, read as checks: the model's records are
    typed, so [from_dict] projects each value to the annotated type. *)
Definition as_int (v : pyval) : res Z :=
  match v with PInt n => Ok n | _ => Raise TypeError end.
Definition as_str (v : pyval) : res string :=
  match v with PStr s => Ok s | _ => Raise TypeError end.
Definition as_bool (v : pyval) : res bool :=
  match v with PBool b => Ok b | _ => Raise TypeError end.
Definition as_opt_str (v : pyval) : res (option string) :=
  match v with PNone => Ok None | PStr s => Ok (Some s) | _ => Raise TypeError end.
Definition as_list (v : pyval) : res (list pyval) :=
  match v with PList l => Ok l | _ => Raise TypeError end.
Definition as_dict (v : pyval) : res (gmap string pyval) :=
  match v with PDict d => Ok d | _ => Raise AttributeError end.

Definition of_opt_str (o : option string) : pyval :=
  match o with None => PNone | Some s => PStr s end.

(** [[f(x) for x in l]] where [f] may raise. *)
Fixpoint list_comprehension {A B} (f : A → res B) (l : list A) : res (list B) :=
  match l with
  | [] => Ok []
  | x :: l' => y ← f x; ys ← list_comprehension f l'; Ok (y :: ys)
  end.

(** [{k: f(v) for k, v in d.items()}] where [f] may raise. *)
Definition dict_comprehension {A B} (f : A → res B) (d : gmap string A)
    : res (gmap string B) :=
  map_fold (λ k v acc, m ← acc; y ← f v; Ok (<[k:=y]> m)) (Ok ∅) d.

(** [str(n)] for an [int]. *)
Definition str (n : Z) : string := pretty n.

(** ** model.py *)

Module Task.
Record t : Type := mk
  { id : Z; title : string; active : bool; created_at : string }.

Definition to_dict (self : t) : pyval :=
  PDict (<["id" := PInt (id self)]>
        (<["title" := PStr (title self)]>
        (<["active" := PBool (active self)]>
        (<["created_at" := PStr (created_at self)]> ∅)))).

Definition from_dict (data : pyval) : res t :=
  i ← getitem data "id" ≫= as_int;
  ti ← getitem data "title" ≫= as_str;
  a ← get data "active" (PBool false) ≫= as_bool;
  c ← get data "created_at" (PStr "") ≫= as_str;
  Ok (mk i ti a c).
End Task.

Module Edge.
Record t : Type := mk { from_id : Z; to_id : Z }.

Definition to_dict (self : t) : pyval :=
  PDict (<["from" := PInt (from_id self)]> (<["to" := PInt (to_id self)]> ∅)).

Definition from_dict (data : pyval) : res t :=
  f ← getitem data "from" ≫= as_int;
  t ← getitem data "to" ≫= as_int;
  Ok (mk f t).

#[global] Instance eq_dec : EqDecision t.
Proof. solve_decision. Defined.
End Edge.

Module BlockedTask.
Record t : Type := mk
  { id : Z; title : string; blocker : string; created_at : string }.

Definition to_dict (self : t) : pyval :=
  PDict (<["id" := PInt (id self)]>
        (<["title" := PStr (title self)]>
        (<["blocker" := PStr (blocker self)]>
        (<["created_at" := PStr (created_at self)]> ∅)))).

Definition from_dict (data : pyval) : res t :=
  i ← getitem data "id" ≫= as_int;
  ti ← getitem data "title" ≫= as_str;
  b ← getitem data "blocker" ≫= as_str;
  c ← get data "created_at" (PStr "") ≫= as_str;
  Ok (mk i ti b c).
End BlockedTask.

Module HistoryEntry.
Record t : Type := mk
  { id : Z; title : string; completed_at : string; created_at : string }.

Definition to_dict (self : t) : pyval :=
  PDict (<["id" := PInt (id self)]>
        (<["title" := PStr (title self)]>
        (<["completed_at" := PStr (completed_at self)]>
        (<["created_at" := PStr (created_at self)]> ∅)))).

Definition from_dict (data : pyval) : res t :=
  i ← getitem data "id" ≫= as_int;
  ti ← getitem data "title" ≫= as_str;
  co ← getitem data "completed_at" ≫= as_str;
  c ← get data "created_at" (PStr "") ≫= as_str;
  Ok (mk i ti co c).
End HistoryEntry.

Module ShareConfig.
Record t : Type := mk
  { enabled : bool; gist_id : option string; gist_url : option string }.

Definition default : t := mk false None None.

Definition to_dict (self : t) : pyval :=
  PDict (<["enabled" := PBool (enabled self)]>
        (<["gist_id" := of_opt_str (gist_id self)]>
        (<["gist_url" := of_opt_str (gist_url self)]> ∅))).

Definition from_dict (data : pyval) : res t :=
  e ← get data "enabled" (PBool false) ≫= as_bool;
  gi ← get data "gist_id" PNone ≫= as_opt_str;
  gu ← get data "gist_url" PNone ≫= as_opt_str;
  Ok (mk e gi gu).
End ShareConfig.

Module Config.
Record t : Type := mk
  { max_active : Z; stale_days : Z; share : ShareConfig.t }.

Definition default : t := mk 2 14 ShareConfig.default.

Definition to_dict (self : t) : pyval :=
  PDict (<["max_active" := PInt (max_active self)]>
        (<["stale_days" := PInt (stale_days self)]>
        (<["share" := ShareConfig.to_dict (share self)]> ∅))).

Definition from_dict (data : pyval) : res t :=
  ma ← get data "max_active" (PInt 2) ≫= as_int;
  sd ← get data "stale_days" (PInt 14) ≫= as_int;
  sh ← get data "share" (PDict ∅) ≫= ShareConfig.from_dict;
  Ok (mk ma sd sh).
End Config.

Module State.
Record t : Type := mk
  { tasks : gmap string Task.t;
    edges : list Edge.t;
    blocked : list BlockedTask.t;
    history : list HistoryEntry.t;
    next_id : Z;
    config : Config.t }.

(** [State()] *)
Definition empty : t := mk ∅ [] [] [] 1 Config.default.

Definition to_dict (self : t) : pyval :=
  PDict (<["tasks" := PDict (Task.to_dict <$> tasks self)]>
        (<["edges" := PList (Edge.to_dict <$> edges self)]>
        (<["blocked" := PList (BlockedTask.to_dict <$> blocked self)]>
        (<["history" := PList (HistoryEntry.to_dict <$> history self)]>
        (<["next_id" := PInt (next_id self)]>
        (<["config" := Config.to_dict (config self)]> ∅)))))).

Definition from_dict (data : pyval) : res t :=
  td ← get data "tasks" (PDict ∅) ≫= as_dict;
  ts ← dict_comprehension Task.from_dict td;
  el ← get data "edges" (PList []) ≫= as_list;
  es ← list_comprehension Edge.from_dict el;
  bl ← get data "blocked" (PList []) ≫= as_list;
  bs ← list_comprehension BlockedTask.from_dict bl;
  hl ← get data "history" (PList []) ≫= as_list;
  hs ← list_comprehension HistoryEntry.from_dict hl;
  n ← get data "next_id" (PInt 1) ≫= as_int;
  c ← get data "config" (PDict ∅) ≫= Config.from_dict;
  Ok (mk ts es bs hs n c).

Definition get_task (self : t) (task_id : Z) : option Task.t :=
  tasks self !! str task_id.

Definition get_blocked (self : t) (task_id : Z) : option BlockedTask.t :=
  List.find (λ b, bool_decide (BlockedTask.id b = task_id)) (blocked self).

Definition active_count (self : t) : Z :=
  map_fold (λ _ t n, if Task.active t then n + 1 else n) 0 (tasks self).

Definition has_edge (self : t) (from_id to_id : Z) : bool :=
  existsb (λ e, bool_decide (Edge.from_id e = from_id)
                && bool_decide (Edge.to_id e = to_id)) (edges self).

Definition get_edges_from (self : t) (task_id : Z) : list Edge.t :=
  filter (λ e, Edge.from_id e = task_id) (edges self).

Definition get_edges_to (self : t) (task_id : Z) : list Edge.t :=
  filter (λ e, Edge.to_id e = task_id) (edges self).

(** Functional updates of one field (an assignment to [state.<field>]). *)
Definition with_tasks (self : t) (x : gmap string Task.t) : t :=
  mk x (edges self) (blocked self) (history self) (next_id self) (config self).
Definition with_edges (self : t) (x : list Edge.t) : t :=
  mk (tasks self) x (blocked self) (history self) (next_id self) (config self).
Definition with_blocked (self : t) (x : list BlockedTask.t) : t :=
  mk (tasks self) (edges self) x (history self) (next_id self) (config self).
Definition with_history (self : t) (x : list HistoryEntry.t) : t :=
  mk (tasks self) (edges self) (blocked self) x (next_id self) (config self).
Definition with_next_id (self : t) (x : Z) : t :=
  mk (tasks self) (edges self) (blocked self) (history self) x (config self).
Definition with_config (self : t) (x : Config.t) : t :=
  mk (tasks self) (edges self) (blocked self) (history self) (next_id self) x.
End State.

(** ** Python builtins used by cli.py *)

(** Truth value of a [str]: the empty string is false. *)
Definition truthy (s : string) : bool := negb (bool_decide (s = "")).


(** [sep.join(l)] *)
Definition join (sep : string) (l : list string) : string := String.concat sep l.

(** [int(s)] for a [str], base ten: surrounding white space is dropped, one
    sign is allowed, and single underscores may separate digits.  On an
    ASCII string the white space [int] drops is the tab, the line feed,
    the vertical tab, the form feed, the carriage return and the blank
    (bytes 9 to 13 and 32); the separators 28 to 31, which [str.strip]
    drops, make [int] raise.  The digits and white space outside ASCII
    that CPython also accepts are not modelled: they raise here. *)
Definition is_space (c : ascii) : bool :=
  let n := Z.of_N (N_of_ascii c) in
  ((9 <=? n) && (n <=? 13)) || (n =? 32).

Definition digit_of (c : ascii) : option Z :=
  let n := Z.of_N (N_of_ascii c) in
  if (48 <=? n) && (n <=? 57) then Some (n - 48) else None.

Fixpoint lstrip (s : string) : string :=
  match s with
  | String c s' => if is_space c then lstrip s' else s
  | EmptyString => EmptyString
  end.

Definition strip (s : string) : string :=
  String.rev (lstrip (String.rev (lstrip s))).

Fixpoint int_digits (acc : Z) (after_digit : bool) (s : string) : res Z :=
  match s with
  | EmptyString => if after_digit then Ok acc else Raise ValueError
  | String c s' =>
      match digit_of c with
      | Some d => int_digits (acc * 10 + d) true s'
      | None =>
          if bool_decide (c = "_"%char) && after_digit
          then int_digits acc false s'
          else Raise ValueError
      end
  end.

Definition int (s : string) : res Z :=
  match strip s with
  | String "-" s' => n ← int_digits 0 false s'; Ok (- n)
  | String "+" s' => int_digits 0 false s'
  | s' => int_digits 0 false s'
  end.

(** ** cli.py: what a command answers *)

Inductive verb : Type := Activate | Complete.

(** The errors of the commands, after the taxonomy of the messages they
    print. *)
Inductive error : Type :=
| NotFound (task_id : Z)
| OnHold (task_id : Z)
| SelfLoop
| DuplicateEdge (from_id to_id : Z)
| CycleDetected (from_id to_id : Z)
| EdgeNotFound (from_id to_id : Z)
| DependencyIncomplete (v : verb) (task_id : Z) (dep_ids : list string)
| MaxActiveReached (max_active : Z)
| MissingBlocker
| AlreadyOnHold (task_id : Z)
| NotFoundInHold (task_id : Z)
| InvalidConfigValue (msg : string).

(** The text [click.echo(..., err=True)] prints for each error. *)
Definition message (e : error) : string :=
  match e with
  | NotFound i => "Error: Task " +:+ str i +:+ " not found"
  | OnHold i =>
      "Error: Task " +:+ str i +:+ " is on hold. Use 'wip mark "
        +:+ str i +:+ " release' first."
  | SelfLoop => "Error: Cannot link a task to itself"
  | DuplicateEdge f t =>
      "Error: Edge " +:+ str f +:+ " -> " +:+ str t +:+ " already exists"
  | CycleDetected f t =>
      "Error: Adding edge " +:+ str f +:+ " -> " +:+ str t
        +:+ " would create a cycle"
  | EdgeNotFound f t =>
      "Error: Edge " +:+ str f +:+ " -> " +:+ str t +:+ " not found"
  | DependencyIncomplete v i dep_ids =>
      "Error: Cannot "
        +:+ match v with Activate => "activate" | Complete => "complete" end
        +:+ " task " +:+ str i +:+ ". It depends on incomplete tasks ["
        +:+ join ", " dep_ids +:+ "]. Complete those first."
  | MaxActiveReached n =>
      "Error: Maximum active tasks (" +:+ str n
        +:+ ") reached. Use 'wip mark <id> inactive' or 'wip mark <id> done' first."
  | MissingBlocker => "Error: --by option is required for 'hold' state"
  | AlreadyOnHold i => "Error: Task " +:+ str i +:+ " is already on hold"
  | NotFoundInHold i => "Error: Task " +:+ str i +:+ " not found in hold"
  | InvalidConfigValue msg => msg
  end.

Inductive response : Type :=
| Saved (state : State.t) (out : list string)
| Info (out : string)
| Failed (e : error).

(** The state on disk after a command that found [state] there. *)
Definition persisted (state : State.t) (r : response) : State.t :=
  match r with
  | Saved state' _ => state'
  | Info _ | Failed _ => state
  end.

(** ** cli.py: add, link, unlink *)

Definition add (state : State.t) (now : string) (title : string)
    (blocked : option string) : response :=
  let task_id := State.next_id state in
  let state := State.with_next_id state (task_id + 1) in
  let regular :=
    let task := Task.mk task_id title false now in
    Saved (State.with_tasks state (<[str task_id := task]> (State.tasks state)))
          ["Added task [" +:+ str task_id +:+ "]: " +:+ title] in
  match blocked with
  | Some b =>
      if truthy b then
        let blocked_task := BlockedTask.mk task_id title b now in
        Saved (State.with_blocked state (State.blocked state ++ [blocked_task]))
              ["Added blocked task [" +:+ str task_id +:+ "]: " +:+ title
                 +:+ " (blocked by: " +:+ b +:+ ")"]
      else regular
  | None => regular
  end.

(** The [while stack:] loop of [_would_create_cycle].  The Python list
    [stack] is kept with its last element first, so [stack.pop()] takes the
    head and [stack.append] conses.  One unit of fuel is one test of the
    loop condition; [None] is a run that was cut short. *)
Fixpoint _would_create_cycle_loop (fuel : nat) (state : State.t) (from_id : Z)
    (visited : gset Z) (stack : list Z) : option bool :=
  match fuel with
  | O => None
  | S fuel' =>
      match stack with
      | [] => Some false
      | node :: stack =>
          if bool_decide (node = from_id) then Some true
          else if bool_decide (node ∈ visited)
          then _would_create_cycle_loop fuel' state from_id visited stack
          else
            _would_create_cycle_loop fuel' state from_id ({[node]} ∪ visited)
              (foldl (λ stack edge, Edge.to_id edge :: stack) stack
                     (State.get_edges_from state node))
      end
  end.

(** The loop pops once per element it pushed: [to_id] and at most one per
    edge, the edges out of a node being pushed when it is first visited. *)
Definition _would_create_cycle (state : State.t) (from_id to_id : Z) : option bool :=
  _would_create_cycle_loop (2 + length (State.edges state)) state from_id ∅ [to_id].

Definition _task_exists (state : State.t) (task_id : Z) : bool :=
  bool_decide (is_Some (State.get_task state task_id))
  || bool_decide (is_Some (State.get_blocked state task_id)).

(** The [for edge in state.edges:] loop inside [_get_all_descendants]. *)
Definition _get_all_descendants_scan (current : Z) (edges : list Edge.t)
    (descendants : gset Z) (stack : list Z) : gset Z * list Z :=
  foldl (λ '(descendants, stack) edge,
           if bool_decide (Edge.from_id edge = current)
              && negb (bool_decide (Edge.to_id edge ∈ descendants))
           then ({[Edge.to_id edge]} ∪ descendants, Edge.to_id edge :: stack)
           else (descendants, stack))
        (descendants, stack) edges.

Fixpoint _get_all_descendants_loop (fuel : nat) (state : State.t)
    (descendants : gset Z) (stack : list Z) : option (gset Z) :=
  match fuel with
  | O => None
  | S fuel' =>
      match stack with
      | [] => Some descendants
      | current :: stack =>
          let '(descendants, stack) :=
            _get_all_descendants_scan current (State.edges state) descendants stack in
          _get_all_descendants_loop fuel' state descendants stack
      end
  end.

(** Every push adds a new element to [descendants], which only holds
    targets of edges. *)
Definition _get_all_descendants (state : State.t) (task_id : Z) : option (gset Z) :=
  _get_all_descendants_loop (2 + length (State.edges state)) state ∅ [task_id].

Definition _move_to_hold (state : State.t) (task_id : Z) (blocker : string)
    : State.t * option string :=
  match State.get_task state task_id with
  | None => (state, None)
  | Some task =>
      let state := State.with_tasks state (delete (str task_id) (State.tasks state)) in
      let blocked_task :=
        BlockedTask.mk task_id (Task.title task) blocker (Task.created_at task) in
      (State.with_blocked state (State.blocked state ++ [blocked_task]),
       Some (Task.title task))
  end.

(** The [for tid in all_to_move:] loop of [link].  [all_to_move] is a set:
    [link] hands its elements over in the order of [elements]. *)
Definition link_cascade (state : State.t) (from_id : Z) (all_to_move : list Z)
    : State.t * list string :=
  foldl (λ '(state, moved_tasks) tid,
           let '(state, title) :=
             _move_to_hold state tid ("Task " +:+ str from_id) in
           match title with
           | Some title =>
               if truthy title
               then (state, moved_tasks ++ ["[" +:+ str tid +:+ "] " +:+ title])
               else (state, moved_tasks)
           | None => (state, moved_tasks)
           end)
        (state, []) all_to_move.

Definition link (state : State.t) (from_id to_id : Z) : option response :=
  if negb (_task_exists state from_id) then Some (Failed (NotFound from_id))
  else if negb (_task_exists state to_id) then Some (Failed (NotFound to_id))
  else if bool_decide (from_id = to_id) then Some (Failed SelfLoop)
  else if State.has_edge state from_id to_id
  then Some (Failed (DuplicateEdge from_id to_id))
  else
    cyclic ← _would_create_cycle state from_id to_id;
    if (cyclic : bool) then Some (Failed (CycleDetected from_id to_id))
    else
      let state :=
        State.with_edges state (State.edges state ++ [Edge.mk from_id to_id]) in
      let linked := "Linked task " +:+ str from_id +:+ " -> " +:+ str to_id in
      match State.get_blocked state from_id with
      | Some blocked_parent =>
          descendants ← _get_all_descendants state to_id;
          let all_to_move := {[to_id]} ∪ descendants in
          let '(state, moved_tasks) :=
            link_cascade state from_id (elements all_to_move) in
          Some (Saved state
                  (linked ::
                   match moved_tasks with
                   | [] => []
                   | _ => ["Moved to hold (blocked by Task " +:+ str from_id +:+ "): "
                             +:+ join ", " moved_tasks]
                   end))
      | None => Some (Saved state [linked])
      end.

Definition unlink (state : State.t) (from_id to_id : Z) : response :=
  if negb (State.has_edge state from_id to_id)
  then Failed (EdgeNotFound from_id to_id)
  else
    Saved (State.with_edges state
             (filter (λ e, ¬ (Edge.from_id e = from_id ∧ Edge.to_id e = to_id))
                     (State.edges state)))
          ["Unlinked task " +:+ str from_id +:+ " -> " +:+ str to_id].

(** ** cli.py: mark *)

Inductive state_name : Type := ACTIVE | INACTIVE | DONE | HOLD | RELEASE | GONE.

(** [for i, x in enumerate(l): if p(x): l.pop(i); ...; return]: the first
    element that satisfies [p], and the list without it. *)
Fixpoint pop_first {A} (p : A → bool) (l : list A) : option (A * list A) :=
  match l with
  | [] => None
  | x :: l' =>
      if p x then Some (x, l')
      else '(y, l'') ← pop_first p l'; Some (y, x :: l'')
  end.

(** The edges that do not touch [task_id]. *)
Definition edges_without (task_id : Z) (edges : list Edge.t) : list Edge.t :=
  filter (λ e, Edge.from_id e ≠ task_id ∧ Edge.to_id e ≠ task_id) edges.

(** What the first three transitions do when the task is not in the pool. *)
Definition not_in_pool (state : State.t) (task_id : Z) : response :=
  match State.get_blocked state task_id with
  | Some _ => Failed (OnHold task_id)
  | None => Failed (NotFound task_id)
  end.

Definition mark (state : State.t) (now : string) (task_id : Z)
    (name : state_name) (by_ : option string) : response :=
  match name with
  | ACTIVE =>
      match State.get_task state task_id with
      | None => not_in_pool state task_id
      | Some task =>
          if Task.active task
          then Info ("Task " +:+ str task_id +:+ " is already active")
          else
            let dependencies := State.get_edges_to state task_id in
            match dependencies with
            | _ :: _ =>
                let dep_ids := (λ e, str (Edge.from_id e)) <$> dependencies in
                Failed (DependencyIncomplete Activate task_id dep_ids)
            | [] =>
                let current_active := State.active_count state in
                let max_active := Config.max_active (State.config state) in
                if bool_decide ((current_active >= max_active)%Z)
                then Failed (MaxActiveReached max_active)
                else
                  let task :=
                    Task.mk (Task.id task) (Task.title task) true
                            (Task.created_at task) in
                  Saved (State.with_tasks state
                           (<[str task_id := task]> (State.tasks state)))
                        ["Marked task [" +:+ str task_id +:+ "] as active"]
            end
      end
  | INACTIVE =>
      match State.get_task state task_id with
      | None => not_in_pool state task_id
      | Some task =>
          if negb (Task.active task)
          then Info ("Task " +:+ str task_id +:+ " is not active")
          else
            let task :=
              Task.mk (Task.id task) (Task.title task) false (Task.created_at task) in
            Saved (State.with_tasks state
                     (<[str task_id := task]> (State.tasks state)))
                  ["Marked task [" +:+ str task_id +:+ "] as inactive"]
      end
  | DONE =>
      match State.get_task state task_id with
      | None => not_in_pool state task_id
      | Some task =>
          let dependencies := State.get_edges_to state task_id in
          match dependencies with
          | _ :: _ =>
              let dep_ids := (λ e, str (Edge.from_id e)) <$> dependencies in
              Failed (DependencyIncomplete Complete task_id dep_ids)
          | [] =>
              let entry :=
                HistoryEntry.mk task_id (Task.title task) now
                                (Task.created_at task) in
              Saved (State.mk (delete (str task_id) (State.tasks state))
                              (edges_without task_id (State.edges state))
                              (State.blocked state)
                              (State.history state ++ [entry])
                              (State.next_id state)
                              (State.config state))
                    ["Completed task [" +:+ str task_id +:+ "]: " +:+ Task.title task]
          end
      end
  | HOLD =>
      match by_ with
      | Some by_ =>
          if truthy by_ then
            match State.get_task state task_id with
            | None =>
                match State.get_blocked state task_id with
                | Some _ => Failed (AlreadyOnHold task_id)
                | None => Failed (NotFound task_id)
                end
            | Some task =>
                let blocked_task :=
                  BlockedTask.mk task_id (Task.title task) by_
                                 (Task.created_at task) in
                Saved (State.mk (delete (str task_id) (State.tasks state))
                                (State.edges state)
                                (State.blocked state ++ [blocked_task])
                                (State.history state)
                                (State.next_id state)
                                (State.config state))
                      ["Task [" +:+ str task_id +:+ "] on hold (" +:+ by_ +:+ ")"]
            end
          else Failed MissingBlocker
      | None => Failed MissingBlocker
      end
  | RELEASE =>
      match State.get_blocked state task_id with
      | None => Failed (NotFoundInHold task_id)
      | Some blocked =>
          let task :=
            Task.mk task_id (BlockedTask.title blocked) false
                    (BlockedTask.created_at blocked) in
          Saved (State.mk (<[str task_id := task]> (State.tasks state))
                          (State.edges state)
                          (filter (λ b, BlockedTask.id b ≠ task_id)
                                  (State.blocked state))
                          (State.history state)
                          (State.next_id state)
                          (State.config state))
                ["Released task [" +:+ str task_id +:+ "]: "
                   +:+ BlockedTask.title blocked]
      end
  | GONE =>
      match State.tasks state !! str task_id with
      | Some task =>
          Saved (State.mk (delete (str task_id) (State.tasks state))
                          (edges_without task_id (State.edges state))
                          (State.blocked state)
                          (State.history state)
                          (State.next_id state)
                          (State.config state))
                ["Task [" +:+ str task_id +:+ "] gone: " +:+ Task.title task]
      | None =>
          match pop_first (λ b, bool_decide (BlockedTask.id b = task_id))
                          (State.blocked state) with
          | Some (blocked, rest) =>
              Saved (State.with_blocked state rest)
                    ["Task [" +:+ str task_id +:+ "] gone: "
                       +:+ BlockedTask.title blocked]
          | None =>
              match pop_first (λ h, bool_decide (HistoryEntry.id h = task_id))
                              (State.history state) with
              | Some (entry, rest) =>
                  Saved (State.with_history state rest)
                        ["Task [" +:+ str task_id +:+ "] gone: "
                           +:+ HistoryEntry.title entry]
              | None => Failed (NotFound task_id)
              end
          end
      end
  end.

(** ** cli.py: config, reset *)

Definition config (state : State.t) (key value : string) : response :=
  let c := State.config state in
  if bool_decide (key = "max_active") then
    match int value with
    | Ok max_val =>
        if bool_decide (max_val < 1)
        then Failed (InvalidConfigValue "Error: max_active must be at least 1")
        else
          Saved (State.with_config state
                   (Config.mk max_val (Config.stale_days c) (Config.share c)))
                ["Set max_active = " +:+ str max_val]
    | Raise _ => Failed (InvalidConfigValue "Error: max_active must be an integer")
    end
  else if bool_decide (key = "stale_days") then
    match int value with
    | Ok days =>
        if bool_decide (days < 1)
        then Failed (InvalidConfigValue "Error: stale_days must be at least 1")
        else
          Saved (State.with_config state
                   (Config.mk (Config.max_active c) days (Config.share c)))
                ["Set stale_days = " +:+ str days]
    | Raise _ => Failed (InvalidConfigValue "Error: stale_days must be an integer")
    end
  else Failed (InvalidConfigValue ("Error: Unknown config key '" +:+ key +:+ "'")).

Definition reset (state : State.t) : response :=
  Saved (State.with_config State.empty (State.config state))
        ["State reset. All tasks cleared."].

(** ** The commands that work on the task graph, and the states they reach *)

(** The six commands of [cli.py] that edit the task graph and its
    settings.  [load], [load --merge] and [share] also write the state
    file: [load] puts the contents of a file in its place, whatever they
    are, [load --merge] is [load_merge] below, and [share] writes
    [config.share] after talking to GitHub.  They are no constructors
    here, so a property stated for every [command] is a property of these
    six.  [stale], [status], [history], [weekly] and [save] do not write
    the state file. *)
Inductive command : Type :=
| Add (now title : string) (blocked : option string)
| Link (from_id to_id : Z)
| Unlink (from_id to_id : Z)
| Mark (now : string) (task_id : Z) (name : state_name) (by_ : option string)
| SetConfig (key value : string)
| Reset.

Definition exec (state : State.t) (c : command) : option response :=
  match c with
  | Add now title blocked => Some (add state now title blocked)
  | Link from_id to_id => link state from_id to_id
  | Unlink from_id to_id => Some (unlink state from_id to_id)
  | Mark now task_id name by_ => Some (mark state now task_id name by_)
  | SetConfig key value => Some (config state key value)
  | Reset => Some (reset state)
  end.

(** The states on disk after a run of the six commands that started
    without a state file ([load_state] then gives [State()]).  A state
    file that [load] wrote, or that was edited by hand, need not be one
    of them. *)
Inductive reachable : State.t → Prop :=
| reachable_empty : reachable State.empty
| reachable_exec state c r :
    reachable state → exec state c = Some r → reachable (persisted state r).

(** ** cli.py: stale *)

(** [filter] with a test that may raise: the loops of [stale]. *)
Fixpoint filter_res {A} (p : A → res bool) (l : list A) : res (list A) :=
  match l with
  | [] => Ok []
  | x :: l' =>
      b ← p x;
      ys ← filter_res p l';
      Ok (if (b : bool) then x :: ys else ys)
  end.

Section stale.
(** [datetime], its parser and its order are the standard library's;
    the comparison raises between naive and aware values. *)
Context {datetime : Type}.
Variable fromisoformat : string → res datetime.
Variable lt : datetime → datetime → res bool.

(** [Task.created_datetime] and [BlockedTask.created_datetime] *)
Definition created_datetime (created_at : string) : res (option datetime) :=
  if negb (truthy created_at) then Ok None
  else d ← fromisoformat created_at; Ok (Some d).

(** [created and created < cutoff] *)
Definition before (cutoff : datetime) (created : option datetime) : res bool :=
  match created with
  | None => Ok false
  | Some d => lt d cutoff
  end.

Definition stale_task (cutoff : datetime) (task : Task.t) : res bool :=
  if negb (Task.active task)
  then created_datetime (Task.created_at task) ≫= before cutoff
  else Ok false.

Definition stale_blocked (cutoff : datetime) (b : BlockedTask.t) : res bool :=
  created_datetime (BlockedTask.created_at b) ≫= before cutoff.

(** [stale], up to the rendering: the two lists it hands to
    [render_stale_tasks].  [cutoff] is [datetime.now() - timedelta(days=stale_days)]. *)
Definition stale (state : State.t) (cutoff : datetime)
    : res (list Task.t * list BlockedTask.t) :=
  stale_tasks ← filter_res (stale_task cutoff)
                   (snd <$> map_to_list (State.tasks state));
  stale_blocked ← filter_res (stale_blocked cutoff) (State.blocked state);
  Ok (stale_tasks, stale_blocked).
End stale.

(** ** cli.py: _remap_state and load --merge *)

(** [d[k]] on a [dict[int, int]] *)
Definition id_map_getitem (id_map : gmap Z Z) (k : Z) : res Z :=
  match id_map !! k with
  | Some v => Ok v
  | None => Raise (KeyError (str k))
  end.

(** [for old_id in sorted(all_ids): id_map[old_id] = next_id; next_id += 1] *)
Fixpoint assign_ids (ids : list Z) (id_map : gmap Z Z) (next_id : Z)
    : gmap Z Z * Z :=
  match ids with
  | [] => (id_map, next_id)
  | old_id :: ids => assign_ids ids (<[old_id := next_id]> id_map) (next_id + 1)
  end.

(** [sorted(s)] for a set of integers *)
Definition sorted (s : gset Z) : list Z := merge_sort Z.le (elements s).

(** The ids [_remap_state] collects, given the integers the keys of
    [imported.tasks] denote.  Two keys that denote the same integer get
    the same new key; which of the two tasks is then kept depends on the
    order of the dict, which [map_fold] does not follow. *)
Definition collect_ids (task_ids : list Z) (imported : State.t) : gset Z :=
  list_to_set task_ids
  ∪ list_to_set (BlockedTask.id <$> State.blocked imported)
  ∪ list_to_set (HistoryEntry.id <$> State.history imported).

Definition _remap_state (imported : State.t) (start_id : Z)
    : res (State.t * gmap Z Z) :=
  task_ids ← list_comprehension int (fst <$> map_to_list (State.tasks imported));
  let all_ids := collect_ids task_ids imported in
  let '(id_map, next_id) := assign_ids (sorted all_ids) ∅ start_id in
  new_tasks ←
    map_fold (λ tid task acc,
                new_tasks ← acc;
                new_id ← int tid ≫= id_map_getitem id_map;
                Ok (<[str new_id :=
                       Task.mk new_id (Task.title task) (Task.active task)
                               (Task.created_at task)]> new_tasks))
             (Ok ∅) (State.tasks imported);
  let new_edges :=
    omap (λ edge,
            from_id ← id_map !! Edge.from_id edge;
            to_id ← id_map !! Edge.to_id edge;
            Some (Edge.mk from_id to_id))
         (State.edges imported) in
  new_blocked ←
    list_comprehension
      (λ b, new_id ← id_map_getitem id_map (BlockedTask.id b);
            Ok (BlockedTask.mk new_id (BlockedTask.title b) (BlockedTask.blocker b)
                               (BlockedTask.created_at b)))
      (State.blocked imported);
  new_history ←
    list_comprehension
      (λ h, new_id ← id_map_getitem id_map (HistoryEntry.id h);
            Ok (HistoryEntry.mk new_id (HistoryEntry.title h)
                                (HistoryEntry.completed_at h)
                                (HistoryEntry.created_at h)))
      (State.history imported);
  Ok (State.mk new_tasks new_edges new_blocked new_history next_id
               (State.config imported),
      id_map).

(** The [if merge:] branch of [load], from the state read from the file. *)
Definition load_merge (current_state imported_state : State.t) : res State.t :=
  '(remapped, id_map) ← _remap_state imported_state (State.next_id current_state);
  Ok (State.mk (State.tasks remapped ∪ State.tasks current_state)
               (State.edges current_state ++ State.edges remapped)
               (State.blocked current_state ++ State.blocked remapped)
               (State.history current_state ++ State.history remapped)
               (State.next_id remapped)
               (State.config current_state)).

(** ** render.py, render_md.py: the groups of the task views *)

(** [_get_descendants(task_id, edges)]: the loop of [_get_all_descendants]
    over an edge list handed in.  [render.py] and [render_md.py] have the
    same function. *)
Fixpoint _get_descendants_loop (fuel : nat) (edges : list Edge.t)
    (descendants : gset Z) (stack : list Z) : option (gset Z) :=
  match fuel with
  | O => None
  | S fuel' =>
      match stack with
      | [] => Some descendants
      | current :: stack =>
          let '(descendants, stack) :=
            _get_all_descendants_scan current edges descendants stack in
          _get_descendants_loop fuel' edges descendants stack
      end
  end.

Definition _get_descendants (task_id : Z) (edges : list Edge.t) : option (gset Z) :=
  _get_descendants_loop (2 + length edges) edges ∅ [task_id].

(** The locals that [render_dag] fills under "Group tasks by state" and
    [render_state_md] under "Categorize tasks", before either prints. *)
Module Groups.
Record t : Type := mk {
  active_ids : gset Z;
  inactive_ids : gset Z;
  blocked_ids : gset Z;
  all_tasks : gmap Z Task.t;
  blocked_tasks : gmap Z BlockedTask.t;
  active_workflow_ids : gset Z;
  backlog_ids : gset Z;
  active_panel_ids : gset Z
}.
End Groups.

(** [for tid, task in state.tasks.items(): ...].  Two keys that denote
    the same integer share an entry of [all_tasks]; which task it then
    holds depends on the order of the dict, which [map_fold] does not
    follow. *)
Definition group_pool (tasks : gmap string Task.t)
    : res (gset Z * gset Z * gmap Z Task.t) :=
  map_fold (λ tid task acc,
              '(active_ids, inactive_ids, all_tasks) ← acc;
              task_id ← int tid;
              let all_tasks := <[task_id := task]> all_tasks in
              Ok (if Task.active task
                  then ({[task_id]} ∪ active_ids, inactive_ids, all_tasks)
                  else (active_ids, {[task_id]} ∪ inactive_ids, all_tasks)))
           (Ok (∅, ∅, ∅)) tasks.

(** [for blocked in state.blocked: ...] *)
Definition group_held (blocked : list BlockedTask.t)
    : gset Z * gmap Z BlockedTask.t :=
  foldl (λ '(blocked_ids, blocked_tasks) blocked,
           ({[BlockedTask.id blocked]} ∪ blocked_ids,
            <[BlockedTask.id blocked := blocked]> blocked_tasks))
        (∅, ∅) blocked.

(** [for active_id in active_ids: ...]: the inactive tasks below an
    active one.  The loops run over sets; their result does not depend
    on the order. *)
Definition find_active_workflow (active_ids inactive_ids : gset Z)
    (edges : list Edge.t) : option (gset Z) :=
  foldl (λ acc active_id,
           active_workflow_ids ← acc;
           descendants ← _get_descendants active_id edges;
           Some (foldl (λ active_workflow_ids desc_id,
                          if bool_decide (desc_id ∈ inactive_ids)
                          then {[desc_id]} ∪ active_workflow_ids
                          else active_workflow_ids)
                       active_workflow_ids (elements descendants)))
        (Some ∅) (elements active_ids).

Definition group_tasks_by_state (state : State.t) : res (option Groups.t) :=
  '(active_ids, inactive_ids, all_tasks) ← group_pool (State.tasks state);
  let '(blocked_ids, blocked_tasks) := group_held (State.blocked state) in
  Ok (active_workflow_ids ←
        find_active_workflow active_ids inactive_ids (State.edges state);
      let backlog_ids := inactive_ids ∖ active_workflow_ids in
      let active_panel_ids := active_ids ∪ active_workflow_ids in
      Some (Groups.mk active_ids inactive_ids blocked_ids all_tasks blocked_tasks
                      active_workflow_ids backlog_ids active_panel_ids)).

(** * Properties *)

(** ** Basic facts about the model *)

Lemma str_inj (a b : Z) : str a = str b → a = b.
Proof. unfold str. apply (inj pretty). Qed.

Lemma str_ne (a b : Z) : a ≠ b → str a ≠ str b.
Proof. intros Hne Heq. by apply Hne, str_inj. Qed.

Lemma filter_none {A} (P : A → Prop) `{!∀ x, Decision (P x)} (l : list A) :
  (∀ x, x ∈ l → ¬ P x) → filter P l = [].
Proof.
  induction l as [|x l IH]; intros Hall; [done|].
  rewrite filter_cons_False by (apply Hall; left).
  apply IH. intros y Hy. apply Hall. by right.
Qed.

(** [get_edges_to] is empty exactly when no edge ends at the task. *)
Lemma get_edges_to_nil (state : State.t) (task_id : Z) :
  State.get_edges_to state task_id = []
  ↔ ∀ e, e ∈ State.edges state → Edge.to_id e ≠ task_id.
Proof.
  unfold State.get_edges_to. split.
  - intros Hnil e He Hto.
    assert (e ∈ filter (λ e, Edge.to_id e = task_id) (State.edges state)) as Hin
      by (apply list_elem_of_filter; done).
    rewrite Hnil in Hin. by apply not_elem_of_nil in Hin.
  - intros Hall. by apply filter_none.
Qed.

Lemma get_edges_to_cons (state : State.t) (task_id : Z) (e : Edge.t) :
  e ∈ State.edges state → Edge.to_id e = task_id →
  ∃ d ds, State.get_edges_to state task_id = d :: ds.
Proof.
  intros He Hto.
  destruct (State.get_edges_to state task_id) as [|d ds] eqn:Hdeps; [|eauto].
  by destruct (proj1 (get_edges_to_nil state task_id) Hdeps e He).
Qed.

Lemma elem_of_edges_without (task_id : Z) (edges : list Edge.t) (e : Edge.t) :
  e ∈ edges_without task_id edges
  ↔ e ∈ edges ∧ Edge.from_id e ≠ task_id ∧ Edge.to_id e ≠ task_id.
Proof. unfold edges_without. rewrite list_elem_of_filter. tauto. Qed.

(** The ids a failing activation or completion lists: one per incoming
    edge, in the order of the edge list. *)
Definition blocking_ids (state : State.t) (task_id : Z) : list string :=
  (λ e, str (Edge.from_id e)) <$> State.get_edges_to state task_id.

(** ** Example states *)

(** The state on disk after [c], for the runs below. *)
Definition run (state : State.t) (c : command) : State.t :=
  match exec state c with
  | Some r => persisted state r
  | None => state
  end.

Lemma reachable_run (state : State.t) (c : command) :
  reachable state → reachable (run state c).
Proof.
  intros Hr. unfold run. destruct (exec state c) as [r|] eqn:He; [|done].
  by eapply reachable_exec.
Qed.

(** [wip add "Design API"; wip add "Write tests"; wip link 1 2] *)
Definition design_then_tests : State.t :=
  foldl run State.empty
    [Add "2025-01-12T09:00:00" "Design API" None;
     Add "2025-01-12T10:00:00" "Write tests" None;
     Link 1 2].

(** [wip add A; wip add B; wip add C; wip link 2 3; wip link 1 3] *)
Definition two_prerequisites : State.t :=
  foldl run State.empty
    [Add "2025-01-12T09:00:00" "A" None;
     Add "2025-01-12T10:00:00" "B" None;
     Add "2025-01-12T11:00:00" "C" None;
     Link 2 3;
     Link 1 3].

(** [wip config max_active 1; wip add A; wip mark 1 active; wip add B] *)
Definition one_slot_taken : State.t :=
  foldl run State.empty
    [SetConfig "max_active" "1";
     Add "2025-01-12T09:00:00" "A" None;
     Mark "2025-01-12T09:30:00" 1 ACTIVE None;
     Add "2025-01-12T10:00:00" "B" None].

(** [wip add H -b Alice; wip add T; wip link 1 2]: the link moves task 2
    to hold under task 1. *)
Definition held_with_dependent : State.t :=
  foldl run State.empty
    [Add "2025-01-12T09:00:00" "H" (Some "Alice");
     Add "2025-01-12T10:00:00" "T" None;
     Link 1 2].

(** [wip add H -b Alice; wip add ""; wip add U; wip link 2 3]: a held
    task, and a pool task without a title that task 3 depends on. *)
Definition untitled_in_pool : State.t :=
  foldl run State.empty
    [Add "2025-01-12T09:00:00" "H" (Some "Alice");
     Add "2025-01-12T10:00:00" "" None;
     Add "2025-01-12T11:00:00" "U" None;
     Link 2 3].

Lemma reachable_foldl_run (cs : list command) (state : State.t) :
  reachable state → reachable (foldl run state cs).
Proof.
  revert state. induction cs as [|c cs IH]; intros state Hr; [done|].
  simpl. by apply IH, reachable_run.
Qed.

(** ** Activation and completion are gated by the incoming edges *)

(** C3. An inactive pool task cannot be activated while an edge ends at
    it: [mark active] fails with DependencyIncomplete.  With no edge
    ending at it and fewer than [max_active] active tasks, [mark active]
    succeeds, and the state saved differs from the loaded one only in the
    task's [active] flag, now true. *)
Theorem mark_active_gating (state : State.t) (now : string) (task_id : Z)
    (by_ : option string) (task : Task.t) :
  State.get_task state task_id = Some task →
  Task.active task = false →
  (∀ e, e ∈ State.edges state → Edge.to_id e = task_id →
     mark state now task_id ACTIVE by_
     = Failed (DependencyIncomplete Activate task_id (blocking_ids state task_id)))
  ∧ ((∀ e, e ∈ State.edges state → Edge.to_id e ≠ task_id) →
     State.active_count state < Config.max_active (State.config state) →
     ∃ state',
       mark state now task_id ACTIVE by_
       = Saved state' ["Marked task [" +:+ str task_id +:+ "] as active"]
       ∧ State.get_task state' task_id
         = Some (Task.mk (Task.id task) (Task.title task) true
                         (Task.created_at task))
       ∧ (∀ k, k ≠ str task_id → State.tasks state' !! k = State.tasks state !! k)
       ∧ State.edges state' = State.edges state
       ∧ State.blocked state' = State.blocked state
       ∧ State.history state' = State.history state
       ∧ State.next_id state' = State.next_id state
       ∧ State.config state' = State.config state).
Proof.
  intros Hget Hinactive. split.
  - intros e He Hto.
    destruct (get_edges_to_cons state task_id e He Hto) as (d & ds & Hdeps).
    unfold mark, blocking_ids. by rewrite Hget, Hinactive, Hdeps.
  - intros Hnone Hroom.
    apply get_edges_to_nil in Hnone.
    unfold mark. rewrite Hget, Hinactive, Hnone.
    rewrite bool_decide_eq_false_2 by lia.
    eexists. split; [done|]. unfold State.get_task. simpl.
    rewrite lookup_insert_eq. split_and!; try done.
    intros k Hk. by rewrite lookup_insert_ne.
Qed.

Lemma mark_active_gating_witness :
  State.get_task design_then_tests 2
  = Some (Task.mk 2 "Write tests" false "2025-01-12T10:00:00")
  ∧ mark design_then_tests "2025-01-13T08:00:00" 2 ACTIVE None
    = Failed (DependencyIncomplete Activate 2 ["1"]).
Proof.
  split; [vm_compute; reflexivity|].
  apply (mark_active_gating design_then_tests "2025-01-13T08:00:00" 2 None
           (Task.mk 2 "Write tests" false "2025-01-12T10:00:00")
           ltac:(vm_compute; reflexivity) ltac:(reflexivity))
    with (e := Edge.mk 1 2).
  - vm_compute. left.
  - reflexivity.
Defined.

(** C4. [mark done] on a pool task no edge ends at removes the task from
    the pool, keeps exactly the edges that do not touch it, and appends a
    history entry with [completed_at] the current time and [created_at]
    the task's; everything else is as loaded.  When an edge ends at the
    task, the command fails with DependencyIncomplete and saves nothing. *)
Theorem mark_done_completes (state : State.t) (now : string) (task_id : Z)
    (by_ : option string) (task : Task.t) :
  State.get_task state task_id = Some task →
  ((∀ e, e ∈ State.edges state → Edge.to_id e ≠ task_id) →
     ∃ state' out,
       mark state now task_id DONE by_ = Saved state' out
       ∧ State.get_task state' task_id = None
       ∧ (∀ k, k ≠ str task_id → State.tasks state' !! k = State.tasks state !! k)
       ∧ State.edges state' = edges_without task_id (State.edges state)
       ∧ (∀ e, e ∈ State.edges state'
               ↔ e ∈ State.edges state
                 ∧ Edge.from_id e ≠ task_id ∧ Edge.to_id e ≠ task_id)
       ∧ State.history state'
         = State.history state
             ++ [HistoryEntry.mk task_id (Task.title task) now
                                 (Task.created_at task)]
       ∧ State.blocked state' = State.blocked state
       ∧ State.next_id state' = State.next_id state
       ∧ State.config state' = State.config state)
  ∧ (∀ e, e ∈ State.edges state → Edge.to_id e = task_id →
       mark state now task_id DONE by_
       = Failed (DependencyIncomplete Complete task_id (blocking_ids state task_id))
       ∧ persisted state (mark state now task_id DONE by_) = state).
Proof.
  intros Hget. split.
  - intros Hnone. apply get_edges_to_nil in Hnone.
    unfold mark. rewrite Hget, Hnone.
    eexists _, _. split; [done|]. unfold State.get_task. simpl.
    rewrite lookup_delete_eq. split_and!; try done.
    + intros k Hk. by rewrite lookup_delete_ne.
    + intros e. apply elem_of_edges_without.
  - intros e He Hto.
    destruct (get_edges_to_cons state task_id e He Hto) as (d & ds & Hdeps).
    unfold mark, blocking_ids. by rewrite Hget, Hdeps.
Qed.

Lemma mark_done_completes_witness :
  State.get_task design_then_tests 2
  = Some (Task.mk 2 "Write tests" false "2025-01-12T10:00:00")
  ∧ mark design_then_tests "2025-01-13T08:00:00" 2 DONE None
    = Failed (DependencyIncomplete Complete 2 ["1"])
  ∧ persisted design_then_tests
      (mark design_then_tests "2025-01-13T08:00:00" 2 DONE None)
    = design_then_tests.
Proof.
  split; [vm_compute; reflexivity|].
  apply (mark_done_completes design_then_tests "2025-01-13T08:00:00" 2 None
           (Task.mk 2 "Write tests" false "2025-01-12T10:00:00")
           ltac:(vm_compute; reflexivity))
    with (e := Edge.mk 1 2).
  - vm_compute. left.
  - reflexivity.
Defined.

(** ** The ceiling on active tasks *)

(** [active_count] splits off the task stored under one key. *)
Lemma active_count_delete (m : gmap string Task.t) (k : string) (t : Task.t) :
  m !! k = Some t →
  map_fold (λ _ t n, if Task.active t then n + 1 else n) 0 m
  = (if Task.active t then 1 else 0)
    + map_fold (λ _ t n, if Task.active t then n + 1 else n) 0 (delete k m).
Proof.
  intros Hk.
  rewrite (map_fold_delete_L _ _ k t m); [by destruct (Task.active t); lia| |done].
  intros j1 j2 z1 z2 y _ _ _.
  destruct (Task.active z1), (Task.active z2); lia.
Qed.

Lemma active_count_insert (m : gmap string Task.t) (k : string) (t : Task.t) :
  map_fold (λ _ t n, if Task.active t then n + 1 else n) 0 (<[k:=t]> m)
  = (if Task.active t then 1 else 0)
    + map_fold (λ _ t n, if Task.active t then n + 1 else n) 0 (delete k m).
Proof.
  rewrite <-(insert_delete_eq m k t).
  rewrite map_fold_insert_L; [by destruct (Task.active t); lia| |].
  - intros j1 j2 z1 z2 y _ _ _.
    destruct (Task.active z1), (Task.active z2); lia.
  - apply lookup_delete_eq.
Qed.

(** The state [mark active] saves. *)
Definition activated (state : State.t) (task_id : Z) (task : Task.t) : State.t :=
  State.with_tasks state
    (<[str task_id := Task.mk (Task.id task) (Task.title task) true
                              (Task.created_at task)]> (State.tasks state)).

Lemma mark_active_succeeds (state : State.t) (now : string) (task_id : Z)
    (by_ : option string) (task : Task.t) :
  State.get_task state task_id = Some task →
  Task.active task = false →
  (∀ e, e ∈ State.edges state → Edge.to_id e ≠ task_id) →
  State.active_count state < Config.max_active (State.config state) →
  mark state now task_id ACTIVE by_
  = Saved (activated state task_id task)
          ["Marked task [" +:+ str task_id +:+ "] as active"].
Proof.
  intros Hget Hinactive Hnone Hroom. apply get_edges_to_nil in Hnone.
  unfold mark. rewrite Hget, Hinactive, Hnone.
  by rewrite bool_decide_eq_false_2 by lia.
Qed.

(** C5. With [max_active] tasks active, activating an inactive pool task
    that no edge ends at fails with MaxActiveReached and saves nothing.
    Once one of the active tasks has been marked inactive, or has been
    marked done, the same activation succeeds. *)
Theorem max_active_ceiling (state : State.t) (now : string) (task_id : Z)
    (by_ : option string) (task : Task.t) :
  State.get_task state task_id = Some task →
  Task.active task = false →
  (∀ e, e ∈ State.edges state → Edge.to_id e ≠ task_id) →
  State.active_count state = Config.max_active (State.config state) →
  mark state now task_id ACTIVE by_
  = Failed (MaxActiveReached (Config.max_active (State.config state)))
  ∧ persisted state (mark state now task_id ACTIVE by_) = state
  ∧ ∀ (other : Z) (busy : Task.t) (now' : string) (by' : option string),
      State.get_task state other = Some busy →
      Task.active busy = true →
      (∃ state1 out1,
          mark state now' other INACTIVE by' = Saved state1 out1
          ∧ State.active_count state1
            = Config.max_active (State.config state) - 1
          ∧ mark state1 now task_id ACTIVE by_
            = Saved (activated state1 task_id task)
                    ["Marked task [" +:+ str task_id +:+ "] as active"])
      ∧ (∀ state1 out1,
          mark state now' other DONE by' = Saved state1 out1 →
          State.active_count state1 = Config.max_active (State.config state) - 1
          ∧ mark state1 now task_id ACTIVE by_
            = Saved (activated state1 task_id task)
                    ["Marked task [" +:+ str task_id +:+ "] as active"]).
Proof.
  intros Hget Hinactive Hnone Hfull.
  assert (mark state now task_id ACTIVE by_
          = Failed (MaxActiveReached (Config.max_active (State.config state))))
    as Hfail.
  { pose proof (proj2 (get_edges_to_nil state task_id) Hnone) as Hnil.
    unfold mark. rewrite Hget, Hinactive, Hnil.
    by rewrite bool_decide_eq_true_2 by lia. }
  split; [done|]. split; [by rewrite Hfail|].
  intros other busy now' by' Hbusy Hactive.
  assert (str other ≠ str task_id) as Hne.
  { apply str_ne. intros ->. rewrite Hget in Hbusy. congruence. }
  unfold State.get_task in Hget, Hbusy.
  pose proof (active_count_delete _ _ _ Hbusy) as Hcount.
  rewrite Hactive in Hcount. fold (State.active_count state) in Hcount.
  split.
  - eexists _, _. split.
    { unfold mark, State.get_task. rewrite Hbusy, Hactive. done. }
    assert (State.active_count
              (State.with_tasks state
                 (<[str other := Task.mk (Task.id busy) (Task.title busy) false
                                         (Task.created_at busy)]>
                    (State.tasks state)))
            = Config.max_active (State.config state) - 1) as Hcount1.
    { unfold State.active_count at 1. simpl. rewrite active_count_insert. simpl.
      lia. }
    split; [done|].
    apply mark_active_succeeds; [|done|done|simpl; lia].
    unfold State.get_task. simpl. by rewrite lookup_insert_ne.
  - intros state1 out1 Hdone.
    unfold mark, State.get_task in Hdone. rewrite Hbusy in Hdone.
    destruct (State.get_edges_to state other); [|done].
    injection Hdone as <- _.
    assert (State.active_count
              (State.mk (delete (str other) (State.tasks state))
                 (edges_without other (State.edges state)) (State.blocked state)
                 (State.history state
                    ++ [HistoryEntry.mk other (Task.title busy) now'
                                        (Task.created_at busy)])
                 (State.next_id state) (State.config state))
            = Config.max_active (State.config state) - 1) as Hcount1.
    { unfold State.active_count at 1. simpl. lia. }
    split; [done|].
    apply mark_active_succeeds; [|done| |simpl; lia].
    + unfold State.get_task. simpl. by rewrite lookup_delete_ne.
    + simpl. intros e He. apply elem_of_edges_without in He as (He & _ & _).
      by apply Hnone.
Qed.

Lemma max_active_ceiling_witness :
  State.get_task one_slot_taken 2
  = Some (Task.mk 2 "B" false "2025-01-12T10:00:00")
  ∧ State.active_count one_slot_taken = 1
  ∧ mark one_slot_taken "2025-01-13T08:00:00" 2 ACTIVE None
    = Failed (MaxActiveReached 1).
Proof.
  split; [vm_compute; reflexivity|]. split; [vm_compute; reflexivity|].
  apply (max_active_ceiling one_slot_taken "2025-01-13T08:00:00" 2 None
           (Task.mk 2 "B" false "2025-01-12T10:00:00")).
  - vm_compute. reflexivity.
  - reflexivity.
  - intros e He. vm_compute in He. by apply not_elem_of_nil in He.
  - vm_compute. reflexivity.
Defined.

(** ** What a successful link does to the edge list *)

Lemma _move_to_hold_edges (state : State.t) (task_id : Z) (blocker : string) :
  State.edges (_move_to_hold state task_id blocker).1 = State.edges state.
Proof. unfold _move_to_hold. by destruct (State.get_task state task_id). Qed.

Lemma link_cascade_edges (state : State.t) (from_id : Z) (all_to_move : list Z) :
  State.edges (link_cascade state from_id all_to_move).1 = State.edges state.
Proof.
  unfold link_cascade.
  change (State.edges state) with (State.edges (state, @nil string).1).
  generalize (state, @nil string).
  induction all_to_move as [|tid l IH]; intros [st moved]; [done|].
  simpl. rewrite IH. clear IH.
  pose proof (_move_to_hold_edges st tid ("Task " +:+ str from_id)) as Hmv.
  destruct (_move_to_hold st tid ("Task " +:+ str from_id)) as [st' [title|]];
    simpl in *; [by destruct (truthy title)|done].
Qed.

(** A link that was saved passed the four checks and the cycle test, and
    appended its edge to the list. *)
Lemma link_saved (state state' : State.t) (from_id to_id : Z) (out : list string) :
  link state from_id to_id = Some (Saved state' out) →
  _task_exists state from_id = true
  ∧ _task_exists state to_id = true
  ∧ from_id ≠ to_id
  ∧ State.has_edge state from_id to_id = false
  ∧ _would_create_cycle state from_id to_id = Some false
  ∧ State.edges state' = State.edges state ++ [Edge.mk from_id to_id].
Proof.
  unfold link.
  destruct (_task_exists state from_id); [|done].
  destruct (_task_exists state to_id); [|done]. simpl.
  case_bool_decide as Hne; [done|].
  destruct (State.has_edge state from_id to_id); [done|].
  destruct (_would_create_cycle state from_id to_id) as [[|]|]; [done| |done].
  simpl. intros Hlink. split_and!; try done.
  destruct (State.get_blocked _ from_id).
  - destruct (_get_all_descendants _ to_id) as [descendants|]; [|done]. simpl in Hlink.
    pose proof (link_cascade_edges
                  (State.with_edges state
                     (State.edges state ++ [Edge.mk from_id to_id]))
                  from_id (elements ({[to_id]} ∪ descendants))) as Hedges.
    destruct (link_cascade _ from_id _) as [st moved].
    injection Hlink as <- _. done.
  - injection Hlink as <- _. done.
Qed.

(** A link that was not saved left the state file alone. *)
Lemma link_persisted_edges (state : State.t) (from_id to_id : Z) (r : response) :
  link state from_id to_id = Some r →
  State.edges (persisted state r) = State.edges state
  ∨ State.edges (persisted state r)
    = State.edges state ++ [Edge.mk from_id to_id]
      ∧ _would_create_cycle state from_id to_id = Some false.
Proof.
  intros Hlink. destruct r as [state' out| |]; [|by left..].
  right. by apply link_saved in Hlink as (_ & _ & _ & _ & ? & ?).
Qed.

(** ** Edges after done and gone *)

(** [mark gone] on a pool task drops every edge that touches it. *)
Lemma gone_from_pool_drops_edges (state : State.t) (now : string) (task_id : Z)
    (by_ : option string) (task : Task.t) :
  State.tasks state !! str task_id = Some task →
  ∃ state' out,
    mark state now task_id GONE by_ = Saved state' out
    ∧ ∀ e, e ∈ State.edges state' →
           Edge.from_id e ≠ task_id ∧ Edge.to_id e ≠ task_id.
Proof.
  intros Hin. unfold mark. rewrite Hin. eexists _, _. split; [done|].
  simpl. intros e He. by apply elem_of_edges_without in He as (_ & ? & ?).
Qed.

(** [mark gone] on a task that is on hold and not in the pool removes the
    entry and writes the edge list back as it was. *)
Lemma gone_from_hold_keeps_edges (state : State.t) (now : string) (task_id : Z)
    (by_ : option string) (b : BlockedTask.t) :
  State.tasks state !! str task_id = None →
  State.get_blocked state task_id = Some b →
  ∃ state' out,
    mark state now task_id GONE by_ = Saved state' out
    ∧ State.edges state' = State.edges state.
Proof.
  intros Hpool Hheld. unfold mark. rewrite Hpool.
  unfold State.get_blocked in Hheld.
  assert (∃ rest, pop_first (λ b, bool_decide (BlockedTask.id b = task_id))
                            (State.blocked state) = Some (b, rest)) as [rest ->].
  { induction (State.blocked state) as [|x l IH]; [done|]. simpl in *.
    destruct (bool_decide (BlockedTask.id x = task_id)).
    - injection Hheld as ->. eauto.
    - destruct (IH Hheld) as [rest ->]. simpl. eauto. }
  eexists _, _. split; done.
Qed.

(** C6, at the failing input.  Task 1 is on hold and task 2 depends on it.
    [wip mark 1 gone] removes task 1 from hold, and the state it saves
    still has the edge from 1 to 2, whose source is in no collection.
    Task 2, once released, cannot be activated: the error names task 1. *)
Theorem gone_on_hold_leaves_edge :
  reachable held_with_dependent
  ∧ State.get_task held_with_dependent 1 = None
  ∧ State.get_blocked held_with_dependent 1
    = Some (BlockedTask.mk 1 "H" "Alice" "2025-01-12T09:00:00")
  ∧ ∃ state',
      mark held_with_dependent "2025-01-13T08:00:00" 1 GONE None
      = Saved state' ["Task [1] gone: H"]
      ∧ State.get_task state' 1 = None
      ∧ State.get_blocked state' 1 = None
      ∧ (∀ h, h ∈ State.history state' → HistoryEntry.id h ≠ 1)
      ∧ State.edges state' = [Edge.mk 1 2]
      ∧ mark (run state' (Mark "2025-01-13T09:00:00" 2 RELEASE None))
             "2025-01-13T10:00:00" 2 ACTIVE None
        = Failed (DependencyIncomplete Activate 2 ["1"]).
Proof.
  split; [apply reachable_foldl_run, reachable_empty|].
  split; [vm_compute; reflexivity|]. split; [vm_compute; reflexivity|].
  eexists. split; [vm_compute; reflexivity|].
  split_and!; try (vm_compute; reflexivity).
  intros h Hh. vm_compute in Hh. by apply not_elem_of_nil in Hh.
Qed.

(** ** The ids a DependencyIncomplete error lists *)

(** The reading of C8 as written: the ids listed are numbers in ascending
    order. *)
Definition lists_ascending (r : response) : Prop :=
  ∀ v task_id dep_ids,
    r = Failed (DependencyIncomplete v task_id dep_ids) →
    ∃ ids : list Z, dep_ids = str <$> ids ∧ Sorted Z.le ids.

(** C8 fails.  Task 3 was linked under task 2 first and under task 1
    next; activating it lists "2, 1". *)
Lemma dependency_list_not_ascending :
  reachable two_prerequisites
  ∧ message (DependencyIncomplete Activate 3 (blocking_ids two_prerequisites 3))
    = "Error: Cannot activate task 3. It depends on incomplete tasks [2, 1]. Complete those first."
  ∧ ¬ lists_ascending (mark two_prerequisites "2025-01-13T08:00:00" 3 ACTIVE None).
Proof.
  split; [apply reachable_foldl_run, reachable_empty|].
  split; [vm_compute; reflexivity|].
  intros Hasc.
  destruct (Hasc Activate 3 ["2"; "1"]) as (ids & Hids & Hsorted);
    [vm_compute; reflexivity|].
  destruct ids as [|a [|b [|c ids]]]; try done.
  injection Hids as Ha Hb.
  apply (str_inj 2 a) in Ha. apply (str_inj 1 b) in Hb. subst a b.
  apply Sorted_inv in Hsorted as [_ Hhd]. apply HdRel_inv in Hhd. lia.
Qed.

(** C8, amended.  A failing activation or completion lists the sources of
    the edges that end at the task in the order of the edge list, and a
    link that is saved puts its source last in that list: the ids come in
    the order in which the links were made. *)
Theorem dependency_list_in_edge_order (state : State.t) (now : string)
    (task_id : Z) (by_ : option string) (task : Task.t) (e : Edge.t) :
  State.get_task state task_id = Some task →
  e ∈ State.edges state →
  Edge.to_id e = task_id →
  (Task.active task = false →
     mark state now task_id ACTIVE by_
     = Failed (DependencyIncomplete Activate task_id (blocking_ids state task_id)))
  ∧ mark state now task_id DONE by_
    = Failed (DependencyIncomplete Complete task_id (blocking_ids state task_id))
  ∧ blocking_ids state task_id
    = (λ e, str (Edge.from_id e))
        <$> filter (λ e, Edge.to_id e = task_id) (State.edges state)
  ∧ ∀ from_id state' out,
      link state from_id task_id = Some (Saved state' out) →
      blocking_ids state' task_id = blocking_ids state task_id ++ [str from_id].
Proof.
  intros Hget He Hto.
  destruct (get_edges_to_cons state task_id e He Hto) as (d & ds & Hdeps).
  split_and!.
  - intros Hinactive. unfold mark, blocking_ids.
    by rewrite Hget, Hinactive, Hdeps.
  - unfold mark, blocking_ids. by rewrite Hget, Hdeps.
  - done.
  - intros from_id state' out Hlink.
    apply link_saved in Hlink as (_ & _ & _ & _ & _ & Hedges).
    unfold blocking_ids, State.get_edges_to. rewrite Hedges, filter_app, fmap_app.
    f_equal. by rewrite filter_cons_True.
Qed.

Lemma dependency_list_in_edge_order_witness :
  State.get_task two_prerequisites 3
  = Some (Task.mk 3 "C" false "2025-01-12T11:00:00")
  ∧ mark two_prerequisites "2025-01-13T08:00:00" 3 DONE None
    = Failed (DependencyIncomplete Complete 3 ["2"; "1"]).
Proof.
  split; [vm_compute; reflexivity|].
  apply (dependency_list_in_edge_order two_prerequisites "2025-01-13T08:00:00" 3
           None (Task.mk 3 "C" false "2025-01-12T11:00:00") (Edge.mk 2 3)).
  - vm_compute. reflexivity.
  - vm_compute. left.
  - reflexivity.
Defined.

(** ** Serialization round trip *)

Lemma list_comprehension_fmap {A B} (f : B → res A) (g : A → B) (l : list A) :
  (∀ x, f (g x) = Ok x) → list_comprehension f (g <$> l) = Ok l.
Proof.
  intros Hfg. induction l as [|x l IH]; [done|].
  rewrite fmap_cons. cbn [list_comprehension]. by rewrite Hfg, IH.
Qed.

Lemma dict_comprehension_fmap {A B} (f : B → res A) (g : A → B)
    (d : gmap string A) :
  (∀ x, f (g x) = Ok x) → dict_comprehension f (g <$> d) = Ok d.
Proof.
  intros Hfg. unfold dict_comprehension. rewrite map_fold_fmap.
  apply (map_fold_weak_ind (λ r m, r = Ok m)); [done|].
  intros k x m r _ ->. simpl. by rewrite Hfg.
Qed.

Lemma Task_round_trip (t : Task.t) : Task.from_dict (Task.to_dict t) = Ok t.
Proof. by destruct t. Qed.

Lemma Edge_round_trip (e : Edge.t) : Edge.from_dict (Edge.to_dict e) = Ok e.
Proof. by destruct e. Qed.

Lemma BlockedTask_round_trip (b : BlockedTask.t) :
  BlockedTask.from_dict (BlockedTask.to_dict b) = Ok b.
Proof. by destruct b. Qed.

Lemma HistoryEntry_round_trip (h : HistoryEntry.t) :
  HistoryEntry.from_dict (HistoryEntry.to_dict h) = Ok h.
Proof. by destruct h. Qed.

Lemma ShareConfig_round_trip (s : ShareConfig.t) :
  ShareConfig.from_dict (ShareConfig.to_dict s) = Ok s.
Proof. by destruct s as [e [gi|] [gu|]]. Qed.

Lemma Config_round_trip (c : Config.t) : Config.from_dict (Config.to_dict c) = Ok c.
Proof.
  destruct c as [ma sd sh]. unfold Config.from_dict, Config.to_dict.
  change (get (PDict _) "share" (PDict ∅)) with (Ok (ShareConfig.to_dict sh)).
  simpl. by rewrite ShareConfig_round_trip.
Qed.

(** C9. Reading back what [to_dict] wrote gives the state it was written
    from: the same tasks, edges, held tasks, history, [next_id] and
    config. *)
Theorem state_round_trip (state : State.t) :
  State.from_dict (State.to_dict state) = Ok state.
Proof.
  destruct state as [ts es bs hs n c]. unfold State.from_dict, State.to_dict.
  change (get (PDict _) "tasks" (PDict ∅)) with (Ok (PDict (Task.to_dict <$> ts))).
  change (get (PDict _) "edges" (PList [])) with (Ok (PList (Edge.to_dict <$> es))).
  change (get (PDict _) "blocked" (PList []))
    with (Ok (PList (BlockedTask.to_dict <$> bs))).
  change (get (PDict _) "history" (PList []))
    with (Ok (PList (HistoryEntry.to_dict <$> hs))).
  change (get (PDict _) "next_id" (PInt 1)) with (Ok (PInt n)).
  change (get (PDict _) "config" (PDict ∅)) with (Ok (Config.to_dict c)).
  cbn [mbind res_bind as_dict as_list as_int State.tasks State.edges State.blocked
       State.history State.next_id State.config].
  rewrite (dict_comprehension_fmap _ _ _ Task_round_trip).
  rewrite (list_comprehension_fmap _ _ _ Edge_round_trip).
  rewrite (list_comprehension_fmap _ _ _ BlockedTask_round_trip).
  rewrite (list_comprehension_fmap _ _ _ HistoryEntry_round_trip).
  cbn [mbind res_bind]. rewrite Config_round_trip. done.
Qed.

(** ** Staleness *)

Lemma filter_res_elem_of {A} (p : A → res bool) (l ys : list A) (x : A) :
  filter_res p l = Ok ys → x ∈ ys → x ∈ l ∧ p x = Ok true.
Proof.
  revert ys. induction l as [|y l IH]; intros ys Hf Hx; simpl in Hf.
  - injection Hf as <-. by apply not_elem_of_nil in Hx.
  - destruct (p y) as [b|] eqn:Hp; [|done]. simpl in Hf.
    destruct (filter_res p l) as [zs|]; [|done]. simpl in Hf.
    injection Hf as <-. destruct b.
    + apply elem_of_cons in Hx as [->|Hx].
      * split; [left|done].
      * destruct (IH zs eq_refl Hx). split; [by right|done].
    + destruct (IH zs eq_refl Hx). split; [by right|done].
Qed.

Section stale_facts.
Context {datetime : Type}.
Variable fromisoformat : string → res datetime.
Variable lt : datetime → datetime → res bool.

Lemma before_true (cutoff : datetime) (created_at : string) :
  created_datetime fromisoformat created_at ≫= before lt cutoff = Ok true →
  created_at ≠ ""
  ∧ ∃ d, fromisoformat created_at = Ok d ∧ lt d cutoff = Ok true.
Proof.
  unfold created_datetime, truthy. case_bool_decide as Hempty; [done|].
  simpl. destruct (fromisoformat created_at) as [d|]; [|done].
  simpl. eauto.
Qed.
End stale_facts.

(** C10. A task whose [created_at] is the empty string is not stale,
    whatever the cutoff and whatever the parser does: its creation time
    is [None].  So every pool task [stale] reports is inactive and has a
    non-empty [created_at] that parses to a time before the cutoff, and
    every held task it reports has such a [created_at]. *)
Theorem empty_created_at_never_stale {datetime : Type}
    (fromisoformat : string → res datetime)
    (lt : datetime → datetime → res bool) (state : State.t) (cutoff : datetime) :
  (∀ task, Task.created_at task = "" →
           stale_task fromisoformat lt cutoff task = Ok false)
  ∧ (∀ b, BlockedTask.created_at b = "" →
          stale_blocked fromisoformat lt cutoff b = Ok false)
  ∧ ∀ stale_tasks stale_held,
      stale fromisoformat lt state cutoff = Ok (stale_tasks, stale_held) →
      (∀ task, task ∈ stale_tasks →
         (∃ k, State.tasks state !! k = Some task)
         ∧ Task.active task = false
         ∧ Task.created_at task ≠ ""
         ∧ ∃ d, fromisoformat (Task.created_at task) = Ok d
                ∧ lt d cutoff = Ok true)
      ∧ (∀ b, b ∈ stale_held →
           b ∈ State.blocked state
           ∧ BlockedTask.created_at b ≠ ""
           ∧ ∃ d, fromisoformat (BlockedTask.created_at b) = Ok d
                  ∧ lt d cutoff = Ok true).
Proof.
  split_and!.
  - intros task Hempty. unfold stale_task, created_datetime.
    rewrite Hempty. by destruct (Task.active task).
  - intros b Hempty. unfold stale_blocked, created_datetime. by rewrite Hempty.
  - intros stale_tasks stale_held. unfold stale.
    destruct (filter_res (stale_task fromisoformat lt cutoff) _)
      as [ts|] eqn:Hts; [|done]. simpl.
    destruct (filter_res (stale_blocked fromisoformat lt cutoff) _)
      as [bs|] eqn:Hbs; [|done]. simpl.
    intros [= <- <-]. split.
    + intros task Htask.
      destruct (filter_res_elem_of _ _ _ _ Hts Htask) as [Hin Hstale].
      apply list_elem_of_fmap in Hin as ([k task'] & -> & Hin).
      apply elem_of_map_to_list in Hin. simpl in *.
      unfold stale_task in Hstale.
      destruct (Task.active task'); [done|]. simpl in Hstale.
      apply before_true in Hstale. split_and!; [by exists k|done|tauto..].
    + intros b Hb.
      destruct (filter_res_elem_of _ _ _ _ Hbs Hb) as [Hin Hstale].
      apply before_true in Hstale. tauto.
Qed.

(** A state with a task that has no creation time: the pool of
    [design_then_tests] with the time of task 2 blanked.  Times are read as
    integers here. *)
Definition undated : State.t :=
  State.with_tasks design_then_tests
    (<["2" := Task.mk 2 "Write tests" false ""]>
       (<["1" := Task.mk 1 "Design API" false "20250112"]> ∅)).

Lemma empty_created_at_never_stale_witness :
  stale int (λ a b, Ok (bool_decide (a < b))) undated 20250201
  = Ok ([Task.mk 1 "Design API" false "20250112"], [])
  ∧ ∀ task, task ∈ [Task.mk 1 "Design API" false "20250112"] →
            Task.created_at task ≠ "".
Proof.
  split; [vm_compute; reflexivity|].
  intros task Htask.
  destruct (empty_created_at_never_stale int (λ a b, Ok (bool_decide (a < b)))
              undated 20250201) as (_ & _ & Hstale).
  destruct (Hstale [Task.mk 1 "Design API" false "20250112"] []
              ltac:(vm_compute; reflexivity)) as [Htasks _].
  by destruct (Htasks task Htask) as (_ & _ & ? & _).
Defined.

(** ** Remapping the ids of an imported state *)

(** [sorted] lists the elements of the set once each, in ascending order. *)
Lemma elem_of_sorted (s : gset Z) (x : Z) : x ∈ sorted s ↔ x ∈ s.
Proof. unfold sorted. by rewrite merge_sort_Permutation, elem_of_elements. Qed.

Lemma NoDup_sorted (s : gset Z) : NoDup (sorted s).
Proof. unfold sorted. rewrite merge_sort_Permutation. apply NoDup_elements. Qed.

Lemma length_sorted (s : gset Z) : length (sorted s) = size s.
Proof. unfold sorted. by rewrite merge_sort_Permutation. Qed.


(** The assignment loop numbers the ids from [next_id] on, in list order,
    and leaves the other keys of the map alone. *)
Lemma assign_ids_spec (ids : list Z) (id_map : gmap Z Z) (next_id : Z) :
  NoDup ids →
  (assign_ids ids id_map next_id).2 = next_id + Z.of_nat (length ids)
  ∧ (∀ (i : nat) old, ids !! i = Some old →
       (assign_ids ids id_map next_id).1 !! old = Some (next_id + Z.of_nat i))
  ∧ (∀ k, k ∉ ids → (assign_ids ids id_map next_id).1 !! k = id_map !! k).
Proof.
  revert id_map next_id.
  induction ids as [|x ids IH]; intros id_map next_id Hnd; simpl.
  - split_and!; [lia|done|done].
  - apply NoDup_cons in Hnd as [Hx Hnd].
    destruct (IH (<[x:=next_id]> id_map) (next_id + 1) Hnd) as (Hn & Hin & Hout).
    split_and!.
    + rewrite Hn. lia.
    + intros [|i] old Hi; simpl in Hi.
      * injection Hi as ->. rewrite (Hout old Hx), lookup_insert_eq. f_equal. lia.
      * rewrite (Hin i old Hi). f_equal. lia.
    + intros k Hk. apply not_elem_of_cons in Hk as [Hkx Hk].
      by rewrite (Hout k Hk), lookup_insert_ne.
Qed.

(** Comprehensions return when their function does on every element. *)
Lemma list_comprehension_ok {A B} (f : A → res B) (l : list A) :
  (∀ x, x ∈ l → ∃ y, f x = Ok y) → ∃ ys, list_comprehension f l = Ok ys.
Proof.
  induction l as [|x l IH]; intros Hall; simpl; [eauto|].
  destruct (Hall x) as [y ->]; [left|].
  destruct IH as [ys ->]; [intros z Hz; apply Hall; by right|].
  simpl. eauto.
Qed.

Lemma list_comprehension_elem_of {A B} (f : A → res B) (l : list A) (ys : list B)
    (x : A) :
  list_comprehension f l = Ok ys → x ∈ l → ∃ y, f x = Ok y ∧ y ∈ ys.
Proof.
  revert ys. induction l as [|z l IH]; intros ys Hl Hx.
  - by apply not_elem_of_nil in Hx.
  - simpl in Hl. destruct (f z) as [y|] eqn:Hz; [|done]. simpl in Hl.
    destruct (list_comprehension f l) as [ys'|]; [|done]. simpl in Hl.
    injection Hl as <-. apply elem_of_cons in Hx as [->|Hx].
    + exists y. split; [done|left].
    + destruct (IH ys' eq_refl Hx) as (y' & ? & ?). exists y'. split; [done|by right].
Qed.



Lemma list_comprehension_Forall2 {A B} (f : A → res B) (l : list A) (ys : list B) :
  list_comprehension f l = Ok ys → Forall2 (λ x y, f x = Ok y) l ys.
Proof.
  revert ys. induction l as [|x l IH]; intros ys; simpl.
  - intros [= <-]. constructor.
  - destruct (f x) as [y|] eqn:Hx; [|done]. simpl.
    destruct (list_comprehension f l) as [ys'|]; [|done]. simpl.
    intros [= <-]. constructor; [done|by apply IH].
Qed.

(** Every task of the rebuilt pool is an imported task under the string
    of its new id. *)
Lemma remap_tasks_inv (id_map : gmap Z Z) (tasks new_tasks : gmap string Task.t) :
  map_fold (λ tid task acc,
              new_tasks ← acc;
              new_id ← int tid ≫= id_map_getitem id_map;
              Ok (<[str new_id :=
                     Task.mk new_id (Task.title task) (Task.active task)
                             (Task.created_at task)]> new_tasks))
           (Ok ∅) tasks
  = Ok new_tasks →
  ∀ k' task',
    new_tasks !! k' = Some task' →
    k' = str (Task.id task')
    ∧ ∃ k task old_id,
        tasks !! k = Some task
        ∧ int k = Ok old_id
        ∧ id_map !! old_id = Some (Task.id task')
        ∧ task' = Task.mk (Task.id task') (Task.title task) (Task.active task)
                          (Task.created_at task).
Proof.
  revert new_tasks.
  apply (map_fold_weak_ind
           (λ r (m : gmap string Task.t),
              ∀ new_tasks : gmap string Task.t,
                r = Ok new_tasks →
                ∀ k' task',
                  new_tasks !! k' = Some task' →
                  k' = str (Task.id task')
                  ∧ ∃ k task old_id,
                      m !! k = Some task
                      ∧ int k = Ok old_id
                      ∧ id_map !! old_id = Some (Task.id task')
                      ∧ task' = Task.mk (Task.id task') (Task.title task)
                                  (Task.active task) (Task.created_at task))).
  - intros new_tasks [= <-] k' task' Hk. by rewrite lookup_empty in Hk.
  - intros k task m r Hfresh IH new_tasks Hr k' task' Hk'.
    destruct r as [acc|]; [|done]. simpl in Hr.
    destruct (int k) as [old_id|] eqn:Hint; [|done]. simpl in Hr.
    unfold id_map_getitem in Hr.
    destruct (id_map !! old_id) as [new_id|] eqn:Hnew; [|done]. simpl in Hr.
    injection Hr as <-.
    destruct (decide (k' = str new_id)) as [->|Hne].
    + rewrite lookup_insert_eq in Hk'. injection Hk' as <-. simpl.
      split; [done|]. exists k, task, old_id.
      by rewrite lookup_insert_eq.
    + rewrite lookup_insert_ne in Hk' by done.
      destruct (IH acc eq_refl k' task' Hk') as (? & k0 & task0 & old0 & Hk0 & ?).
      split; [done|]. exists k0, task0, old0. split; [|done].
      rewrite lookup_insert_ne; [done|]. intros ->. congruence.
Qed.



(** The loop that rebuilds the pool returns when every key is an integer
    with an image. *)
Lemma remap_tasks_ok (id_map : gmap Z Z) (tasks : gmap string Task.t) :
  (∀ k, is_Some (tasks !! k) → ∃ z new_id, int k = Ok z ∧ id_map !! z = Some new_id) →
  ∃ new_tasks : gmap string Task.t,
    map_fold (λ tid task acc,
                new_tasks ← acc;
                new_id ← int tid ≫= id_map_getitem id_map;
                Ok (<[str new_id :=
                       Task.mk new_id (Task.title task) (Task.active task)
                               (Task.created_at task)]> new_tasks))
             (Ok ∅) tasks
    = Ok new_tasks.
Proof.
  apply (map_fold_weak_ind
           (λ r (m : gmap string Task.t),
              (∀ k, is_Some (m !! k) →
                    ∃ z new_id, int k = Ok z ∧ id_map !! z = Some new_id) →
              ∃ x : gmap string Task.t, r = Ok x)).
  - eauto.
  - intros k task m r Hk IH Hall.
    destruct IH as [x ->].
    { intros k' Hk'. apply Hall. rewrite lookup_insert_ne; [done|].
      intros ->. rewrite Hk in Hk'. by destruct Hk'. }
    destruct (Hall k) as (z & new_id & Hz & Hnew);
      [by rewrite lookup_insert_eq|].
    simpl. rewrite Hz. simpl. unfold id_map_getitem. rewrite Hnew. simpl. eauto.
Qed.




(** [wip add A; wip add B; wip add C -b Alice; wip link 1 2]: the ids 1, 2
    and 3, as a snapshot to import. *)
Definition snapshot_123 : State.t :=
  foldl run State.empty
    [Add "2025-01-12T09:00:00" "A" None;
     Add "2025-01-12T10:00:00" "B" None;
     Add "2025-01-12T11:00:00" "C" (Some "Alice");
     Link 1 2].


(** ** The dependency graph and the search of [_would_create_cycle] *)

(** [edge_rel edges x y]: the list has the edge from [x] to [y]. *)
Definition edge_rel (edges : list Edge.t) : relation Z :=
  λ x y, Edge.mk x y ∈ edges.

(** No node reaches itself along one or more edges. *)
Definition acyclic (edges : list Edge.t) : Prop :=
  ∀ x, ¬ tc (edge_rel edges) x x.

Lemma edge_rel_app (edges : list Edge.t) (from_id to_id x y : Z) :
  edge_rel (edges ++ [Edge.mk from_id to_id]) x y
  ↔ edge_rel edges x y ∨ (x = from_id ∧ y = to_id).
Proof.
  unfold edge_rel. rewrite elem_of_app, list_elem_of_singleton.
  split; (intros [?|?]; [by left|right]); [by simplify_eq|].
  by destruct H as [-> ->].
Qed.

Lemma edge_rel_subseteq (edges edges' : list Edge.t) (x y : Z) :
  edges' ⊆ edges → tc (edge_rel edges') x y → tc (edge_rel edges) x y.
Proof.
  intros Hsub Htc. induction Htc as [x y Hxy|x y z Hxy _ IH].
  - apply tc_once. by apply Hsub.
  - eapply tc_l; [|exact IH]. by apply Hsub.
Qed.

Lemma acyclic_subseteq (edges edges' : list Edge.t) :
  edges' ⊆ edges → acyclic edges → acyclic edges'.
Proof. intros Hsub Hac x Hx. by eapply Hac, edge_rel_subseteq. Qed.

(** A path through the extended list either avoids the new edge or goes
    to its source and leaves from its target. *)
Lemma rtc_edge_rel_app (edges : list Edge.t) (from_id to_id x y : Z) :
  rtc (edge_rel (edges ++ [Edge.mk from_id to_id])) x y →
  rtc (edge_rel edges) x y
  ∨ (rtc (edge_rel edges) x from_id ∧ rtc (edge_rel edges) to_id y).
Proof.
  intros Hrtc. induction Hrtc as [x|x z y Hxz _ IH]; [by left|].
  apply edge_rel_app in Hxz as [Hxz|[-> ->]].
  - destruct IH as [IH|[IH1 IH2]].
    + left. by eapply rtc_l.
    + right. split; [by eapply rtc_l|done].
  - right. split; [done|]. by destruct IH as [IH|[_ IH]].
Qed.

Lemma tc_first_step {A} (R : relation A) (x y : A) :
  tc R x y → ∃ z, R x z ∧ rtc R z y.
Proof.
  intros [x' y' Hxy|x' z y' Hxz Hzy].
  - exists y'. split; [done|apply rtc_refl].
  - exists z. split; [done|by apply tc_rtc].
Qed.

(** Adding an edge whose target does not reach its source keeps the
    graph acyclic. *)
Lemma acyclic_app (edges : list Edge.t) (from_id to_id : Z) :
  acyclic edges →
  ¬ rtc (edge_rel edges) to_id from_id →
  acyclic (edges ++ [Edge.mk from_id to_id]).
Proof.
  intros Hac Hno x Hx.
  apply tc_first_step in Hx as (z & Hxz & Hzx).
  apply rtc_edge_rel_app in Hzx.
  apply edge_rel_app in Hxz as [Hxz|[-> ->]].
  - destruct Hzx as [Hzx|[Hzf Htx]].
    + apply (Hac x). by eapply tc_rtc_r; [apply tc_once|].
    + apply Hno. etrans; [exact Htx|]. by eapply rtc_l.
  - apply Hno. by destruct Hzx as [Hzx|[_ Hzx]].
Qed.

(** What one visit pushes: the targets of the edges out of [node], the
    last edge of the list on top. *)
Lemma push_edges (stack : list Z) (edges : list Edge.t) :
  foldl (λ stack edge, Edge.to_id edge :: stack) stack edges
  = reverse (Edge.to_id <$> edges) ++ stack.
Proof.
  revert stack. induction edges as [|e edges IH]; intros stack; [done|].
  simpl. rewrite IH, reverse_cons, <-app_assoc. done.
Qed.

Lemma elem_of_successors (state : State.t) (node y : Z) :
  y ∈ Edge.to_id <$> State.get_edges_from state node
  ↔ edge_rel (State.edges state) node y.
Proof.
  unfold State.get_edges_from, edge_rel. rewrite list_elem_of_fmap. split.
  - intros ([f t] & -> & He). apply list_elem_of_filter in He as [Hf He].
    simpl in *. by subst f.
  - intros He. exists (Edge.mk node y). split; [done|].
    by apply list_elem_of_filter.
Qed.

(** The edges out of a node that is visited now are no longer waiting. *)
Lemma length_waiting_edges (edges : list Edge.t) (visited : gset Z) (node : Z) :
  node ∉ visited →
  length (filter (λ e, Edge.from_id e ∉ visited) edges)
  = (length (filter (λ e, Edge.from_id e = node) edges)
     + length (filter (λ e, Edge.from_id e ∉ ({[node]} ∪ visited : gset Z)) edges))%nat.
Proof.
  intros Hnode. induction edges as [|e edges IH]; [done|].
  rewrite !filter_cons.
  destruct (decide (Edge.from_id e = node)) as [Heq|Hne].
  - rewrite decide_True by (by rewrite Heq).
    rewrite decide_False by set_solver. simpl. lia.
  - destruct (decide (Edge.from_id e ∉ visited)) as [Hout|Hin].
    + rewrite decide_True by set_solver. simpl. lia.
    + rewrite decide_False by set_solver. simpl. lia.
Qed.

(** Termination: the search returns within fuel that exceeds the length
    of the stack plus the number of edges out of unvisited nodes. *)
Lemma _would_create_cycle_loop_terminates (state : State.t) (from_id : Z)
    (fuel : nat) (visited : gset Z) (stack : list Z) :
  (length stack
   + length (filter (λ e, Edge.from_id e ∉ visited) (State.edges state))
   < fuel)%nat →
  is_Some (_would_create_cycle_loop fuel state from_id visited stack).
Proof.
  revert visited stack.
  induction fuel as [|fuel IH]; intros visited stack Hfuel; [lia|].
  destruct stack as [|node stack]; simpl; [eauto|].
  case_bool_decide; [eauto|].
  case_bool_decide as Hvisited.
  - apply IH. simpl in Hfuel. lia.
  - apply IH. rewrite push_edges, length_app, length_reverse, length_fmap.
    pose proof (length_waiting_edges (State.edges state) visited node Hvisited).
    unfold State.get_edges_from. simpl in Hfuel. lia.
Qed.

(** Soundness: the search answers [True] only when it popped [from_id],
    and what it pops was reached from the start. *)
Lemma _would_create_cycle_loop_true (state : State.t) (from_id start : Z)
    (fuel : nat) (visited : gset Z) (stack : list Z) :
  (∀ n, n ∈ stack → rtc (edge_rel (State.edges state)) start n) →
  _would_create_cycle_loop fuel state from_id visited stack = Some true →
  rtc (edge_rel (State.edges state)) start from_id.
Proof.
  revert visited stack.
  induction fuel as [|fuel IH]; intros visited stack Hstack; [done|].
  destruct stack as [|node stack]; simpl; [done|].
  case_bool_decide as Hnode.
  { intros _. subst node. apply Hstack. left. }
  case_bool_decide.
  - apply IH. intros n Hn. apply Hstack. by right.
  - apply IH. intros n Hn. rewrite push_edges in Hn.
    apply elem_of_app in Hn as [Hn|Hn].
    + apply elem_of_reverse, elem_of_successors in Hn.
      eapply rtc_r; [|exact Hn]. apply Hstack. left.
    + apply Hstack. by right.
Qed.

(** Completeness: when the search answers [False], the nodes it visited
    and those on the stack lie in a set that is closed under the edges
    and does not hold [from_id]. *)
Lemma _would_create_cycle_loop_false (state : State.t) (from_id : Z)
    (fuel : nat) (visited : gset Z) (stack : list Z) :
  from_id ∉ visited →
  (∀ v w, v ∈ visited → edge_rel (State.edges state) v w →
          w ∈ visited ∨ w ∈ stack) →
  _would_create_cycle_loop fuel state from_id visited stack = Some false →
  ∃ closed : gset Z,
    (from_id ∉ closed)
    ∧ visited ⊆ closed
    ∧ (∀ n, n ∈ stack → n ∈ closed)
    ∧ (∀ v w, v ∈ closed → edge_rel (State.edges state) v w → w ∈ closed).
Proof.
  revert visited stack.
  induction fuel as [|fuel IH]; intros visited stack Hfrom Hinv; [done|].
  destruct stack as [|node stack]; simpl.
  { intros _. exists visited. split_and!; [done|done|by intros n ?%not_elem_of_nil|].
    intros v w Hv Hvw. destruct (Hinv v w Hv Hvw) as [?|?%not_elem_of_nil]; done. }
  case_bool_decide as Hnode; [done|].
  case_bool_decide as Hvisited.
  - intros Hloop.
    destruct (IH visited stack Hfrom) as (closed & ? & Hsub & Hstack & ?);
      [|done|].
    { intros v w Hv Hvw. destruct (Hinv v w Hv Hvw) as [?|Hw]; [by left|].
      apply elem_of_cons in Hw as [->|?]; [by left|by right]. }
    exists closed. split_and!; [done..| |done].
    intros n Hn. apply elem_of_cons in Hn as [->|?]; [by apply Hsub|by apply Hstack].
  - intros Hloop.
    apply IH in Hloop as (closed & ? & Hsub & Hstack & ?); [|set_solver|].
    2:{ intros v w Hv Hvw. rewrite push_edges, elem_of_app, elem_of_reverse.
      apply elem_of_union in Hv as [Hv|Hv].
      - apply elem_of_singleton in Hv as ->. right. left.
        by apply elem_of_successors.
      - destruct (Hinv v w Hv Hvw) as [?|Hw]; [left; set_solver|].
        apply elem_of_cons in Hw as [->|?]; [left; set_solver|by right; right]. }
    exists closed. split_and!; [done|set_solver| |done].
    intros n Hn. apply elem_of_cons in Hn as [->|Hn]; [set_solver|].
    apply Hstack. rewrite push_edges, elem_of_app. by right.
Qed.

Lemma closed_rtc (edges : list Edge.t) (closed : gset Z) (x y : Z) :
  (∀ v w, v ∈ closed → edge_rel edges v w → w ∈ closed) →
  rtc (edge_rel edges) x y → x ∈ closed → y ∈ closed.
Proof.
  intros Hclosed Hrtc. induction Hrtc as [|x z y Hxz _ IH]; [done|].
  intros Hx. apply IH. by eapply Hclosed.
Qed.

(** [_would_create_cycle] returns, and answers [True] exactly when
    [to_id] reaches [from_id] along zero or more edges. *)
Lemma _would_create_cycle_spec (state : State.t) (from_id to_id : Z) :
  ∃ b : bool,
    _would_create_cycle state from_id to_id = Some b
    ∧ (b = true ↔ rtc (edge_rel (State.edges state)) to_id from_id).
Proof.
  unfold _would_create_cycle.
  destruct (_would_create_cycle_loop_terminates state from_id
              (2 + length (State.edges state)) ∅ [to_id]) as [b Hb].
  { change (length [to_id]) with 1%nat.
    eapply Nat.le_lt_trans; [apply Nat.add_le_mono_l, length_filter|lia]. }
  exists b. split; [done|]. destruct b.
  - split; [intros _|done].
    eapply _would_create_cycle_loop_true; [|exact Hb].
    by intros n ->%list_elem_of_singleton.
  - split; [done|]. intros Hreach.
    apply _would_create_cycle_loop_false in Hb
      as (closed & Hfrom & _ & Hstack & Hclosed); [|set_solver..].
    destruct Hfrom. eapply closed_rtc; [done..|]. apply Hstack. left.
Qed.

(** ** Acyclicity is an invariant of the commands *)

(** Only [link] adds an edge. *)
Lemma mark_edges_subseteq (state : State.t) (now : string) (task_id : Z)
    (name : state_name) (by_ : option string) :
  State.edges (persisted state (mark state now task_id name by_))
  ⊆ State.edges state.
Proof.
  intros e. unfold mark, not_in_pool.
  destruct name; repeat case_match; simpl; try done;
    by intros (? & _)%elem_of_edges_without.
Qed.

Lemma exec_edges (state : State.t) (c : command) (r : response) :
  exec state c = Some r →
  State.edges (persisted state r) ⊆ State.edges state
  ∨ ∃ from_id to_id,
      State.edges (persisted state r)
      = State.edges state ++ [Edge.mk from_id to_id]
      ∧ ¬ rtc (edge_rel (State.edges state)) to_id from_id.
Proof.
  destruct c as [now title blocked|from_id to_id|from_id to_id
                |now task_id name by_|key value|]; simpl.
  - intros [= <-]. left. unfold add.
    destruct blocked as [b|]; [destruct (truthy b)|]; done.
  - intros Hlink.
    destruct (link_persisted_edges state from_id to_id r Hlink)
      as [->|[Hedges Hcheck]]; [by left|].
    right. exists from_id, to_id. split; [done|].
    destruct (_would_create_cycle_spec state from_id to_id) as (b & Hb & Hreach).
    rewrite Hcheck in Hb. injection Hb as <-. intros Hrtc.
    by apply Hreach in Hrtc.
  - intros [= <-]. left. unfold unlink.
    destruct (State.has_edge state from_id to_id); simpl; [|done].
    apply list_subseteq_filter.
  - intros [= <-]. left. apply mark_edges_subseteq.
  - intros [= <-]. left. unfold config. repeat case_match; done.
  - intros [= <-]. left. simpl. apply list_subseteq_nil.
Qed.

Lemma exec_acyclic (state : State.t) (c : command) (r : response) :
  exec state c = Some r →
  acyclic (State.edges state) → acyclic (State.edges (persisted state r)).
Proof.
  intros Hexec Hac.
  destruct (exec_edges state c r Hexec) as [Hsub|(f & t & -> & Hno)].
  - by eapply acyclic_subseteq.
  - by apply acyclic_app.
Qed.

Lemma reachable_acyclic (state : State.t) :
  reachable state → acyclic (State.edges state).
Proof.
  induction 1 as [|state c r _ IH Hexec].
  - intros x Hx. apply tc_first_step in Hx as (z & Hxz & _).
    by apply not_elem_of_nil in Hxz.
  - by eapply exec_acyclic.
Qed.

Lemma has_edge_true (state : State.t) (from_id to_id : Z) :
  State.has_edge state from_id to_id = true
  ↔ edge_rel (State.edges state) from_id to_id.
Proof.
  unfold State.has_edge, edge_rel. rewrite existsb_exists. split.
  - intros ([f t] & He & Hft). apply andb_true_iff in Hft as [Hf Ht].
    apply bool_decide_eq_true in Hf, Ht. simpl in *. subst.
    by apply list_elem_of_In.
  - intros He. exists (Edge.mk from_id to_id). split; [by apply list_elem_of_In|].
    simpl. by rewrite !bool_decide_eq_true_2.
Qed.





(** ** The descendants of a task *)

(** One scan of the edge list adds the successors of [current] to the
    set, pushes those that are new, and keeps the measure of the loop
    from growing: every push takes at least one edge of [edges] out of
    those whose target is not yet in the set. *)
Lemma _get_all_descendants_scan_spec (edges : list Edge.t) (current : Z)
    (scanned : list Edge.t) (descendants : gset Z) (stack : list Z) :
  scanned ⊆ edges →
  let '(descendants', stack') :=
    _get_all_descendants_scan current scanned descendants stack in
  (∀ n, n ∈ descendants'
        ↔ n ∈ descendants ∨ edge_rel scanned current n)
  ∧ (∀ n, n ∈ stack' ↔ n ∈ stack ∨ (n ∈ descendants' ∧ n ∉ descendants))
  ∧ (length stack'
     + length (filter (λ e, Edge.to_id e ∉ descendants') edges)
     ≤ length stack
       + length (filter (λ e, Edge.to_id e ∉ descendants) edges))%nat.
Proof.
  unfold _get_all_descendants_scan.
  revert descendants stack.
  induction scanned as [|e scanned IH]; intros descendants stack Hsub.
  { simpl. split_and!; [|naive_solver|lia].
    intros n. split; [by left|]. intros [?|Hn]; [done|].
    by apply not_elem_of_nil in Hn. }
  assert (scanned ⊆ edges) as Hsub' by (intros x Hx; apply Hsub; by right).
  assert (e ∈ edges) as He by (apply Hsub; left).
  cbn [foldl].
  destruct (bool_decide (Edge.from_id e = current)
            && negb (bool_decide (Edge.to_id e ∈ descendants))) eqn:Htest.
  - apply andb_true_iff in Htest as [Hfrom Hnew].
    apply bool_decide_eq_true in Hfrom.
    apply negb_true_iff, bool_decide_eq_false in Hnew.
    specialize (IH ({[Edge.to_id e]} ∪ descendants) (Edge.to_id e :: stack) Hsub').
    destruct (foldl _ _ scanned) as [descendants' stack'].
    destruct IH as (Hd & Hs & Hlen). split_and!.
    + intros n. rewrite Hd. unfold edge_rel. rewrite elem_of_cons.
      destruct e as [f t]. simpl in *. subst f. set_solver.
    + intros n. rewrite Hs, elem_of_cons. split.
      * intros [[->|?]|[? ?]]; [|by left|right; set_solver].
        right. split; [|done]. apply Hd. left. set_solver.
      * intros [?|[Hn Hnot]]; [by left; right|].
        destruct (decide (n = Edge.to_id e)) as [->|Hne]; [left; by left|].
        right. split; [done|set_solver].
    + simpl in Hlen.
      assert (length (filter (λ e0, Edge.to_id e0 ∉ {[Edge.to_id e]} ∪ descendants)
                             edges)
              < length (filter (λ e0, Edge.to_id e0 ∉ descendants) edges))%nat;
        [|lia].
      clear -He Hnew.
      induction edges as [|x edges IH]; [by apply not_elem_of_nil in He|].
      rewrite !filter_cons.
      assert (length (filter (λ e0, Edge.to_id e0 ∉ {[Edge.to_id e]} ∪ descendants)
                             edges)
              ≤ length (filter (λ e0, Edge.to_id e0 ∉ descendants) edges))%nat
        as Hmono.
      { clear. induction edges as [|y edges IH]; [done|].
        rewrite !filter_cons. repeat case_decide; simpl; try lia. set_solver. }
      apply elem_of_cons in He as [<-|He].
      * rewrite decide_False by set_solver. rewrite decide_True by done.
        simpl. lia.
      * specialize (IH He). repeat case_decide; simpl; try lia. set_solver.
  - specialize (IH descendants stack Hsub').
    destruct (foldl _ _ scanned) as [descendants' stack'].
    destruct IH as (Hd & Hs & Hlen). split_and!; [|done..].
    intros n. rewrite Hd. unfold edge_rel. rewrite elem_of_cons.
    split; [naive_solver|]. intros [?|[Heq|?]]; [by left| |by right].
    subst e. simpl in Htest. rewrite bool_decide_eq_true_2 in Htest by done.
    simpl in Htest. apply negb_false_iff, bool_decide_eq_true in Htest. by left.
Qed.

Lemma _get_all_descendants_loop_terminates (state : State.t) (fuel : nat)
    (descendants : gset Z) (stack : list Z) :
  (length stack
   + length (filter (λ e, Edge.to_id e ∉ descendants) (State.edges state))
   < fuel)%nat →
  is_Some (_get_all_descendants_loop fuel state descendants stack).
Proof.
  revert descendants stack.
  induction fuel as [|fuel IH]; intros descendants stack Hfuel; [lia|].
  destruct stack as [|current stack]; simpl; [eauto|].
  pose proof (_get_all_descendants_scan_spec (State.edges state) current
                (State.edges state) descendants stack ltac:(done)) as Hscan.
  destruct (_get_all_descendants_scan _ _ _ _) as [descendants' stack'].
  destruct Hscan as (_ & _ & Hlen). apply IH. simpl in Hfuel. lia.
Qed.

(** What the loop returns holds the set it started from and the nodes
    reached from it or from the stack, and nothing else. *)
Lemma _get_all_descendants_loop_spec (state : State.t) (task_id : Z) (fuel : nat)
    (descendants result : gset Z) (stack : list Z) :
  (∀ n, n ∈ descendants → tc (edge_rel (State.edges state)) task_id n) →
  (∀ n, n ∈ stack → rtc (edge_rel (State.edges state)) task_id n) →
  (∀ v, v = task_id ∨ v ∈ descendants →
        v ∈ stack ∨ ∀ w, edge_rel (State.edges state) v w → w ∈ descendants) →
  _get_all_descendants_loop fuel state descendants stack = Some result →
  (∀ n, n ∈ result → tc (edge_rel (State.edges state)) task_id n)
  ∧ (∀ v, v = task_id ∨ v ∈ result →
          ∀ w, edge_rel (State.edges state) v w → w ∈ result).
Proof.
  revert descendants stack.
  induction fuel as [|fuel IH]; intros descendants stack Hsound Hstack Hinv;
    [done|].
  destruct stack as [|current stack]; simpl.
  { intros [= <-]. split; [done|]. intros v Hv.
    by destruct (Hinv v Hv) as [?%not_elem_of_nil|?]. }
  pose proof (_get_all_descendants_scan_spec (State.edges state) current
                (State.edges state) descendants stack ltac:(done)) as Hscan.
  destruct (_get_all_descendants_scan _ _ _ _) as [descendants' stack'].
  destruct Hscan as (Hd & Hs & _).
  assert (rtc (edge_rel (State.edges state)) task_id current) as Hcurrent
    by (apply Hstack; left).
  apply IH.
  - intros n [Hn|Hn]%Hd; [by apply Hsound|]. by eapply tc_rtc_l; [|apply tc_once].
  - intros n [Hn|[[Hn|Hn]%Hd Hnew]]%Hs.
    + apply Hstack. by right.
    + done.
    + by eapply rtc_r.
  - intros v Hv.
    destruct (decide (v ∈ stack')) as [|Hnot]; [by left|]. right.
    assert (v = task_id ∨ v ∈ descendants) as Hv'.
    { destruct Hv as [->|Hv]; [by left|].
      destruct (decide (v ∈ descendants)); [by right|].
      destruct Hnot. apply Hs. by right. }
    intros w Hvw. apply Hd.
    destruct (Hinv v Hv') as [[->|Hin]%elem_of_cons|Hall].
    + by right.
    + destruct Hnot. apply Hs. by left.
    + left. by apply Hall.
Qed.

(** [_get_all_descendants] returns, and returns the nodes reached from
    [task_id] along one or more edges. *)
Lemma _get_all_descendants_spec (state : State.t) (task_id : Z) :
  ∃ descendants : gset Z,
    _get_all_descendants state task_id = Some descendants
    ∧ ∀ n, n ∈ descendants ↔ tc (edge_rel (State.edges state)) task_id n.
Proof.
  unfold _get_all_descendants.
  destruct (_get_all_descendants_loop_terminates state
              (2 + length (State.edges state)) ∅ [task_id])
    as [descendants Hloop].
  { change (length [task_id]) with 1%nat.
    eapply Nat.le_lt_trans; [apply Nat.add_le_mono_l, length_filter|lia]. }
  exists descendants. split; [done|].
  apply (_get_all_descendants_loop_spec state task_id) in Hloop
    as [Hsound Hclosed].
  - intros n. split; [apply Hsound|]. revert n. apply tc_ind_r.
    + intros z Hz. by apply (Hclosed task_id); [left|].
    + intros y z _ Hyz Hy. by apply (Hclosed y); [right|].
  - set_solver.
  - by intros n ->%list_elem_of_singleton.
  - intros v [->|?]; [left; left|set_solver].
Qed.

(** ** The cascade of a link under a held task *)

(** The held entry the cascade makes of the pool task [tid], if there is
    one, and the line it reports for it. *)
Definition held_entry (state : State.t) (from_id tid : Z) : option BlockedTask.t :=
  task ← State.get_task state tid;
  Some (BlockedTask.mk tid (Task.title task) ("Task " +:+ str from_id)
                       (Task.created_at task)).

Definition report_entry (state : State.t) (tid : Z) : option string :=
  task ← State.get_task state tid;
  if truthy (Task.title task)
  then Some ("[" +:+ str tid +:+ "] " +:+ Task.title task)
  else None.

Lemma omap_cons {A B} (f : A → option B) (x : A) (l : list A) :
  omap f (x :: l) = match f x with Some y => y :: omap f l | None => omap f l end.
Proof. done. Qed.

Lemma omap_ext_elem_of {A B} (f g : A → option B) (l : list A) :
  (∀ x, x ∈ l → f x = g x) → omap f l = omap g l.
Proof.
  induction l as [|x l IH]; intros Hfg; [done|].
  rewrite !omap_cons, (Hfg x) by left. rewrite IH; [done|].
  intros y Hy. apply Hfg. by right.
Qed.

(** The cascade loop over distinct ids: each id that is a key of the pool
    leaves the pool and is appended to the held list; the others are
    skipped.  The report has a line for each moved task whose title is
    not empty. *)
Lemma link_cascade_spec (state : State.t) (from_id : Z) (all_to_move : list Z) :
  NoDup all_to_move →
  ∀ state' moved_tasks,
    link_cascade state from_id all_to_move = (state', moved_tasks) →
    (∀ k, State.tasks state' !! k
          = if decide (k ∈ str <$> all_to_move) then None
            else State.tasks state !! k)
    ∧ State.blocked state'
      = State.blocked state ++ omap (held_entry state from_id) all_to_move
    ∧ moved_tasks = omap (report_entry state) all_to_move
    ∧ State.history state' = State.history state
    ∧ State.next_id state' = State.next_id state
    ∧ State.config state' = State.config state.
Proof.
  unfold link_cascade.
  assert (∀ moved0 state' moved_tasks,
            NoDup all_to_move →
            foldl (λ '(state, moved_tasks) tid,
                     let '(state, title) :=
                       _move_to_hold state tid ("Task " +:+ str from_id) in
                     match title with
                     | Some title =>
                         if truthy title
                         then (state,
                               moved_tasks ++ ["[" +:+ str tid +:+ "] " +:+ title])
                         else (state, moved_tasks)
                     | None => (state, moved_tasks)
                     end)
                  (state, moved0) all_to_move
            = (state', moved_tasks) →
            (∀ k, State.tasks state' !! k
                  = if decide (k ∈ str <$> all_to_move) then None
                    else State.tasks state !! k)
            ∧ State.blocked state'
              = State.blocked state ++ omap (held_entry state from_id) all_to_move
            ∧ moved_tasks = moved0 ++ omap (report_entry state) all_to_move
            ∧ State.history state' = State.history state
            ∧ State.next_id state' = State.next_id state
            ∧ State.config state' = State.config state) as Hgen;
    [|intros Hnd state' moved_tasks; by apply (Hgen [])].
  revert state.
  induction all_to_move as [|tid rest IH]; intros state moved0 state' moved_tasks Hnd.
  { simpl. intros [= <- <-]. by rewrite !app_nil_r. }
  apply NoDup_cons in Hnd as [Hfresh Hnd].
  cbn [foldl]. unfold _move_to_hold at 2.
  destruct (State.get_task state tid) as [task|] eqn:Htask.
  - set (state1 :=
           State.with_blocked
             (State.with_tasks state (delete (str tid) (State.tasks state)))
             (State.blocked
                (State.with_tasks state (delete (str tid) (State.tasks state)))
                ++ [BlockedTask.mk tid (Task.title task) ("Task " +:+ str from_id)
                                   (Task.created_at task)])).
    assert (∀ x, x ∈ rest → State.get_task state1 x = State.get_task state x)
      as Hsame.
    { intros x Hx. unfold State.get_task, state1. simpl.
      apply lookup_delete_ne, str_ne. by intros ->. }
    intros Hfold.
    assert (∃ moved1,
              foldl (λ '(state, moved_tasks) tid,
                       let '(state, title) :=
                         _move_to_hold state tid ("Task " +:+ str from_id) in
                       match title with
                       | Some title =>
                           if truthy title
                           then (state,
                                 moved_tasks ++ ["[" +:+ str tid +:+ "] " +:+ title])
                           else (state, moved_tasks)
                       | None => (state, moved_tasks)
                       end)
                    (state1, moved1) rest
              = (state', moved_tasks)
              ∧ moved1 = moved0 ++ omap (report_entry state) [tid])
      as (moved1 & Hfold1 & Hmoved1).
    { simpl. unfold report_entry. rewrite Htask. simpl.
      destruct (truthy (Task.title task)); eexists; split; try exact Hfold;
        by rewrite ?app_nil_r. }
    clear Hfold.
    destruct (IH state1 moved1 state' moved_tasks Hnd Hfold1)
      as (Htasks & Hblocked & Hmoved & Hhistory & Hnext & Hconfig).
    split_and!; try done.
    + intros k. rewrite Htasks, fmap_cons. unfold state1. simpl.
      destruct (decide (k ∈ str <$> rest)) as [Hin|Hout].
      * rewrite decide_True; [done|by right].
      * destruct (decide (k = str tid)) as [->|Hne].
        -- rewrite decide_True by left. apply lookup_delete_eq.
        -- rewrite decide_False by (by intros [?|?]%elem_of_cons).
           by apply lookup_delete_ne.
    + rewrite Hblocked.
      rewrite (omap_ext_elem_of (held_entry state1 from_id)
                 (held_entry state from_id) rest)
        by (intros x Hx; unfold held_entry; by rewrite (Hsame x Hx)).
      rewrite omap_cons. unfold held_entry at 2. rewrite Htask.
      unfold state1. simpl. by rewrite <-app_assoc.
    + rewrite Hmoved, Hmoved1, <-app_assoc. f_equal.
      rewrite (omap_ext_elem_of (report_entry state1) (report_entry state) rest)
        by (intros x Hx; unfold report_entry; by rewrite (Hsame x Hx)).
      by rewrite (omap_cons _ tid rest), (omap_cons _ tid []);
        destruct (report_entry state tid).
  - intros Hfold.
    destruct (IH state moved0 state' moved_tasks Hnd Hfold)
      as (Htasks & Hblocked & Hmoved & Hhistory & Hnext & Hconfig).
    split_and!; try done.
    + intros k. rewrite Htasks, fmap_cons.
      destruct (decide (k ∈ str <$> rest)) as [Hin|Hout].
      * rewrite decide_True; [done|by right].
      * destruct (decide (k = str tid)) as [->|Hne].
        -- by rewrite decide_True by left.
        -- by rewrite decide_False by (by intros [?|?]%elem_of_cons).
    + rewrite Hblocked, omap_cons. unfold held_entry at 2. by rewrite Htask.
    + rewrite Hmoved, omap_cons. unfold report_entry at 2. by rewrite Htask.
Qed.

(** A saved link under a held task: the tasks it moves are [to_id] and
    the nodes reached from it, taken once each.  Those that are keys of
    the pool leave it and are appended to the held list with the blocker
    [Task from_id]; no other key of the pool changes and the held list
    keeps its entries.  The report names the moved tasks whose title is
    not empty. *)
Lemma link_under_held_cascades (state state' : State.t) (from_id to_id : Z)
    (out : list string) (parent : BlockedTask.t) :
  link state from_id to_id = Some (Saved state' out) →
  State.get_blocked state from_id = Some parent →
  ∃ all_to_move : list Z,
    NoDup all_to_move
    ∧ (∀ tid, tid ∈ all_to_move
              ↔ tid = to_id ∨ tc (edge_rel (State.edges state')) to_id tid)
    ∧ (∀ k, State.tasks state' !! k
            = if decide (k ∈ str <$> all_to_move) then None
              else State.tasks state !! k)
    ∧ State.blocked state'
      = State.blocked state ++ omap (held_entry state from_id) all_to_move
    ∧ out
      = ("Linked task " +:+ str from_id +:+ " -> " +:+ str to_id)
          :: match omap (report_entry state) all_to_move with
             | [] => []
             | _ => ["Moved to hold (blocked by Task " +:+ str from_id +:+ "): "
                       +:+ join ", " (omap (report_entry state) all_to_move)]
             end.
Proof.
  intros Hlink Hparent.
  pose proof (link_saved _ _ _ _ _ Hlink) as (_ & _ & _ & _ & _ & Hedges).
  revert Hlink. unfold link.
  destruct (_task_exists state from_id); [|done].
  destruct (_task_exists state to_id); [|done]. simpl.
  case_bool_decide; [done|].
  destruct (State.has_edge state from_id to_id); [done|].
  destruct (_would_create_cycle state from_id to_id) as [[|]|]; [done| |done].
  simpl.
  set (state1 := State.with_edges state
                   (State.edges state ++ [Edge.mk from_id to_id])).
  change (State.get_blocked state1 from_id) with (State.get_blocked state from_id).
  rewrite Hparent.
  destruct (_get_all_descendants_spec state1 to_id) as (descendants & -> & Hdesc).
  simpl.
  pose proof (link_cascade_spec state1 from_id
                (elements ({[to_id]} ∪ descendants)) (NoDup_elements _)) as Hspec.
  destruct (link_cascade state1 from_id (elements ({[to_id]} ∪ descendants)))
    as [state2 moved_tasks].
  destruct (Hspec state2 moved_tasks eq_refl) as (Htasks & Hblocked & Hmoved & _).
  intros [= <- <-].
  exists (elements ({[to_id]} ∪ descendants)). split_and!.
  - apply NoDup_elements.
  - intros tid. rewrite elem_of_elements, elem_of_union, elem_of_singleton, Hdesc.
    by rewrite Hedges.
  - done.
  - done.
  - by rewrite Hmoved.
Qed.

(** C2, at the failing input.  Task 1 is on hold; tasks 2 and 3 are in
    the pool, task 2 has the empty title and task 3 depends on it.
    [wip link 1 2] moves tasks 2 and 3 to hold under "Task 1", and its
    report names task 3 only: the moved task 2 is not reported. *)
Theorem link_cascade_omits_untitled :
  reachable untitled_in_pool
  ∧ State.get_blocked untitled_in_pool 1
    = Some (BlockedTask.mk 1 "H" "Alice" "2025-01-12T09:00:00")
  ∧ State.get_task untitled_in_pool 2
    = Some (Task.mk 2 "" false "2025-01-12T10:00:00")
  ∧ State.get_task untitled_in_pool 3
    = Some (Task.mk 3 "U" false "2025-01-12T11:00:00")
  ∧ ∃ state',
      link untitled_in_pool 1 2
      = Some (Saved state'
                ["Linked task 1 -> 2"; "Moved to hold (blocked by Task 1): [3] U"])
      ∧ State.get_task state' 2 = None
      ∧ State.get_task state' 3 = None
      ∧ State.get_blocked state' 2
        = Some (BlockedTask.mk 2 "" "Task 1" "2025-01-12T10:00:00")
      ∧ State.get_blocked state' 3
        = Some (BlockedTask.mk 3 "U" "Task 1" "2025-01-12T11:00:00").
Proof.
  split; [apply reachable_foldl_run, reachable_empty|].
  split_and!; try (vm_compute; reflexivity).
  eexists. split_and!; vm_compute; reflexivity.
Qed.


(** * Further properties of the commands *)

(** ** The two graph searches, on any state *)

(** X1. [_would_create_cycle] returns on every state and every pair of
    ids, also when the edges already hold a cycle.  It answers [True]
    exactly when [to_id] reaches [from_id] along zero or more edges, and
    [False] exactly when it does not. *)
Theorem would_create_cycle_decides_reachability (state : State.t)
    (from_id to_id : Z) :
  _would_create_cycle state from_id to_id ≠ None
  ∧ (_would_create_cycle state from_id to_id = Some true
     ↔ rtc (edge_rel (State.edges state)) to_id from_id)
  ∧ (_would_create_cycle state from_id to_id = Some false
     ↔ ¬ rtc (edge_rel (State.edges state)) to_id from_id).
Proof.
  destruct (_would_create_cycle_spec state from_id to_id) as (b & Hb & Hiff).
  rewrite Hb. split; [done|]. destruct b.
  - split; [split; [intros _; by apply Hiff|done]|].
    split; [done|]. intros Hno. destruct Hno. by apply Hiff.
  - assert (¬ rtc (edge_rel (State.edges state)) to_id from_id) as Hno
      by (intros Hreach; by apply Hiff in Hreach).
    split; [split; [done|intros Hreach; by destruct Hno]|]. done.
Qed.

(** X2. [_get_all_descendants] returns on every state, and the set it
    returns holds exactly the ids reached from [task_id] along one or
    more edges.  So [task_id] itself is in the set only when it lies on a
    cycle, and every member is the target of some edge. *)
Theorem get_all_descendants_is_reachable_set (state : State.t) (task_id : Z) :
  ∃ descendants : gset Z,
    _get_all_descendants state task_id = Some descendants
    ∧ (∀ n, n ∈ descendants ↔ tc (edge_rel (State.edges state)) task_id n)
    ∧ (acyclic (State.edges state) → task_id ∉ descendants)
    ∧ (∀ n, n ∈ descendants →
            ∃ e, e ∈ State.edges state ∧ Edge.to_id e = n).
Proof.
  destruct (_get_all_descendants_spec state task_id) as (descendants & Hd & Hiff).
  exists descendants. split_and!; [done|done| |].
  - intros Hac Hin. apply (Hac task_id). by apply Hiff.
  - intros n Hn. apply Hiff in Hn.
    assert (∃ m, edge_rel (State.edges state) m n) as [m Hmn].
    { clear Hiff Hd. induction Hn as [x y Hxy|x y z _ _ IH]; eauto. }
    by exists (Edge.mk m n).
Qed.

(** ** What a saved link changes *)

(** [wip add H -b Alice; wip add T]: a held task and a pool task. *)
Definition held_and_pool : State.t :=
  foldl run State.empty
    [Add "2025-01-12T09:00:00" "H" (Some "Alice");
     Add "2025-01-12T10:00:00" "T" None].

(** X3. A saved link whose source is on hold moves [to_id] and the ids
    reached from it: each of them that is in the pool leaves the pool and
    gets a held entry with its title, its creation time and the blocker
    [Task from_id].  The other ids keep their pool entry, the held list
    keeps its entries in place, and it only grows by entries for moved
    pool tasks. *)
Theorem link_under_held_moves_descendants (state state' : State.t)
    (from_id to_id : Z) (out : list string) (parent : BlockedTask.t) :
  link state from_id to_id = Some (Saved state' out) →
  State.get_blocked state from_id = Some parent →
  (∀ tid task,
     tid = to_id ∨ tc (edge_rel (State.edges state')) to_id tid →
     State.get_task state tid = Some task →
     State.get_task state' tid = None
     ∧ BlockedTask.mk tid (Task.title task) ("Task " +:+ str from_id)
                      (Task.created_at task)
       ∈ State.blocked state')
  ∧ (∀ tid,
       ¬ (tid = to_id ∨ tc (edge_rel (State.edges state')) to_id tid) →
       State.get_task state' tid = State.get_task state tid)
  ∧ ∃ added,
      State.blocked state' = State.blocked state ++ added
      ∧ ∀ b, b ∈ added →
             (BlockedTask.id b = to_id
              ∨ tc (edge_rel (State.edges state')) to_id (BlockedTask.id b))
             ∧ ∃ task,
                 State.get_task state (BlockedTask.id b) = Some task
                 ∧ b = BlockedTask.mk (BlockedTask.id b) (Task.title task)
                         ("Task " +:+ str from_id) (Task.created_at task).
Proof.
  intros Hlink Hparent.
  destruct (link_under_held_cascades _ _ _ _ _ _ Hlink Hparent)
    as (l & Hnd & Hl & Htasks & Hblocked & _).
  split_and!.
  - intros tid task Hmoved Htask. apply Hl in Hmoved. split.
    + unfold State.get_task. rewrite Htasks.
      rewrite decide_True; [done|]. apply list_elem_of_fmap. eauto.
    + rewrite Hblocked. apply elem_of_app. right.
      apply list_elem_of_omap. exists tid. split; [done|].
      unfold held_entry. by rewrite Htask.
  - intros tid Hnot. unfold State.get_task. rewrite Htasks.
    rewrite decide_False; [done|].
    intros (tid' & Heq & Hin)%list_elem_of_fmap.
    apply str_inj in Heq as <-. by apply Hnot, Hl.
  - eexists. split; [exact Hblocked|].
    intros b (tid & Hin & Hentry)%list_elem_of_omap.
    unfold held_entry in Hentry.
    destruct (State.get_task state tid) as [task|] eqn:Htask; [|done].
    simpl in Hentry. injection Hentry as <-. simpl.
    split; [by apply Hl|]. eauto.
Qed.

Lemma link_under_held_moves_descendants_witness :
  link held_and_pool 1 2 = Some (Saved held_with_dependent
                                   ["Linked task 1 -> 2";
                                    "Moved to hold (blocked by Task 1): [2] T"])
  ∧ State.get_task held_with_dependent 2 = None
  ∧ BlockedTask.mk 2 "T" "Task 1" "2025-01-12T10:00:00"
    ∈ State.blocked held_with_dependent.
Proof.
  assert (link held_and_pool 1 2
          = Some (Saved held_with_dependent
                    ["Linked task 1 -> 2";
                     "Moved to hold (blocked by Task 1): [2] T"])) as Hlink
    by (vm_compute; reflexivity).
  split; [done|].
  destruct (link_under_held_moves_descendants held_and_pool held_with_dependent
              1 2 _ (BlockedTask.mk 1 "H" "Alice" "2025-01-12T09:00:00") Hlink
              ltac:(vm_compute; reflexivity)) as (Hmoved & _).
  apply (Hmoved 2 (Task.mk 2 "T" false "2025-01-12T10:00:00")).
  - by left.
  - vm_compute. reflexivity.
Defined.

(** X4. A saved link whose source is not on hold appends its edge at the
    end of the edge list and changes nothing else: no task moves. *)
Theorem link_from_pool_only_adds_edge (state state' : State.t)
    (from_id to_id : Z) (out : list string) :
  link state from_id to_id = Some (Saved state' out) →
  State.get_blocked state from_id = None →
  state' = State.with_edges state (State.edges state ++ [Edge.mk from_id to_id])
  ∧ out = ["Linked task " +:+ str from_id +:+ " -> " +:+ str to_id]
  ∧ is_Some (State.get_task state from_id).
Proof.
  intros Hlink Hfree.
  pose proof (link_saved _ _ _ _ _ Hlink) as (Hfrom & _).
  revert Hlink. unfold link. rewrite Hfrom.
  destruct (_task_exists state to_id); [|done]. simpl.
  case_bool_decide; [done|].
  destruct (State.has_edge state from_id to_id); [done|].
  destruct (_would_create_cycle state from_id to_id) as [[|]|]; [done| |done].
  simpl.
  change (State.get_blocked
            (State.with_edges state (State.edges state ++ [Edge.mk from_id to_id]))
            from_id)
    with (State.get_blocked state from_id).
  rewrite Hfree. intros [= <- <-]. split_and!; [done..|].
  unfold _task_exists in Hfrom. rewrite Hfree in Hfrom.
  apply orb_true_iff in Hfrom as [Hpool|Hheld].
  - by apply bool_decide_eq_true in Hpool.
  - apply bool_decide_eq_true in Hheld. by destruct Hheld.
Qed.

Lemma link_from_pool_only_adds_edge_witness :
  State.edges design_then_tests = [Edge.mk 1 2]
  ∧ State.tasks design_then_tests
    = State.tasks (foldl run State.empty
                     [Add "2025-01-12T09:00:00" "Design API" None;
                      Add "2025-01-12T10:00:00" "Write tests" None]).
Proof.
  destruct (link_from_pool_only_adds_edge
              (foldl run State.empty
                 [Add "2025-01-12T09:00:00" "Design API" None;
                  Add "2025-01-12T10:00:00" "Write tests" None])
              design_then_tests 1 2 ["Linked task 1 -> 2"]
              ltac:(vm_compute; reflexivity) ltac:(vm_compute; reflexivity))
    as (-> & _).
  split; reflexivity.
Defined.

(** ** Ids: issued once, in one place at a time *)

(** The shape the commands keep: every id in the pool, on hold, in the
    history or at the end of an edge was issued by [add], so it lies
    between 1 and [next_id]; a pool task is stored under the string of
    its own id; an id is in at most one of pool, hold and history, and
    at most once there. *)
Record well_formed (state : State.t) : Prop := {
  wf_next_id : 1 ≤ State.next_id state;
  wf_pool : ∀ k task,
    State.tasks state !! k = Some task →
    k = str (Task.id task) ∧ 1 ≤ Task.id task < State.next_id state;
  wf_held : ∀ b,
    b ∈ State.blocked state → 1 ≤ BlockedTask.id b < State.next_id state;
  wf_history : ∀ h,
    h ∈ State.history state → 1 ≤ HistoryEntry.id h < State.next_id state;
  wf_edges : ∀ e,
    e ∈ State.edges state →
    1 ≤ Edge.from_id e < State.next_id state
    ∧ 1 ≤ Edge.to_id e < State.next_id state;
  wf_held_once : NoDup (BlockedTask.id <$> State.blocked state);
  wf_history_once : NoDup (HistoryEntry.id <$> State.history state);
  wf_pool_held : ∀ b,
    b ∈ State.blocked state → State.tasks state !! str (BlockedTask.id b) = None;
  wf_pool_history : ∀ h,
    h ∈ State.history state → State.tasks state !! str (HistoryEntry.id h) = None;
  wf_held_history : ∀ b h,
    b ∈ State.blocked state → h ∈ State.history state →
    BlockedTask.id b ≠ HistoryEntry.id h
}.

Lemma get_blocked_Some (state : State.t) (task_id : Z) (b : BlockedTask.t) :
  State.get_blocked state task_id = Some b →
  b ∈ State.blocked state ∧ BlockedTask.id b = task_id.
Proof.
  unfold State.get_blocked. intros [Hin Hid]%find_some.
  split; [by apply list_elem_of_In|by apply bool_decide_eq_true in Hid].
Qed.

Lemma get_blocked_None (state : State.t) (task_id : Z) (b : BlockedTask.t) :
  State.get_blocked state task_id = None →
  b ∈ State.blocked state → BlockedTask.id b ≠ task_id.
Proof.
  unfold State.get_blocked. intros Hnone Hin%list_elem_of_In.
  by apply (find_none _ _ Hnone), bool_decide_eq_false in Hin.
Qed.

Lemma pop_first_Some {A} (p : A → bool) (l rest : list A) (x : A) :
  pop_first p l = Some (x, rest) →
  p x = true ∧ x ∈ l ∧ rest `sublist_of` l ∧ l ≡ₚ x :: rest.
Proof.
  revert rest. induction l as [|y l IH]; intros rest; simpl; [done|].
  destruct (p y) eqn:Hy.
  - intros [= -> ->]. split_and!; [done|left|by apply sublist_cons|done].
  - destruct (pop_first p l) as [[z l'']|]; [|done]. simpl.
    intros [= -> <-]. destruct (IH l'' eq_refl) as (? & ? & ? & Hperm).
    split_and!; [done|by right|by apply sublist_skip|].
    rewrite Hperm. apply Permutation_swap.
Qed.

Lemma pop_first_None {A} (p : A → bool) (l : list A) (x : A) :
  pop_first p l = None → x ∈ l → p x = false.
Proof.
  induction l as [|y l IH]; simpl; [by intros _ ?%not_elem_of_nil|].
  destruct (p y) eqn:Hy; [done|].
  destruct (pop_first p l) as [[z l'']|]; [done|].
  intros _ [->|?]%elem_of_cons; [done|by apply IH].
Qed.

(** The key of a pool task of a well-formed state gives its id. *)
Lemma wf_get_task (state : State.t) (task_id : Z) (task : Task.t) :
  well_formed state →
  State.get_task state task_id = Some task →
  Task.id task = task_id ∧ 1 ≤ task_id < State.next_id state.
Proof.
  intros Hwf Hget. destruct (wf_pool _ Hwf _ _ Hget) as [Hkey Hrange].
  apply str_inj in Hkey as ->. done.
Qed.

Lemma wf_key_fresh (state : State.t) (n : Z) :
  well_formed state → State.next_id state ≤ n →
  State.tasks state !! str n = None.
Proof.
  intros Hwf Hn. destruct (State.tasks state !! str n) as [task|] eqn:Hk; [|done].
  destruct (wf_get_task state n task Hwf Hk). lia.
Qed.

Lemma wf_with_edges (state : State.t) (edges : list Edge.t) :
  well_formed state →
  (∀ e, e ∈ edges →
        1 ≤ Edge.from_id e < State.next_id state
        ∧ 1 ≤ Edge.to_id e < State.next_id state) →
  well_formed (State.with_edges state edges).
Proof. intros [] Hedges. by constructor. Qed.

Lemma wf_with_config (state : State.t) (c : Config.t) :
  well_formed state → well_formed (State.with_config state c).
Proof. intros []. by constructor. Qed.

(** An assignment to a field of a pool task. *)
Lemma wf_update_task (state : State.t) (task_id : Z) (task task' : Task.t) :
  well_formed state →
  State.get_task state task_id = Some task →
  Task.id task' = Task.id task →
  well_formed (State.with_tasks state (<[str task_id := task']> (State.tasks state))).
Proof.
  intros Hwf Hget Hid. pose proof Hwf as [].
  assert (∀ k, State.tasks state !! k = None →
               <[str task_id := task']> (State.tasks state) !! k = None) as Hnone.
  { intros k Hk. rewrite lookup_insert_ne; [done|]. intros <-.
    unfold State.get_task in Hget. congruence. }
  constructor; simpl; try done; [|by eauto..].
  intros k t. destruct (decide (k = str task_id)) as [->|Hne].
  - rewrite lookup_insert_eq. intros [= <-]. rewrite Hid. by apply wf_pool0.
  - rewrite lookup_insert_ne by done. apply wf_pool0.
Qed.

(** A pool task goes on hold. *)
Lemma wf_hold (state : State.t) (task_id : Z) (task : Task.t) (blocker : string) :
  well_formed state →
  State.get_task state task_id = Some task →
  well_formed
    (State.mk (delete (str task_id) (State.tasks state)) (State.edges state)
       (State.blocked state
          ++ [BlockedTask.mk task_id (Task.title task) blocker
                             (Task.created_at task)])
       (State.history state) (State.next_id state) (State.config state)).
Proof.
  intros Hwf Hget. pose proof Hwf as [].
  destruct (wf_get_task _ _ _ Hwf Hget) as [Hid Hrange].
  constructor; simpl; try done.
  - intros k t [_ Hk]%lookup_delete_Some. by apply wf_pool0.
  - intros b [Hb| ->%list_elem_of_singleton]%elem_of_app; [by apply wf_held0|done].
  - rewrite fmap_app. apply NoDup_app. split_and!; [done| |apply NoDup_singleton].
    intros i (b & Hi & Hb)%list_elem_of_fmap Hsingle%list_elem_of_singleton.
    simpl in Hsingle. subst i. apply wf_pool_held0 in Hb.
    rewrite Hsingle in Hb. unfold State.get_task in Hget. congruence.
  - intros b [Hb| ->%list_elem_of_singleton]%elem_of_app.
    + apply lookup_delete_None. right. by apply wf_pool_held0.
    + simpl. apply lookup_delete_eq.
  - intros h Hh. apply lookup_delete_None. right. by apply wf_pool_history0.
  - intros b h [Hb| ->%list_elem_of_singleton]%elem_of_app Hh; [by eauto|].
    simpl. intros Heq. apply wf_pool_history0 in Hh.
    unfold State.get_task in Hget. rewrite Heq in Hget. congruence.
Qed.

Lemma _move_to_hold_well_formed (state : State.t) (task_id : Z) (blocker : string) :
  well_formed state → well_formed (_move_to_hold state task_id blocker).1.
Proof.
  intros Hwf. unfold _move_to_hold.
  destruct (State.get_task state task_id) as [task|] eqn:Hget; [|done].
  exact (wf_hold state task_id task blocker Hwf Hget).
Qed.

Lemma link_cascade_well_formed (state : State.t) (from_id : Z)
    (all_to_move : list Z) :
  well_formed state → well_formed (link_cascade state from_id all_to_move).1.
Proof.
  unfold link_cascade.
  change (well_formed state) with (well_formed (state, @nil string).1).
  generalize (state, @nil string).
  induction all_to_move as [|tid l IH]; intros [st moved] Hwf; [done|].
  simpl. apply IH.
  pose proof (_move_to_hold_well_formed st tid ("Task " +:+ str from_id) Hwf) as Hmv.
  destruct (_move_to_hold st tid ("Task " +:+ str from_id)) as [st' [title|]];
    simpl in *; [by destruct (truthy title)|done].
Qed.

(** The ids [link] accepts were issued. *)
Lemma wf_task_exists (state : State.t) (task_id : Z) :
  well_formed state → _task_exists state task_id = true →
  1 ≤ task_id < State.next_id state.
Proof.
  intros Hwf [Hpool|Hheld]%orb_true_iff.
  - apply bool_decide_eq_true in Hpool as [task Hget].
    by destruct (wf_get_task _ _ _ Hwf Hget).
  - apply bool_decide_eq_true in Hheld as [b Hget].
    apply get_blocked_Some in Hget as [Hb <-]. by apply (wf_held _ Hwf).
Qed.

Lemma add_well_formed (state : State.t) (now title : string)
    (blocked : option string) :
  well_formed state →
  well_formed (persisted state (add state now title blocked)).
Proof.
  intros Hwf. pose proof Hwf as [].
  pose proof (wf_key_fresh state (State.next_id state) Hwf ltac:(lia)) as Hfresh.
  assert (well_formed
            (State.with_tasks (State.with_next_id state (State.next_id state + 1))
               (<[str (State.next_id state) :=
                   Task.mk (State.next_id state) title false now]>
                  (State.tasks state)))) as Hregular.
  { assert (∀ i, i < State.next_id state →
                 <[str (State.next_id state) :=
                     Task.mk (State.next_id state) title false now]>
                   (State.tasks state) !! str i
                 = State.tasks state !! str i) as Hold.
    { intros i Hi. apply lookup_insert_ne, str_ne. lia. }
    constructor; simpl; try done.
    - lia.
    - intros k t. destruct (decide (k = str (State.next_id state))) as [->|Hne].
      + rewrite lookup_insert_eq. intros [= <-]. simpl. split; [done|lia].
      + rewrite lookup_insert_ne by done. intros Hk.
        destruct (wf_pool0 _ _ Hk). split; [done|lia].
    - intros b Hb. apply wf_held0 in Hb. lia.
    - intros h Hh. apply wf_history0 in Hh. lia.
    - intros e He. apply wf_edges0 in He. lia.
    - intros b Hb. rewrite Hold; [by apply wf_pool_held0|].
      apply wf_held0 in Hb. lia.
    - intros h Hh. rewrite Hold; [by apply wf_pool_history0|].
      apply wf_history0 in Hh. lia. }
  unfold add. destruct blocked as [b|]; [|done].
  destruct (truthy b); [|done]. simpl.
  constructor; simpl; try done.
  - lia.
  - intros k t Hk. destruct (wf_pool0 _ _ Hk). split; [done|lia].
  - intros x [Hx| ->%list_elem_of_singleton]%elem_of_app; simpl; [|lia].
    apply wf_held0 in Hx. lia.
  - intros h Hh. apply wf_history0 in Hh. lia.
  - intros e He. apply wf_edges0 in He. lia.
  - rewrite fmap_app. apply NoDup_app. split_and!; [done| |apply NoDup_singleton].
    intros i (x & Hi & Hx)%list_elem_of_fmap Hsingle%list_elem_of_singleton.
    simpl in Hsingle. apply wf_held0 in Hx. lia.
  - intros x [Hx| ->%list_elem_of_singleton]%elem_of_app; [by apply wf_pool_held0|].
    done.
  - intros x h [Hx| ->%list_elem_of_singleton]%elem_of_app Hh; [by eauto|].
    simpl. apply wf_history0 in Hh. lia.
Qed.

Lemma link_well_formed (state : State.t) (from_id to_id : Z) (r : response) :
  well_formed state → link state from_id to_id = Some r →
  well_formed (persisted state r).
Proof.
  intros Hwf. unfold link.
  destruct (_task_exists state from_id) eqn:Hfrom; [|by intros [= <-]].
  destruct (_task_exists state to_id) eqn:Hto; [|by intros [= <-]]. simpl.
  case_bool_decide; [by intros [= <-]|].
  destruct (State.has_edge state from_id to_id); [by intros [= <-]|].
  destruct (_would_create_cycle state from_id to_id) as [[|]|];
    [by intros [= <-]| |done].
  simpl.
  assert (well_formed
            (State.with_edges state
               (State.edges state ++ [Edge.mk from_id to_id]))) as Hwf1.
  { apply wf_with_edges; [done|].
    intros e [He| ->%list_elem_of_singleton]%elem_of_app.
    - by apply (wf_edges _ Hwf).
    - simpl. split; by apply wf_task_exists. }
  destruct (State.get_blocked _ from_id); [|by intros [= <-]].
  destruct (_get_all_descendants _ to_id) as [descendants|]; [|done]. simpl.
  pose proof (link_cascade_well_formed _ from_id
                (elements ({[to_id]} ∪ descendants)) Hwf1) as Hwf2.
  destruct (link_cascade _ from_id _) as [state2 moved].
  by intros [= <-].
Qed.

Lemma unlink_well_formed (state : State.t) (from_id to_id : Z) :
  well_formed state → well_formed (persisted state (unlink state from_id to_id)).
Proof.
  intros Hwf. unfold unlink.
  destruct (State.has_edge state from_id to_id); [|done]. simpl.
  apply wf_with_edges; [done|].
  intros e [_ He]%list_elem_of_filter. by apply (wf_edges _ Hwf).
Qed.

Lemma config_well_formed (state : State.t) (key value : string) :
  well_formed state → well_formed (persisted state (config state key value)).
Proof.
  intros Hwf. unfold config.
  repeat case_match; simpl; try done; by apply wf_with_config.
Qed.

Lemma reset_well_formed (state : State.t) :
  well_formed (persisted state (reset state)).
Proof.
  constructor; simpl; try done; try (by intros ? ?%not_elem_of_nil);
    try apply NoDup_nil_2.
  by intros ? ? ?%not_elem_of_nil.
Qed.

Lemma wf_done (state : State.t) (now : string) (task_id : Z) (task : Task.t) :
  well_formed state →
  State.get_task state task_id = Some task →
  well_formed
    (State.mk (delete (str task_id) (State.tasks state))
       (edges_without task_id (State.edges state)) (State.blocked state)
       (State.history state
          ++ [HistoryEntry.mk task_id (Task.title task) now (Task.created_at task)])
       (State.next_id state) (State.config state)).
Proof.
  intros Hwf Hget. pose proof Hwf as [].
  destruct (wf_get_task _ _ _ Hwf Hget) as [Hid Hrange].
  unfold State.get_task in Hget.
  constructor; simpl; try done.
  - intros k t [_ Hk]%lookup_delete_Some. by apply wf_pool0.
  - intros h [Hh| ->%list_elem_of_singleton]%elem_of_app; [by apply wf_history0|done].
  - intros e [He _]%elem_of_edges_without. by apply wf_edges0.
  - rewrite fmap_app. apply NoDup_app. split_and!; [done| |apply NoDup_singleton].
    intros i (h & Hi & Hh)%list_elem_of_fmap Hsingle%list_elem_of_singleton.
    simpl in Hsingle. subst i. apply wf_pool_history0 in Hh.
    rewrite Hsingle in Hh. congruence.
  - intros b Hb. apply lookup_delete_None. right. by apply wf_pool_held0.
  - intros h [Hh| ->%list_elem_of_singleton]%elem_of_app.
    + apply lookup_delete_None. right. by apply wf_pool_history0.
    + simpl. apply lookup_delete_eq.
  - intros b h Hb [Hh| ->%list_elem_of_singleton]%elem_of_app; [by eauto|].
    simpl. intros Heq. apply wf_pool_held0 in Hb. rewrite Heq in Hb. congruence.
Qed.

Lemma wf_release (state : State.t) (task_id : Z) (blocked : BlockedTask.t) :
  well_formed state →
  State.get_blocked state task_id = Some blocked →
  well_formed
    (State.mk (<[str task_id :=
                  Task.mk task_id (BlockedTask.title blocked) false
                          (BlockedTask.created_at blocked)]> (State.tasks state))
       (State.edges state)
       (filter (λ b, BlockedTask.id b ≠ task_id) (State.blocked state))
       (State.history state) (State.next_id state) (State.config state)).
Proof.
  intros Hwf Hget. pose proof Hwf as [].
  apply get_blocked_Some in Hget as [Hin Hid].
  constructor; simpl; try done.
  - intros k t. destruct (decide (k = str task_id)) as [->|Hne].
    + rewrite lookup_insert_eq. intros [= <-]. simpl. split; [done|].
      rewrite <-Hid. by apply wf_held0.
    + rewrite lookup_insert_ne by done. apply wf_pool0.
  - intros b [_ Hb]%list_elem_of_filter. by apply wf_held0.
  - eapply sublist_NoDup; [exact wf_held_once0|].
    apply fmap_sublist, sublist_filter.
  - intros b [Hne Hb]%list_elem_of_filter.
    rewrite lookup_insert_ne by (by apply str_ne). by apply wf_pool_held0.
  - intros h Hh. rewrite lookup_insert_ne; [by apply wf_pool_history0|].
    apply str_ne. rewrite <-Hid. by apply wf_held_history0.
  - intros b h [_ Hb]%list_elem_of_filter Hh. by apply wf_held_history0.
Qed.

Lemma wf_gone_pool (state : State.t) (task_id : Z) :
  well_formed state →
  well_formed
    (State.mk (delete (str task_id) (State.tasks state))
       (edges_without task_id (State.edges state)) (State.blocked state)
       (State.history state) (State.next_id state) (State.config state)).
Proof.
  intros []. constructor; simpl; try done.
  - intros k t [_ Hk]%lookup_delete_Some. by apply wf_pool0.
  - intros e [He _]%elem_of_edges_without. by apply wf_edges0.
  - intros b Hb. apply lookup_delete_None. right. by apply wf_pool_held0.
  - intros h Hh. apply lookup_delete_None. right. by apply wf_pool_history0.
Qed.

Lemma wf_gone_held (state : State.t) (rest : list BlockedTask.t) :
  well_formed state →
  rest `sublist_of` State.blocked state →
  well_formed (State.with_blocked state rest).
Proof.
  intros [] Hsub. constructor; simpl; try done.
  - intros b Hb. eapply wf_held0, elem_of_sublist; done.
  - eapply sublist_NoDup; [exact wf_held_once0|]. by apply fmap_sublist.
  - intros b Hb. eapply wf_pool_held0, elem_of_sublist; done.
  - intros b h Hb Hh. apply wf_held_history0; [|done].
    by eapply elem_of_sublist.
Qed.

Lemma wf_gone_history (state : State.t) (rest : list HistoryEntry.t) :
  well_formed state →
  rest `sublist_of` State.history state →
  well_formed (State.with_history state rest).
Proof.
  intros [] Hsub. constructor; simpl; try done.
  - intros h Hh. eapply wf_history0, elem_of_sublist; done.
  - eapply sublist_NoDup; [exact wf_history_once0|]. by apply fmap_sublist.
  - intros h Hh. eapply wf_pool_history0, elem_of_sublist; done.
  - intros b h Hb Hh. apply wf_held_history0; [done|].
    by eapply elem_of_sublist.
Qed.

Lemma mark_well_formed (state : State.t) (now : string) (task_id : Z)
    (name : state_name) (by_ : option string) :
  well_formed state →
  well_formed (persisted state (mark state now task_id name by_)).
Proof.
  intros Hwf. unfold mark, not_in_pool. destruct name.
  - destruct (State.get_task state task_id) as [task|] eqn:Hget;
      [|by case_match].
    destruct (Task.active task); [done|].
    destruct (State.get_edges_to state task_id); [|done].
    case_bool_decide; [done|]. simpl. by eapply wf_update_task.
  - destruct (State.get_task state task_id) as [task|] eqn:Hget;
      [|by case_match].
    destruct (Task.active task); [|done]. simpl. by eapply wf_update_task.
  - destruct (State.get_task state task_id) as [task|] eqn:Hget;
      [|by case_match].
    destruct (State.get_edges_to state task_id); [|done]. simpl.
    by apply wf_done.
  - destruct by_ as [blocker|]; [|done].
    destruct (truthy blocker); [|done].
    destruct (State.get_task state task_id) as [task|] eqn:Hget;
      [|by case_match].
    simpl. by apply wf_hold.
  - destruct (State.get_blocked state task_id) as [blocked|] eqn:Hget; [|done].
    simpl. by apply wf_release.
  - destruct (State.tasks state !! str task_id) as [task|]; simpl.
    { apply wf_gone_pool, Hwf. }
    destruct (pop_first _ (State.blocked state)) as [[b rest]|] eqn:Hheld; simpl.
    { apply pop_first_Some in Hheld as (_ & _ & Hsub & _). by apply wf_gone_held. }
    destruct (pop_first _ (State.history state)) as [[h rest]|] eqn:Hhist; simpl;
      [|done].
    apply pop_first_Some in Hhist as (_ & _ & Hsub & _). by apply wf_gone_history.
Qed.

Lemma exec_well_formed (state : State.t) (c : command) (r : response) :
  well_formed state → exec state c = Some r → well_formed (persisted state r).
Proof.
  intros Hwf. destruct c; simpl.
  - intros [= <-]. by apply add_well_formed.
  - by apply link_well_formed.
  - intros [= <-]. by apply unlink_well_formed.
  - intros [= <-]. by apply mark_well_formed.
  - intros [= <-]. by apply config_well_formed.
  - intros [= <-]. apply reset_well_formed.
Qed.

Lemma reachable_well_formed (state : State.t) :
  reachable state → well_formed state.
Proof.
  induction 1 as [|state c r _ IH Hexec]; [|by eapply exec_well_formed].
  constructor; simpl; try done; try (by intros ? ?%not_elem_of_nil);
    try apply NoDup_nil_2.
  by intros ? ? ?%not_elem_of_nil.
Qed.

(** X5. Every state the commands reach from a fresh state file is well
    formed, and from a well-formed state, reached that way or loaded,
    every command saves a well-formed state: [next_id] stays above every
    id in the pool, on hold, in the history and on the edges, and a pool
    task stays under the string of its own id. *)
Theorem commands_keep_ids_issued (state : State.t) :
  (reachable state → well_formed state)
  ∧ (well_formed state →
     (∀ c r, exec state c = Some r → well_formed (persisted state r))
     ∧ (∀ task_id task,
          State.get_task state task_id = Some task →
          Task.id task = task_id ∧ 1 ≤ task_id < State.next_id state)
     ∧ (∀ task_id b,
          State.get_blocked state task_id = Some b →
          1 ≤ task_id < State.next_id state)).
Proof.
  split; [apply reachable_well_formed|]. intros Hwf. split_and!.
  - intros c r. by apply exec_well_formed.
  - intros task_id task. by apply wf_get_task.
  - intros task_id b [Hb <-]%get_blocked_Some. by apply (wf_held _ Hwf).
Qed.

Lemma commands_keep_ids_issued_witness :
  well_formed design_then_tests
  ∧ well_formed (run design_then_tests (Mark "2025-01-13T08:00:00" 1 DONE None)).
Proof.
  destruct (commands_keep_ids_issued design_then_tests) as [Hreach Hstep].
  assert (well_formed design_then_tests) as Hwf
    by apply Hreach, reachable_foldl_run, reachable_empty.
  split; [done|].
  destruct (Hstep Hwf) as (Hexec & _).
  apply (Hexec (Mark "2025-01-13T08:00:00" 1 DONE None)). reflexivity.
Defined.

Lemma NoDup_fmap_eq {A B} (f : A → B) (l : list A) (x y : A) :
  NoDup (f <$> l) → x ∈ l → y ∈ l → f x = f y → x = y.
Proof.
  induction l as [|z l IH]; [by intros _ ?%not_elem_of_nil|].
  rewrite fmap_cons, NoDup_cons. intros [Hz Hnd] Hx Hy Hxy.
  apply elem_of_cons in Hx as [->|Hx]; apply elem_of_cons in Hy as [->|Hy].
  - done.
  - destruct Hz. rewrite Hxy. by apply list_elem_of_fmap_2.
  - destruct Hz. rewrite <-Hxy. by apply list_elem_of_fmap_2.
  - by apply IH.
Qed.

(** X6. In every state the commands reach, an id is in at most one of
    the pool, the held list and the history, and the held list and the
    history have at most one entry for an id. *)
Theorem membership_is_exclusive (state : State.t) (task_id : Z) :
  reachable state →
  (is_Some (State.get_task state task_id) →
     (∀ b, b ∈ State.blocked state → BlockedTask.id b ≠ task_id)
     ∧ (∀ h, h ∈ State.history state → HistoryEntry.id h ≠ task_id))
  ∧ (∀ b h, b ∈ State.blocked state → h ∈ State.history state →
            BlockedTask.id b ≠ HistoryEntry.id h)
  ∧ (∀ b b', b ∈ State.blocked state → b' ∈ State.blocked state →
             BlockedTask.id b = BlockedTask.id b' → b = b')
  ∧ (∀ h h', h ∈ State.history state → h' ∈ State.history state →
             HistoryEntry.id h = HistoryEntry.id h' → h = h').
Proof.
  intros Hwf%reachable_well_formed. split_and!.
  - intros [task Hget]. unfold State.get_task in Hget. split.
    + intros b Hb <-. apply (wf_pool_held _ Hwf) in Hb. congruence.
    + intros h Hh <-. apply (wf_pool_history _ Hwf) in Hh. congruence.
  - apply (wf_held_history _ Hwf).
  - intros b b'. apply NoDup_fmap_eq, (wf_held_once _ Hwf).
  - intros h h'. apply NoDup_fmap_eq, (wf_history_once _ Hwf).
Qed.

Lemma membership_is_exclusive_witness :
  reachable held_with_dependent
  ∧ Forall (λ b, BlockedTask.id b ≠ 3)
           (State.blocked
              (run held_with_dependent (Add "2025-01-14T08:00:00" "N" None))).
Proof.
  split; [apply reachable_foldl_run, reachable_empty|].
  apply Forall_forall.
  assert (reachable (run held_with_dependent (Add "2025-01-14T08:00:00" "N" None)))
    as Hreach by apply reachable_run, reachable_foldl_run, reachable_empty.
  destruct (membership_is_exclusive _ 3 Hreach) as (Hpool & _).
  apply Hpool. vm_compute. eauto.
Defined.

Lemma find_app {A} (p : A → bool) (l l' : list A) :
  List.find p (l ++ l')
  = match List.find p l with Some x => Some x | None => List.find p l' end.
Proof.
  induction l as [|x l IH]; [done|]. simpl. by destruct (p x).
Qed.



(** ** The edge list: no edge twice, no edge from a task to itself *)

Lemma mark_edges_sublist (state : State.t) (now : string) (task_id : Z)
    (name : state_name) (by_ : option string) :
  State.edges (persisted state (mark state now task_id name by_))
  `sublist_of` State.edges state.
Proof.
  unfold mark, not_in_pool.
  destruct name; repeat case_match; simpl; try done; apply sublist_filter.
Qed.

Lemma exec_edges_shape (state : State.t) (c : command) (r : response) :
  exec state c = Some r →
  State.edges (persisted state r) `sublist_of` State.edges state
  ∨ ∃ from_id to_id,
      State.edges (persisted state r)
      = State.edges state ++ [Edge.mk from_id to_id]
      ∧ from_id ≠ to_id
      ∧ Edge.mk from_id to_id ∉ State.edges state.
Proof.
  destruct c as [now title blocked|from_id to_id|from_id to_id
                |now task_id name by_|key value|]; simpl.
  - intros [= <-]. left. unfold add.
    destruct blocked as [b|]; [destruct (truthy b)|]; done.
  - intros Hlink. destruct r as [state' out| |]; [|by left..].
    right. exists from_id, to_id.
    apply link_saved in Hlink as (_ & _ & Hne & Hedge & _ & Hedges).
    split_and!; [done..|].
    intros Hin%has_edge_true. congruence.
  - intros [= <-]. left. unfold unlink.
    destruct (State.has_edge state from_id to_id); simpl; [|done].
    apply sublist_filter.
  - intros [= <-]. left. apply mark_edges_sublist.
  - intros [= <-]. left. unfold config. repeat case_match; done.
  - intros [= <-]. left. simpl. apply sublist_nil_l.
Qed.

(** X8. None of [add], [link], [unlink], [mark], [config] and [reset]
    puts an edge twice into the edge list, or an edge from a task to
    itself: the edge list is free of both in every state these six
    commands reach from a fresh state file, and each of them keeps it so
    from any state where it is.  [load] and [load --merge], which take
    the edges of a file as they are, are not among them. *)
Theorem edges_stay_simple (state : State.t) :
  (reachable state →
     NoDup (State.edges state)
     ∧ ∀ e, e ∈ State.edges state → Edge.from_id e ≠ Edge.to_id e)
  ∧ (NoDup (State.edges state) →
     (∀ e, e ∈ State.edges state → Edge.from_id e ≠ Edge.to_id e) →
     ∀ c r, exec state c = Some r →
       NoDup (State.edges (persisted state r))
       ∧ ∀ e, e ∈ State.edges (persisted state r) →
              Edge.from_id e ≠ Edge.to_id e).
Proof.
  assert (∀ st c r,
            NoDup (State.edges st) →
            (∀ e, e ∈ State.edges st → Edge.from_id e ≠ Edge.to_id e) →
            exec st c = Some r →
            NoDup (State.edges (persisted st r))
            ∧ ∀ e, e ∈ State.edges (persisted st r) →
                   Edge.from_id e ≠ Edge.to_id e) as Hstep.
  { intros st c r Hnd Hloop Hexec.
    destruct (exec_edges_shape st c r Hexec) as [Hsub|(f & t & -> & Hne & Hnew)].
    - split; [by eapply sublist_NoDup|].
      intros e He. by eapply Hloop, elem_of_sublist.
    - split.
      + apply NoDup_app. split_and!; [done| |apply NoDup_singleton].
        by intros e He ->%list_elem_of_singleton.
      + intros e [He| ->%list_elem_of_singleton]%elem_of_app; [by apply Hloop|done]. }
  split; [|intros Hnd Hloop c r; by apply Hstep].
  induction 1 as [|st c r _ [IHnd IHloop] Hexec]; [|by eapply Hstep].
  split; [apply NoDup_nil_2|by intros e ?%not_elem_of_nil].
Qed.

Lemma edges_stay_simple_witness :
  NoDup (State.edges two_prerequisites).
Proof.
  destruct (edges_stay_simple two_prerequisites) as [Hreach _].
  apply Hreach, reachable_foldl_run, reachable_empty.
Defined.

(** ** The configuration *)

Lemma link_saved_frame (state state' : State.t) (from_id to_id : Z)
    (out : list string) :
  link state from_id to_id = Some (Saved state' out) →
  State.history state' = State.history state
  ∧ State.next_id state' = State.next_id state
  ∧ State.config state' = State.config state.
Proof.
  unfold link.
  destruct (_task_exists state from_id); [|done].
  destruct (_task_exists state to_id); [|done]. simpl.
  case_bool_decide; [done|].
  destruct (State.has_edge state from_id to_id); [done|].
  destruct (_would_create_cycle state from_id to_id) as [[|]|]; [done| |done].
  simpl. destruct (State.get_blocked _ from_id); [|by intros [= <- _]].
  destruct (_get_all_descendants _ to_id) as [descendants|]; [|done]. simpl.
  pose proof (link_cascade_spec
                (State.with_edges state
                   (State.edges state ++ [Edge.mk from_id to_id]))
                from_id (elements ({[to_id]} ∪ descendants)) (NoDup_elements _))
    as Hspec.
  destruct (link_cascade _ from_id _) as [state2 moved].
  destruct (Hspec state2 moved eq_refl) as (_ & _ & _ & ? & ? & ?).
  by intros [= <- _].
Qed.

Lemma mark_config (state : State.t) (now : string) (task_id : Z)
    (name : state_name) (by_ : option string) :
  State.config (persisted state (mark state now task_id name by_))
  = State.config state.
Proof.
  unfold mark, not_in_pool. destruct name; repeat case_match; done.
Qed.

(** X9. [max_active] and [stale_days] are at least 1 in every state that
    [add], [link], [unlink], [mark], [config] and [reset] reach from a
    fresh state file: [config] refuses smaller values and values that are
    not integers, and of these six commands only [config], with the key
    max_active or stale_days, changes the configuration.  [share] and
    [load], which also write it, are not among them. *)
Theorem config_values_stay_positive (state : State.t) :
  reachable state →
  1 ≤ Config.max_active (State.config state)
  ∧ 1 ≤ Config.stale_days (State.config state)
  ∧ ∀ c r,
      exec state c = Some r →
      State.config (persisted state r) ≠ State.config state →
      ∃ key value n,
        c = SetConfig key value ∧ int value = Ok n ∧ 1 ≤ n
        ∧ (key = "max_active" ∨ key = "stale_days").
Proof.
  assert (∀ st c r,
            exec st c = Some r →
            State.config (persisted st r) = State.config st
            ∨ ∃ key value n,
                c = SetConfig key value ∧ int value = Ok n ∧ 1 ≤ n
                ∧ (key = "max_active" ∧ State.config (persisted st r)
                     = Config.mk n (Config.stale_days (State.config st))
                                 (Config.share (State.config st))
                   ∨ key = "stale_days" ∧ State.config (persisted st r)
                     = Config.mk (Config.max_active (State.config st)) n
                                 (Config.share (State.config st)))) as Hstep.
  { intros st c r. destruct c as [now title blocked|from_id to_id|from_id to_id
                                  |now task_id name by_|key value|]; simpl.
    - intros [= <-]. left. unfold add.
      destruct blocked as [b|]; [destruct (truthy b)|]; done.
    - intros Hlink. left. destruct r as [state' out| |]; [|done..].
      by apply link_saved_frame in Hlink as (_ & _ & ?).
    - intros [= <-]. left. unfold unlink. by case_match.
    - intros [= <-]. left. apply mark_config.
    - intros [= <-]. unfold config.
      case_bool_decide as Hmax.
      { destruct (int value) as [n|] eqn:Hint; [|by left].
        case_bool_decide; [by left|]. right. exists key, value, n.
        split_and!; [done|done|lia|]. by left. }
      case_bool_decide as Hdays; [|by left].
      destruct (int value) as [n|] eqn:Hint; [|by left].
      case_bool_decide; [by left|]. right. exists key, value, n.
      split_and!; [done|done|lia|]. by right.
    - intros [= <-]. by left. }
  intros Hreach.
  assert (1 ≤ Config.max_active (State.config state)
          ∧ 1 ≤ Config.stale_days (State.config state)) as [Hmax Hdays].
  { induction Hreach as [|st c r _ [IHmax IHdays] Hexec]; [done|].
    destruct (Hstep st c r Hexec)
      as [->|(key & value & n & _ & _ & Hn & [[_ ->]|[_ ->]])]; done. }
  split; [done|]. split; [done|].
  intros c r Hexec Hchanged.
  destruct (Hstep state c r Hexec)
    as [?|(key & value & n & -> & Hint & Hn & [[-> _]|[-> _]])]; [done|..].
  - exists "max_active", value, n. split_and!; [done..|by left].
  - exists "stale_days", value, n. split_and!; [done..|by right].
Qed.

Lemma config_values_stay_positive_witness :
  1 ≤ Config.max_active (State.config one_slot_taken).
Proof.
  destruct (config_values_stay_positive one_slot_taken) as (Hmax & _);
    [apply reachable_foldl_run, reachable_empty|done].
Defined.

(** ** Commands that undo each other *)

Lemma filter_all {A} (P : A → Prop) `{!∀ x, Decision (P x)} (l : list A) :
  (∀ x, x ∈ l → P x) → filter P l = l.
Proof.
  induction l as [|x l IH]; intros Hall; [done|].
  rewrite filter_cons_True by (apply Hall; left).
  f_equal. apply IH. intros y Hy. apply Hall. by right.
Qed.

Lemma link_saved_not_held (state state' : State.t) (from_id to_id : Z)
    (out : list string) :
  link state from_id to_id = Some (Saved state' out) →
  State.get_blocked state from_id = None →
  state' = State.with_edges state (State.edges state ++ [Edge.mk from_id to_id]).
Proof.
  unfold link.
  destruct (_task_exists state from_id); [|done].
  destruct (_task_exists state to_id); [|done]. simpl.
  case_bool_decide; [done|].
  destruct (State.has_edge state from_id to_id); [done|].
  destruct (_would_create_cycle state from_id to_id) as [[|]|]; [done| |done].
  simpl. intros Hlink Hfree.
  change (State.get_blocked
            (State.with_edges state (State.edges state ++ [Edge.mk from_id to_id]))
            from_id)
    with (State.get_blocked state from_id) in Hlink.
  rewrite Hfree in Hlink. by injection Hlink as <- _.
Qed.

(** X10. [unlink] right after a saved [link] of the same pair puts the
    edge list back as it was.  When the source of the link was not on
    hold, the whole state is back; when it was, the tasks the link moved
    to hold stay there. *)
Theorem unlink_undoes_link (state state' : State.t) (from_id to_id : Z)
    (out : list string) :
  link state from_id to_id = Some (Saved state' out) →
  unlink state' from_id to_id
  = Saved (State.with_edges state' (State.edges state))
          ["Unlinked task " +:+ str from_id +:+ " -> " +:+ str to_id]
  ∧ (State.get_blocked state from_id = None →
     State.with_edges state' (State.edges state) = state)
  ∧ State.blocked (State.with_edges state' (State.edges state))
    = State.blocked state'.
Proof.
  intros Hlink.
  pose proof (link_saved _ _ _ _ _ Hlink) as (_ & _ & _ & Hedge & _ & Hedges).
  split_and!; [| |done].
  - unfold unlink.
    assert (State.has_edge state' from_id to_id = true) as ->.
    { apply has_edge_true. unfold edge_rel. rewrite Hedges.
      apply elem_of_app. right. left. }
    simpl. do 2 f_equal.
    rewrite Hedges, filter_app, filter_cons_False by (simpl; tauto).
    rewrite filter_nil, app_nil_r. apply filter_all.
    intros [f t] He [Hf Ht]. simpl in *. subst.
    apply has_edge_true in He. congruence.
  - intros Hfree. rewrite (link_saved_not_held _ _ _ _ _ Hlink Hfree).
    by destruct state.
Qed.

Lemma unlink_undoes_link_witness :
  unlink design_then_tests 1 2
  = Saved (foldl run State.empty
             [Add "2025-01-12T09:00:00" "Design API" None;
              Add "2025-01-12T10:00:00" "Write tests" None])
          ["Unlinked task 1 -> 2"].
Proof.
  destruct (unlink_undoes_link
              (foldl run State.empty
                 [Add "2025-01-12T09:00:00" "Design API" None;
                  Add "2025-01-12T10:00:00" "Write tests" None])
              design_then_tests 1 2 ["Linked task 1 -> 2"]
              ltac:(vm_compute; reflexivity)) as (Hunlink & Hback & _).
  rewrite Hunlink, (Hback ltac:(vm_compute; reflexivity)). reflexivity.
Defined.

(** X11. In a state the commands reached, putting a pool task on hold and
    releasing it gives back the pool entry with its title and creation
    time and the held list as it was; only the [active] flag is lost.
    For an inactive task the state is the one before the hold. *)
Theorem release_undoes_hold (state : State.t) (now now' : string) (task_id : Z)
    (blocker : string) (by_ : option string) (task : Task.t) :
  reachable state →
  State.get_task state task_id = Some task →
  truthy blocker = true →
  ∃ held,
    mark state now task_id HOLD (Some blocker)
    = Saved held ["Task [" +:+ str task_id +:+ "] on hold (" +:+ blocker +:+ ")"]
    ∧ State.get_task held task_id = None
    ∧ State.get_blocked held task_id
      = Some (BlockedTask.mk task_id (Task.title task) blocker
                             (Task.created_at task))
    ∧ State.edges held = State.edges state
    ∧ mark held now' task_id RELEASE by_
      = Saved (State.with_tasks state
                 (<[str task_id :=
                     Task.mk task_id (Task.title task) false
                             (Task.created_at task)]> (State.tasks state)))
              ["Released task [" +:+ str task_id +:+ "]: " +:+ Task.title task]
    ∧ (Task.active task = false →
       State.with_tasks state
         (<[str task_id :=
             Task.mk task_id (Task.title task) false (Task.created_at task)]>
            (State.tasks state))
       = state).
Proof.
  intros Hwf%reachable_well_formed Hget Hby.
  destruct (wf_get_task _ _ _ Hwf Hget) as [Hid _].
  assert (State.get_blocked state task_id = None) as Hnotheld.
  { destruct (State.get_blocked state task_id) as [b|] eqn:Hb; [|done].
    apply get_blocked_Some in Hb as [Hb <-].
    apply (wf_pool_held _ Hwf) in Hb. unfold State.get_task in Hget. congruence. }
  eexists. split.
  { unfold mark. by rewrite Hby, Hget. }
  assert (State.get_blocked
            (State.mk (delete (str task_id) (State.tasks state))
               (State.edges state)
               (State.blocked state
                  ++ [BlockedTask.mk task_id (Task.title task) blocker
                                     (Task.created_at task)])
               (State.history state) (State.next_id state) (State.config state))
            task_id
          = Some (BlockedTask.mk task_id (Task.title task) blocker
                                 (Task.created_at task))) as Hheld.
  { unfold State.get_blocked. simpl. rewrite find_app.
    fold (State.get_blocked state task_id). rewrite Hnotheld. simpl.
    by rewrite bool_decide_eq_true_2. }
  split_and!.
  - unfold State.get_task. simpl. apply lookup_delete_eq.
  - done.
  - done.
  - unfold mark. rewrite Hheld. simpl. do 2 f_equal.
    unfold State.with_tasks. f_equal.
    + apply insert_delete_eq.
    + rewrite filter_app, filter_cons_False by (simpl; tauto).
      rewrite filter_nil, app_nil_r. apply filter_all.
      intros b Hb. by eapply get_blocked_None.
  - intros Hinactive. destruct state as [ts es bs hs n c]. unfold State.with_tasks.
    simpl in *. f_equal. apply insert_id.
    unfold State.get_task in Hget. simpl in Hget. rewrite Hget. f_equal.
    destruct task as [i ti a cr]. simpl in *. by subst.
Qed.

Lemma release_undoes_hold_witness :
  ∃ held,
    mark design_then_tests "2025-01-13T08:00:00" 2 HOLD (Some "Bob")
    = Saved held ["Task [2] on hold (Bob)"]
    ∧ persisted held (mark held "2025-01-13T09:00:00" 2 RELEASE None)
      = design_then_tests.
Proof.
  destruct (release_undoes_hold design_then_tests "2025-01-13T08:00:00"
              "2025-01-13T09:00:00" 2 "Bob" None
              (Task.mk 2 "Write tests" false "2025-01-12T10:00:00"))
    as (held & Hhold & _ & _ & _ & Hrelease & Hsame).
  - apply reachable_foldl_run, reachable_empty.
  - vm_compute. reflexivity.
  - reflexivity.
  - exists held. split; [done|]. rewrite Hrelease. simpl. by apply Hsame.
Defined.

(** X12. A saved activation raises the number of active tasks by exactly
    one, to at most [max_active], and marking the task inactive right
    after gives back the state before the activation. *)
Theorem inactive_undoes_active (state state1 : State.t) (now now' : string)
    (task_id : Z) (by_ by' : option string) (out : list string) :
  mark state now task_id ACTIVE by_ = Saved state1 out →
  State.active_count state1 = State.active_count state + 1
  ∧ State.active_count state1 ≤ Config.max_active (State.config state1)
  ∧ mark state1 now' task_id INACTIVE by'
    = Saved state ["Marked task [" +:+ str task_id +:+ "] as inactive"].
Proof.
  unfold mark at 1, not_in_pool.
  destruct (State.get_task state task_id) as [task|] eqn:Hget; [|by case_match].
  destruct (Task.active task) eqn:Hinactive; [done|].
  destruct (State.get_edges_to state task_id); [|done].
  case_bool_decide as Hroom; [done|]. intros [= <- _].
  unfold State.get_task in Hget.
  assert (State.active_count
            (State.with_tasks state
               (<[str task_id := Task.mk (Task.id task) (Task.title task) true
                                         (Task.created_at task)]>
                  (State.tasks state)))
          = State.active_count state + 1) as Hcount.
  { unfold State.active_count. simpl.
    rewrite active_count_insert, (active_count_delete _ _ _ Hget), Hinactive.
    simpl. lia. }
  split; [done|]. split; [rewrite Hcount; simpl; lia|].
  unfold mark, State.get_task. simpl. rewrite lookup_insert_eq. simpl.
  do 2 f_equal. destruct state as [ts es bs hs n c]. unfold State.with_tasks.
  simpl in *. f_equal. rewrite insert_insert_eq. apply insert_id.
  rewrite Hget. f_equal. destruct task. simpl in *. by subst.
Qed.

(** [wip config max_active 1; wip add A] *)
Definition one_slot_free : State.t :=
  foldl run State.empty
    [SetConfig "max_active" "1"; Add "2025-01-12T09:00:00" "A" None].

Lemma inactive_undoes_active_witness :
  ∃ state1,
    mark one_slot_free "2025-01-12T09:30:00" 1 ACTIVE None
    = Saved state1 ["Marked task [1] as active"]
    ∧ State.active_count state1 = State.active_count one_slot_free + 1
    ∧ mark state1 "2025-01-12T09:40:00" 1 INACTIVE None
      = Saved one_slot_free ["Marked task [1] as inactive"].
Proof.
  eexists. split; [vm_compute; reflexivity|].
  destruct (inactive_undoes_active one_slot_free _ "2025-01-12T09:30:00"
              "2025-01-12T09:40:00" 1 None None ["Marked task [1] as active"]
              ltac:(vm_compute; reflexivity)) as (Hcount & _ & Hback).
  split; [exact Hcount|exact Hback].
Defined.

(** ** Edges between tasks that exist *)

(** Both ends of every edge are in the pool or on hold. *)
Definition edges_live (state : State.t) : Prop :=
  ∀ e, e ∈ State.edges state →
       _task_exists state (Edge.from_id e) = true
       ∧ _task_exists state (Edge.to_id e) = true.

Lemma _task_exists_true (state : State.t) (task_id : Z) :
  _task_exists state task_id = true
  ↔ is_Some (State.tasks state !! str task_id)
    ∨ ∃ b, b ∈ State.blocked state ∧ BlockedTask.id b = task_id.
Proof.
  unfold _task_exists. rewrite orb_true_iff, !bool_decide_eq_true.
  unfold State.get_task. split; (intros [?|Hheld]; [by left|right]).
  - destruct Hheld as [b Hb]. exists b. by apply get_blocked_Some.
  - destruct Hheld as (b & Hb & Hid).
    destruct (State.get_blocked state task_id) as [b'|] eqn:Hget; [done|].
    by destruct (get_blocked_None state task_id b Hget Hb).
Qed.

(** Edges stay live when the ends of the edges that are kept stay. *)
Lemma edges_live_step (state state' : State.t) (gone : Z → Prop) :
  edges_live state →
  (∀ e, e ∈ State.edges state' →
        e ∈ State.edges state ∧ ¬ gone (Edge.from_id e) ∧ ¬ gone (Edge.to_id e)) →
  (∀ j, ¬ gone j → _task_exists state j = true → _task_exists state' j = true) →
  edges_live state'.
Proof.
  intros Hlive Hedges Hkeep e He.
  destruct (Hedges e He) as (He' & Hfrom & Hto).
  destruct (Hlive e He'). split; by apply Hkeep.
Qed.

Lemma link_saved_live (state state' : State.t) (from_id to_id : Z)
    (out : list string) (j : Z) :
  link state from_id to_id = Some (Saved state' out) →
  _task_exists state j = true → _task_exists state' j = true.
Proof.
  intros Hlink.
  destruct (State.get_blocked state from_id) as [parent|] eqn:Hparent.
  - destruct (link_under_held_cascades _ _ _ _ _ _ Hlink Hparent)
      as (l & _ & _ & Htasks & Hblocked & _).
    rewrite !_task_exists_true, Htasks, Hblocked.
    intros [[task Hpool]|(b & Hb & Hid)].
    + destruct (decide (str j ∈ str <$> l)) as [Hin|Hout]; [|by left; eauto].
      right. apply list_elem_of_fmap in Hin as (j' & Hj & Hin).
      apply str_inj in Hj as <-.
      eexists. split.
      * apply elem_of_app. right. apply list_elem_of_omap. exists j.
        split; [done|]. unfold held_entry, State.get_task. by rewrite Hpool.
      * done.
    + right. exists b. split; [|done]. apply elem_of_app. by left.
  - by rewrite (link_saved_not_held _ _ _ _ _ Hlink Hparent).
Qed.

(** X13. From a state where both ends of every edge are in the pool or
    on hold, each of [add], [link], [unlink], [mark], [config] and
    [reset] saves such a state again, but for one case: [mark gone] on a
    task that is on hold and not in the pool.  [load] and [load --merge],
    which take the edges of a file as they are, are not among them. *)
Theorem edges_stay_live_unless_gone_on_hold (state : State.t) (c : command)
    (r : response) :
  edges_live state →
  exec state c = Some r →
  (∀ now task_id by_,
     c = Mark now task_id GONE by_ →
     is_Some (State.get_task state task_id)
     ∨ State.get_blocked state task_id = None) →
  edges_live (persisted state r).
Proof.
  intros Hlive Hexec Hnot.
  destruct c as [now title blocked|from_id to_id|from_id to_id
                |now task_id name by_|key value|]; simpl in Hexec.
  - injection Hexec as <-.
    apply (edges_live_step state _ (λ _, False)); [done| |].
    + intros e He. split; [|tauto]. revert He. unfold add.
      destruct blocked as [b|]; [destruct (truthy b)|]; done.
    + intros j _. rewrite !_task_exists_true. unfold add.
      destruct blocked as [b|]; [destruct (truthy b)|]; simpl.
      * intros [?|(x & ? & ?)]; [by left|right].
        exists x. split; [|done]. apply elem_of_app. by left.
      * intros [Hpool|?]; [left|by right].
        rewrite lookup_insert. by case_decide.
      * intros [Hpool|?]; [left|by right].
        rewrite lookup_insert. by case_decide.
  - destruct r as [state' out| |]; [|done..]. simpl.
    pose proof (link_saved _ _ _ _ _ Hexec) as (Hfrom & Hto & _ & _ & _ & Hedges).
    intros e. rewrite Hedges.
    intros [He| ->%list_elem_of_singleton]%elem_of_app.
    + destruct (Hlive e He). split; by eapply link_saved_live.
    + simpl. split; by eapply link_saved_live.
  - injection Hexec as <-.
    apply (edges_live_step state _ (λ _, False)); [done| |].
    + intros e He. split; [|tauto]. revert He. unfold unlink.
      destruct (State.has_edge state from_id to_id); simpl; [|done].
      by intros [_ ?]%list_elem_of_filter.
    + intros j _. unfold unlink. by case_match.
  - injection Hexec as <-. revert Hnot. unfold mark, not_in_pool.
    destruct name; intros Hnot.
    + destruct (State.get_task state task_id) as [task|] eqn:Hget;
        [|by case_match].
      destruct (Task.active task); [done|].
      destruct (State.get_edges_to state task_id); [|done].
      case_bool_decide; [done|]. simpl.
      apply (edges_live_step state _ (λ _, False)); [done|intros e He; split; [done|tauto]|].
      intros j _. rewrite !_task_exists_true. simpl.
      intros [Hpool|?]; [left|by right]. rewrite lookup_insert. by case_decide.
    + destruct (State.get_task state task_id) as [task|] eqn:Hget;
        [|by case_match].
      destruct (Task.active task); [|done]. simpl.
      apply (edges_live_step state _ (λ _, False)); [done|intros e He; split; [done|tauto]|].
      intros j _. rewrite !_task_exists_true. simpl.
      intros [Hpool|?]; [left|by right]. rewrite lookup_insert. by case_decide.
    + destruct (State.get_task state task_id) as [task|] eqn:Hget;
        [|by case_match].
      destruct (State.get_edges_to state task_id); [|done]. simpl.
      apply (edges_live_step state _ (λ j, j = task_id)); [done| |].
      * intros e (? & ? & ?)%elem_of_edges_without. done.
      * intros j Hj. rewrite !_task_exists_true. simpl.
        intros [Hpool|?]; [left|by right].
        by rewrite lookup_delete_ne by (by apply str_ne).
    + destruct by_ as [blocker|]; [|done].
      destruct (truthy blocker); [|done].
      destruct (State.get_task state task_id) as [task|] eqn:Hget;
        [|by case_match].
      simpl. apply (edges_live_step state _ (λ _, False)); [done|intros e He; split; [done|tauto]|].
      intros j _. rewrite !_task_exists_true. simpl.
      intros [Hpool|(b & Hb & Hid)].
      * destruct (decide (j = task_id)) as [->|Hne].
        -- right. eexists. split; [apply elem_of_app; right; left|done].
        -- left. by rewrite lookup_delete_ne by (by apply str_ne).
      * right. exists b. split; [|done]. apply elem_of_app. by left.
    + destruct (State.get_blocked state task_id) as [blocked|] eqn:Hget; [|done].
      simpl. apply (edges_live_step state _ (λ _, False)); [done|intros e He; split; [done|tauto]|].
      intros j _. rewrite !_task_exists_true. simpl.
      destruct (decide (j = task_id)) as [->|Hne].
      { intros _. left. by rewrite lookup_insert_eq. }
      intros [Hpool|(b & Hb & Hid)].
      * left. by rewrite lookup_insert_ne by (by apply str_ne).
      * right. exists b. split; [|done]. apply list_elem_of_filter.
        split; [congruence|done].
    + destruct (State.tasks state !! str task_id) as [task|] eqn:Hpool; simpl.
      { apply (edges_live_step state _ (λ j, j = task_id)); [done| |].
        - intros e (? & ? & ?)%elem_of_edges_without. done.
        - intros j Hj. rewrite !_task_exists_true. simpl.
          intros [Hin|?]; [left|by right].
          by rewrite lookup_delete_ne by (by apply str_ne). }
      destruct (Hnot now task_id by_ eq_refl) as [[task Hget]|Hfree].
      { unfold State.get_task in Hget. congruence. }
      destruct (pop_first _ (State.blocked state)) as [[b rest]|] eqn:Hheld.
      { apply pop_first_Some in Hheld as (Hid%bool_decide_eq_true & Hb & _).
        by destruct (get_blocked_None state task_id b Hfree Hb). }
      destruct (pop_first _ (State.history state)) as [[h rest]|]; [|done].
      simpl. apply (edges_live_step state _ (λ _, False)); [done|intros e He; split; [done|tauto]|].
      intros j _. by rewrite !_task_exists_true.
  - injection Hexec as <-.
    apply (edges_live_step state _ (λ _, False)); [done| |].
    + intros e He. split; [|tauto]. revert He. unfold config.
      repeat case_match; done.
    + intros j _. unfold config. repeat case_match; done.
  - injection Hexec as <-. intros e He. by apply not_elem_of_nil in He.
Qed.

Lemma edges_stay_live_unless_gone_on_hold_witness :
  edges_live (run design_then_tests (Mark "2025-01-13T08:00:00" 1 GONE None)).
Proof.
  apply (edges_stay_live_unless_gone_on_hold design_then_tests
           (Mark "2025-01-13T08:00:00" 1 GONE None)).
  - intros e He. vm_compute in He. apply list_elem_of_singleton in He as ->.
    split; vm_compute; reflexivity.
  - reflexivity.
  - intros now task_id by_ [= _ <- _]. left. vm_compute. eauto.
Defined.

(** ** Completing a prerequisite *)

(** X14. Once [mark done] on a task is saved, a pool task all of whose
    incoming edges came from that task has no incoming edge left: its
    completion is no longer refused, and its activation is saved when it
    is inactive and there is room under [max_active]. *)
Theorem done_unblocks_dependents (state state1 : State.t) (now now' : string)
    (task_id dependent : Z) (by_ by' : option string) (out : list string)
    (task : Task.t) :
  mark state now task_id DONE by_ = Saved state1 out →
  dependent ≠ task_id →
  State.get_task state dependent = Some task →
  (∀ e, e ∈ State.edges state → Edge.to_id e = dependent →
        Edge.from_id e = task_id) →
  State.get_task state1 dependent = Some task
  ∧ State.get_edges_to state1 dependent = []
  ∧ (∃ state2 out2, mark state1 now' dependent DONE by' = Saved state2 out2)
  ∧ (Task.active task = false →
     State.active_count state1 < Config.max_active (State.config state1) →
     mark state1 now' dependent ACTIVE by'
     = Saved (activated state1 dependent task)
             ["Marked task [" +:+ str dependent +:+ "] as active"]).
Proof.
  unfold mark at 1, not_in_pool.
  destruct (State.get_task state task_id) as [done_task|] eqn:Hget;
    [|by case_match].
  destruct (State.get_edges_to state task_id); [|done].
  intros [= <- _] Hne Hdep Honly.
  set (state1 :=
         State.mk (delete (str task_id) (State.tasks state))
           (edges_without task_id (State.edges state)) (State.blocked state)
           (State.history state
              ++ [HistoryEntry.mk task_id (Task.title done_task) now
                                  (Task.created_at done_task)])
           (State.next_id state) (State.config state)).
  assert (State.get_task state1 dependent = Some task) as Hdep1.
  { unfold State.get_task in *. simpl.
    by rewrite lookup_delete_ne by (by apply str_ne). }
  assert (∀ e, e ∈ State.edges state1 → Edge.to_id e ≠ dependent) as Hnone.
  { intros e (He & Hfrom & _)%elem_of_edges_without Hto. by apply Hfrom, Honly. }
  pose proof (proj2 (get_edges_to_nil state1 dependent) Hnone) as Hnil.
  split; [done|]. split; [done|]. split.
  - unfold mark. rewrite Hdep1, Hnil. by eexists _, _.
  - intros Hinactive Hroom. by apply mark_active_succeeds.
Qed.

Lemma done_unblocks_dependents_witness :
  ∃ state1,
    mark design_then_tests "2025-01-13T08:00:00" 1 DONE None
    = Saved state1 ["Completed task [1]: Design API"]
    ∧ mark state1 "2025-01-13T09:00:00" 2 ACTIVE None
      = Saved (activated state1 2 (Task.mk 2 "Write tests" false "2025-01-12T10:00:00"))
              ["Marked task [2] as active"].
Proof.
  eexists. split; [vm_compute; reflexivity|].
  refine (proj2 (proj2 (proj2
            (done_unblocks_dependents design_then_tests _ "2025-01-13T08:00:00"
               "2025-01-13T09:00:00" 1 2 None None
               ["Completed task [1]: Design API"]
               (Task.mk 2 "Write tests" false "2025-01-12T10:00:00")
               ltac:(vm_compute; reflexivity) ltac:(done)
               ltac:(vm_compute; reflexivity) _))) eq_refl _).
  - intros e He. vm_compute in He. by apply list_elem_of_singleton in He as ->.
  - vm_compute. reflexivity.
Defined.

(** ** Staleness, the other way round *)





(** ** [str] and [int] *)

(** No character of the string is white space for [int]. *)
Fixpoint no_space (s : string) : Prop :=
  match s with
  | EmptyString => True
  | String c s' => is_space c = false ∧ no_space s'
  end.

Lemma lstrip_no_space (s : string) : no_space s → lstrip s = s.
Proof. destruct s as [|c s]; [done|]. simpl. by intros [-> _]. Qed.

Lemma rev_app_rev_app (s t u : string) :
  String.rev_app (String.rev_app s t) u = String.rev_app t (s +:+ u).
Proof.
  revert t u. induction s as [|a s IH]; intros t u; [done|].
  change (String.rev_app (String a s) t) with (String.rev_app s (String a t)).
  rewrite IH. done.
Qed.

Lemma no_space_rev_app (s t : string) :
  no_space s → no_space t → no_space (String.rev_app s t).
Proof.
  revert t. induction s as [|a s IH]; intros t; [done|].
  simpl. intros [Ha Hs] Ht. by apply IH.
Qed.

Lemma string_app_nil_r (s : string) : s +:+ "" = s.
Proof.
  induction s as [|a s IH]; [done|].
  change (String a s +:+ "") with (String a (s +:+ "")). by rewrite IH.
Qed.

Lemma strip_no_space (s : string) : no_space s → strip s = s.
Proof.
  intros Hs. unfold strip. rewrite (lstrip_no_space s Hs).
  rewrite lstrip_no_space by (by apply no_space_rev_app).
  unfold String.rev. rewrite rev_app_rev_app. simpl. apply string_app_nil_r.
Qed.

Lemma digit_of_pretty_N_char (d : N) :
  (d < 10)%N → digit_of (pretty_N_char d) = Some (Z.of_N d).
Proof.
  intros Hd.
  assert (d = 0 ∨ d = 1 ∨ d = 2 ∨ d = 3 ∨ d = 4 ∨ d = 5 ∨ d = 6 ∨ d = 7
          ∨ d = 8 ∨ d = 9)%N as Hcases by lia.
  repeat (destruct Hcases as [->|Hcases]; [done|]). by subst.
Qed.

Lemma is_space_pretty_N_char (d : N) : is_space (pretty_N_char d) = false.
Proof. unfold pretty_N_char. by repeat case_match. Qed.

Lemma no_space_pretty_N_go (x : N) (s : string) :
  no_space s → no_space (pretty_N_go x s).
Proof.
  revert s. induction (N.lt_wf_0 x) as [x _ IH]; intros s Hs.
  destruct (decide (x = 0)%N) as [->|Hx]; [done|].
  rewrite pretty_N_go_step by lia. apply IH; [apply N.div_lt; lia|].
  split; [apply is_space_pretty_N_char|done].
Qed.

(** Reading the digits [str] wrote for a positive number continues from
    the number, whatever came before it scaled by a power of ten. *)
Lemma int_digits_pretty_N_go (x : N) :
  (0 < x)%N →
  ∃ scale : Z, ∀ acc after_digit s,
    int_digits acc after_digit (pretty_N_go x s)
    = int_digits (acc * scale + Z.of_N x) true s.
Proof.
  induction (N.lt_wf_0 x) as [x _ IH]. intros Hx.
  pose proof (N.mod_lt x 10 ltac:(done)) as Hmod.
  pose proof (N.div_mod x 10 ltac:(done)) as Hdiv.
  destruct (decide (x `div` 10 = 0)%N) as [Hsmall|Hbig].
  - exists 10. intros acc after_digit s.
    rewrite pretty_N_go_step, Hsmall, pretty_N_go_0 by done. simpl.
    rewrite digit_of_pretty_N_char by done. f_equal. lia.
  - destruct (IH (x `div` 10)%N) as [scale Hscale];
      [apply N.div_lt; lia|lia|].
    exists (scale * 10). intros acc after_digit s.
    rewrite pretty_N_go_step, Hscale by done. simpl.
    rewrite digit_of_pretty_N_char by done. f_equal. lia.
Qed.

Lemma pretty_N_go_first_digit (x : N) (s : string) :
  (0 < x)%N →
  ∃ c rest d, pretty_N_go x s = String c rest ∧ digit_of c = Some d.
Proof.
  revert s. induction (N.lt_wf_0 x) as [x _ IH]. intros s Hx.
  rewrite pretty_N_go_step by done.
  destruct (decide (x `div` 10 = 0)%N) as [->|Hbig].
  - rewrite pretty_N_go_0. eexists _, _, _. split; [done|].
    apply digit_of_pretty_N_char, N.mod_lt. done.
  - apply IH; [by apply N.div_lt|].
    by apply N.neq_0_lt_0.
Qed.

(** [int] on a string that starts with a digit reads all of it as digits. *)
Lemma int_unsigned (s rest : string) (c : ascii) (d : Z) :
  strip s = String c rest → digit_of c = Some d →
  int s = int_digits 0 false (strip s).
Proof.
  intros Hs Hd. unfold int. rewrite Hs.
  destruct c as [[] [] [] [] [] [] [] []]; done.
Qed.

Lemma int_str (n : Z) : int (str n) = Ok n.
Proof.
  destruct n as [|p|p]; [done| |].
  - unfold str, pretty, pretty_Z, pretty, pretty_positive, pretty, pretty_N.
    rewrite decide_False by done.
    destruct (pretty_N_go_first_digit (N.pos p) "" ltac:(done))
      as (c & rest & d & Hs & Hd).
    assert (strip (pretty_N_go (N.pos p) "") = pretty_N_go (N.pos p) "")
      as Hstrip by (by apply strip_no_space, no_space_pretty_N_go).
    rewrite (int_unsigned (pretty_N_go (N.pos p) "") rest c d)
      by (by rewrite ?Hstrip).
    rewrite Hstrip.
    destruct (int_digits_pretty_N_go (N.pos p) ltac:(done)) as [scale ->]. done.
  - unfold str, pretty, pretty_Z, pretty, pretty_positive, pretty, pretty_N.
    rewrite decide_False by done. unfold int.
    rewrite strip_no_space
      by (split; [done|by apply no_space_pretty_N_go]).
    simpl. change ("" +:+ pretty_N_go (N.pos p) "") with (pretty_N_go (N.pos p) "").
    destruct (int_digits_pretty_N_go (N.pos p) ltac:(done)) as [scale ->]. done.
Qed.



(** ** What [_remap_state] returns *)

(** The steps of [_remap_state], read back from a result. *)
Lemma _remap_state_inv (imported remapped : State.t) (start_id : Z)
    (id_map : gmap Z Z) :
  _remap_state imported start_id = Ok (remapped, id_map) →
  ∃ task_ids,
    list_comprehension int (fst <$> map_to_list (State.tasks imported))
    = Ok task_ids
    ∧ assign_ids (sorted (collect_ids task_ids imported)) ∅ start_id
      = (id_map, State.next_id remapped)
    ∧ map_fold (λ tid task acc,
                  new_tasks ← acc;
                  new_id ← int tid ≫= id_map_getitem id_map;
                  Ok (<[str new_id :=
                         Task.mk new_id (Task.title task) (Task.active task)
                                 (Task.created_at task)]> new_tasks))
               (Ok ∅) (State.tasks imported)
      = Ok (State.tasks remapped)
    ∧ State.edges remapped
      = omap (λ edge,
                from_id ← id_map !! Edge.from_id edge;
                to_id ← id_map !! Edge.to_id edge;
                Some (Edge.mk from_id to_id))
             (State.edges imported)
    ∧ list_comprehension
        (λ b, new_id ← id_map_getitem id_map (BlockedTask.id b);
              Ok (BlockedTask.mk new_id (BlockedTask.title b)
                    (BlockedTask.blocker b) (BlockedTask.created_at b)))
        (State.blocked imported)
      = Ok (State.blocked remapped)
    ∧ list_comprehension
        (λ h, new_id ← id_map_getitem id_map (HistoryEntry.id h);
              Ok (HistoryEntry.mk new_id (HistoryEntry.title h)
                    (HistoryEntry.completed_at h) (HistoryEntry.created_at h)))
        (State.history imported)
      = Ok (State.history remapped)
    ∧ State.config remapped = State.config imported.
Proof.
  unfold _remap_state.
  destruct (list_comprehension int _) as [task_ids|] eqn:Hkeys; [|done].
  cbn [mbind res_bind].
  destruct (assign_ids _ ∅ start_id) as [id_map' next_id] eqn:Hassign.
  destruct (map_fold _ (Ok ∅) (State.tasks imported)) as [new_tasks|] eqn:Htasks;
    [|done].
  cbn [mbind res_bind].
  destruct (list_comprehension _ (State.blocked imported))
    as [new_blocked|] eqn:Hblocked; [|done].
  cbn [mbind res_bind].
  destruct (list_comprehension _ (State.history imported))
    as [new_history|] eqn:Hhistory; [|done].
  cbn [mbind res_bind]. intros [= <- <-]. exists task_ids. simpl.
  by rewrite Hassign.
Qed.

(** The ids the map hands out lie from [start_id] up to the new
    [next_id], and no two old ids get the same one. *)
Lemma assign_ids_range (s : gset Z) (start_id next_id : Z) (id_map : gmap Z Z) :
  assign_ids (sorted s) ∅ start_id = (id_map, next_id) →
  next_id = start_id + Z.of_nat (size s)
  ∧ (∀ a a', id_map !! a = Some a' → a ∈ s ∧ start_id ≤ a' < next_id)
  ∧ (∀ a, a ∈ s → is_Some (id_map !! a))
  ∧ (∀ a b c, id_map !! a = Some c → id_map !! b = Some c → a = b).
Proof.
  intros Hassign.
  destruct (assign_ids_spec (sorted s) ∅ start_id (NoDup_sorted s))
    as (Hnext & Hin & Hout).
  rewrite Hassign in Hnext, Hin, Hout. simpl in *. rewrite length_sorted in Hnext.
  assert (∀ a a', id_map !! a = Some a' →
                  ∃ i : nat, sorted s !! i = Some a ∧ a' = start_id + Z.of_nat i)
    as Hindex.
  { intros a a' Ha. destruct (decide (a ∈ sorted s)) as [Hain|Hain].
    - apply list_elem_of_lookup_1 in Hain as [i Hi]. exists i. split; [done|].
      rewrite (Hin i a Hi) in Ha. congruence.
    - rewrite (Hout a Hain), lookup_empty in Ha. done. }
  split_and!; [done| | |].
  - intros a a' Ha. destruct (Hindex a a' Ha) as (i & Hi & ->).
    split; [by eapply elem_of_sorted, list_elem_of_lookup_2|].
    apply lookup_lt_Some in Hi. rewrite length_sorted in Hi. lia.
  - intros a Ha%elem_of_sorted%list_elem_of_lookup_1. destruct Ha as [i Hi].
    rewrite (Hin i a Hi). eauto.
  - intros a b c Ha Hb.
    destruct (Hindex a c Ha) as (i & Hi & ->).
    destruct (Hindex b _ Hb) as (j & Hj & Heq).
    assert (i = j) as -> by lia. congruence.
Qed.



Lemma Forall2_elem_of_r {A B} (R : A → B → Prop) (l : list A) (l' : list B) (y : B) :
  Forall2 R l l' → y ∈ l' → ∃ x, x ∈ l ∧ R x y.
Proof.
  induction 1 as [|x y' l l' Hxy _ IH]; [by intros ?%not_elem_of_nil|].
  intros [->|Hy]%elem_of_cons.
  - exists x. split; [left|done].
  - destruct (IH Hy) as (x' & ? & ?). exists x'. split; [by right|done].
Qed.

(** Images of distinct ids under a one-to-one map are distinct. *)
Lemma NoDup_images (id_map : gmap Z Z) (l l' : list Z) :
  (∀ a b c, id_map !! a = Some c → id_map !! b = Some c → a = b) →
  Forall2 (λ a a', id_map !! a = Some a') l l' → NoDup l → NoDup l'.
Proof.
  intros Hinj. induction 1 as [|a a' l l' Ha Hl IH]; [constructor|].
  rewrite !NoDup_cons. intros [Hnotin Hnd]. split; [|by apply IH].
  intros Hin. destruct (Forall2_elem_of_r _ _ _ _ Hl Hin) as (b & Hb & Hba).
  by rewrite (Hinj a b a' Ha Hba) in Hnotin.
Qed.

(** The shape of what [_remap_state] returns: the new ids lie from
    [start_id] up to the new [next_id], no two old ids share one, and
    every remapped task, held task, history entry and edge is an imported
    one with its ids replaced by their images. *)
Lemma remap_shape (imported remapped : State.t) (start_id : Z)
    (id_map : gmap Z Z) :
  _remap_state imported start_id = Ok (remapped, id_map) →
  start_id ≤ State.next_id remapped
  ∧ (∀ a a', id_map !! a = Some a' → start_id ≤ a' < State.next_id remapped)
  ∧ (∀ a b c, id_map !! a = Some c → id_map !! b = Some c → a = b)
  ∧ (∀ k' task',
       State.tasks remapped !! k' = Some task' →
       k' = str (Task.id task')
       ∧ ∃ k task old_id,
           State.tasks imported !! k = Some task
           ∧ int k = Ok old_id
           ∧ id_map !! old_id = Some (Task.id task')
           ∧ task' = Task.mk (Task.id task') (Task.title task) (Task.active task)
                             (Task.created_at task))
  ∧ Forall2 (λ b b',
               id_map !! BlockedTask.id b = Some (BlockedTask.id b')
               ∧ b' = BlockedTask.mk (BlockedTask.id b') (BlockedTask.title b)
                        (BlockedTask.blocker b) (BlockedTask.created_at b))
            (State.blocked imported) (State.blocked remapped)
  ∧ Forall2 (λ h h',
               id_map !! HistoryEntry.id h = Some (HistoryEntry.id h')
               ∧ h' = HistoryEntry.mk (HistoryEntry.id h') (HistoryEntry.title h)
                        (HistoryEntry.completed_at h) (HistoryEntry.created_at h))
            (State.history imported) (State.history remapped)
  ∧ (∀ e', e' ∈ State.edges remapped →
           ∃ e, e ∈ State.edges imported
                ∧ id_map !! Edge.from_id e = Some (Edge.from_id e')
                ∧ id_map !! Edge.to_id e = Some (Edge.to_id e')).
Proof.
  intros Hremap.
  apply _remap_state_inv in Hremap
    as (task_ids & _ & Hassign & Htasks & Hedges & Hblocked & Hhistory & _).
  apply assign_ids_range in Hassign as (Hnext & Hrange & _ & Hinj).
  split_and!.
  - lia.
  - intros a a' Ha. by apply (Hrange a a').
  - done.
  - by apply remap_tasks_inv.
  - apply list_comprehension_Forall2 in Hblocked.
    eapply Forall2_impl; [exact Hblocked|]. intros b b'. cbn beta.
    unfold id_map_getitem. destruct (id_map !! BlockedTask.id b); [|done].
    simpl. by intros [= <-].
  - apply list_comprehension_Forall2 in Hhistory.
    eapply Forall2_impl; [exact Hhistory|]. intros h h'. cbn beta.
    unfold id_map_getitem. destruct (id_map !! HistoryEntry.id h); [|done].
    simpl. by intros [= <-].
  - intros e'. rewrite Hedges. intros (e & He & Hsome)%list_elem_of_omap.
    exists e. split; [done|].
    destruct (id_map !! Edge.from_id e) as [f|]; [|done].
    destruct (id_map !! Edge.to_id e) as [t|]; [|done].
    simpl in Hsome. by injection Hsome as <-.
Qed.



(** ** Merging a file into the live state *)

Lemma load_merge_inv (current_state imported_state merged : State.t) :
  load_merge current_state imported_state = Ok merged →
  ∃ remapped id_map,
    _remap_state imported_state (State.next_id current_state)
    = Ok (remapped, id_map)
    ∧ merged
      = State.mk (State.tasks remapped ∪ State.tasks current_state)
                 (State.edges current_state ++ State.edges remapped)
                 (State.blocked current_state ++ State.blocked remapped)
                 (State.history current_state ++ State.history remapped)
                 (State.next_id remapped)
                 (State.config current_state).
Proof.
  unfold load_merge.
  destruct (_remap_state imported_state (State.next_id current_state))
    as [[remapped id_map]|]; [|done].
  simpl. intros [= <-]. by exists remapped, id_map.
Qed.

(** No key of the remapped pool is the string of an id below [start_id]. *)
Lemma remap_key_fresh (imported remapped : State.t) (start_id : Z)
    (id_map : gmap Z Z) (n : Z) :
  _remap_state imported start_id = Ok (remapped, id_map) →
  n < start_id → State.tasks remapped !! str n = None.
Proof.
  intros Hremap Hn.
  destruct (remap_shape _ _ _ _ Hremap) as (_ & Hrange & _ & Htasks & _).
  destruct (State.tasks remapped !! str n) as [task'|] eqn:Hk; [|done].
  destruct (Htasks _ _ Hk) as (Hkey%str_inj & _ & _ & old_id & _ & _ & Hnew & _).
  apply Hrange in Hnew. lia.
Qed.

(** X18. A merge overwrites nothing of a well-formed live state: every
    pool task stays under its key, the held list, the history and the
    edge list are only extended at their end, the configuration is kept,
    and every id below the old [next_id] names after the merge the task
    it named before, in the pool and on hold. *)
Theorem merge_overwrites_nothing (current_state imported_state merged : State.t) :
  well_formed current_state →
  load_merge current_state imported_state = Ok merged →
  (∀ k task,
     State.tasks current_state !! k = Some task →
     State.tasks merged !! k = Some task)
  ∧ State.blocked current_state `prefix_of` State.blocked merged
  ∧ State.history current_state `prefix_of` State.history merged
  ∧ State.edges current_state `prefix_of` State.edges merged
  ∧ State.config merged = State.config current_state
  ∧ State.next_id current_state ≤ State.next_id merged
  ∧ ∀ task_id,
      task_id < State.next_id current_state →
      State.get_task merged task_id = State.get_task current_state task_id
      ∧ State.get_blocked merged task_id
        = State.get_blocked current_state task_id.
Proof.
  intros Hwf (remapped & id_map & Hremap & ->)%load_merge_inv. simpl.
  destruct (remap_shape _ _ _ _ Hremap) as (Hnext & Hrange & _ & _ & Hblocked & _).
  split_and!; [|by eexists..|done|done|].
  - intros k task Hk. apply lookup_union_Some_raw. right. split; [|done].
    destruct (wf_pool _ Hwf _ _ Hk) as [-> ?].
    eapply remap_key_fresh; [done|lia].
  - intros task_id Hid. unfold State.get_task, State.get_blocked. simpl. split.
    + rewrite lookup_union_r; [done|]. by eapply remap_key_fresh.
    + rewrite find_app.
      destruct (List.find _ (State.blocked current_state)); [done|].
      destruct (List.find _ (State.blocked remapped)) as [b'|] eqn:Hfind; [|done].
      apply find_some in Hfind as [Hin%list_elem_of_In Heq%bool_decide_eq_true].
      destruct (Forall2_elem_of_r _ _ _ _ Hblocked Hin) as (b & _ & Hnew & _).
      apply Hrange in Hnew. lia.
Qed.

Lemma merge_overwrites_nothing_witness :
  ∃ merged,
    load_merge design_then_tests snapshot_123 = Ok merged
    ∧ State.get_task merged 1 = State.get_task design_then_tests 1
    ∧ State.edges design_then_tests `prefix_of` State.edges merged.
Proof.
  destruct (load_merge design_then_tests snapshot_123) as [merged|e] eqn:Hmerge;
    [|by vm_compute in Hmerge].
  exists merged. split; [done|].
  destruct (merge_overwrites_nothing design_then_tests snapshot_123 merged)
    as (_ & _ & _ & Hedges & _ & _ & Hold).
  - apply reachable_well_formed, reachable_foldl_run, reachable_empty.
  - done.
  - split; [|done]. apply Hold. vm_compute. reflexivity.
Defined.

(** In a well-formed state every pool key reads back as the id of its
    task. *)
Lemma wf_int_key (state : State.t) (k : string) (task : Task.t) :
  well_formed state → State.tasks state !! k = Some task →
  int k = Ok (Task.id task).
Proof. intros Hwf Hk. destruct (wf_pool _ Hwf _ _ Hk) as [-> _]. apply int_str. Qed.

(** When no two keys denote the same integer and the map is one to one,
    the rebuilt pool has one task for each imported task. *)
Lemma remap_tasks_size (id_map : gmap Z Z) (tasks new_tasks : gmap string Task.t) :
  (∀ a b c, id_map !! a = Some c → id_map !! b = Some c → a = b) →
  (∀ k1 k2 z, is_Some (tasks !! k1) → is_Some (tasks !! k2) →
              int k1 = Ok z → int k2 = Ok z → k1 = k2) →
  map_fold (λ tid task acc,
              new_tasks ← acc;
              new_id ← int tid ≫= id_map_getitem id_map;
              Ok (<[str new_id :=
                     Task.mk new_id (Task.title task) (Task.active task)
                             (Task.created_at task)]> new_tasks))
           (Ok ∅) tasks
  = Ok new_tasks →
  size new_tasks = size tasks.
Proof.
  intros Hinj Hkeys Hfold.
  cut (size new_tasks = size tasks
       ∧ ∀ k', is_Some (new_tasks !! k') →
               ∃ k z n, is_Some (tasks !! k) ∧ int k = Ok z
                        ∧ id_map !! z = Some n ∧ k' = str n); [tauto|].
  revert new_tasks Hfold Hkeys.
  apply (map_fold_weak_ind
           (λ r (m : gmap string Task.t),
              ∀ new_tasks : gmap string Task.t,
                r = Ok new_tasks →
                (∀ k1 k2 z, is_Some (m !! k1) → is_Some (m !! k2) →
                            int k1 = Ok z → int k2 = Ok z → k1 = k2) →
                size new_tasks = size m
                ∧ ∀ k', is_Some (new_tasks !! k') →
                        ∃ k z n, is_Some (m !! k) ∧ int k = Ok z
                                 ∧ id_map !! z = Some n ∧ k' = str n)).
  - intros new_tasks [= <-] _. split; [done|].
    intros k' [? Hk']. by rewrite lookup_empty in Hk'.
  - intros k task m r Hfresh IH new_tasks Hr Hkeys.
    destruct r as [acc|]; [|done]. simpl in Hr.
    destruct (int k) as [old_id|] eqn:Hint; [|done]. simpl in Hr.
    unfold id_map_getitem in Hr.
    destruct (id_map !! old_id) as [new_id|] eqn:Hnew; [|done]. simpl in Hr.
    injection Hr as <-.
    destruct (IH acc eq_refl) as [Hsize Hfrom].
    { intros k1 k2 z [t1 H1] [t2 H2]. apply Hkeys.
      - exists t1. rewrite lookup_insert_ne; [done|]. intros ->. congruence.
      - exists t2. rewrite lookup_insert_ne; [done|]. intros ->. congruence. }
    assert (acc !! str new_id = None) as Hnone.
    { destruct (acc !! str new_id) as [t|] eqn:Hacc; [|done].
      destruct (Hfrom (str new_id)) as (k0 & z & n & [t0 Hk0] & Hz & Hn & Heq%str_inj);
        [by eexists|]. subst n.
      rewrite (Hinj z old_id new_id Hn Hnew) in Hz.
      assert (k0 = k) as ->; [|congruence].
      apply (Hkeys k0 k old_id); [|by rewrite lookup_insert_eq|done..].
      exists t0. rewrite lookup_insert_ne; [done|]. intros ->. congruence. }
    split.
    + by rewrite !map_size_insert_None, Hsize.
    + intros k' [t' Hk']. destruct (decide (k' = str new_id)) as [->|Hne].
      * exists k, old_id, new_id. by rewrite lookup_insert_eq.
      * rewrite lookup_insert_ne in Hk' by done.
        destruct (Hfrom k') as (k0 & z & n & [t0 Hk0] & ? & ? & ?); [by eexists|].
        exists k0, z, n. split; [|done].
        exists t0. rewrite lookup_insert_ne; [done|]. intros ->. congruence.
Qed.

(** [_remap_state] returns on every well-formed state. *)
Lemma remap_well_formed_ok (imported : State.t) (start_id : Z) :
  well_formed imported →
  ∃ remapped id_map, _remap_state imported start_id = Ok (remapped, id_map).
Proof.
  intros Hwf. unfold _remap_state.
  destruct (list_comprehension_ok int (fst <$> map_to_list (State.tasks imported)))
    as [task_ids Hkeys].
  { intros k ([k' task] & -> & Hk%elem_of_map_to_list)%list_elem_of_fmap.
    simpl. exists (Task.id task). by eapply wf_int_key. }
  rewrite Hkeys. cbn [mbind res_bind].
  destruct (assign_ids _ ∅ start_id) as [id_map next_id] eqn:Hassign.
  apply assign_ids_range in Hassign as (_ & _ & Hdom & _).
  destruct (remap_tasks_ok id_map (State.tasks imported)) as [new_tasks ->].
  { intros k [task Hk]. exists (Task.id task).
    destruct (Hdom (Task.id task)) as [new_id Hnew].
    - unfold collect_ids. rewrite !elem_of_union, !elem_of_list_to_set. left. left.
      assert (k ∈ fst <$> map_to_list (State.tasks imported)) as Hkin.
      { apply list_elem_of_fmap. exists (k, task).
        split; [done|]. by apply elem_of_map_to_list. }
      destruct (list_comprehension_elem_of _ _ _ _ Hkeys Hkin) as (z & Hz & Hzin).
      rewrite (wf_int_key _ _ _ Hwf Hk) in Hz. by injection Hz as ->.
    - exists new_id. split; [by eapply wf_int_key|done]. }
  cbn [mbind res_bind].
  destruct (list_comprehension_ok
              (λ b, new_id ← id_map_getitem id_map (BlockedTask.id b);
                    Ok (BlockedTask.mk new_id (BlockedTask.title b)
                          (BlockedTask.blocker b) (BlockedTask.created_at b)))
              (State.blocked imported)) as [new_blocked ->].
  { intros b Hb. destruct (Hdom (BlockedTask.id b)) as [new_id Hnew].
    - unfold collect_ids. rewrite !elem_of_union, !elem_of_list_to_set. left. right.
      by apply list_elem_of_fmap_2.
    - unfold id_map_getitem. rewrite Hnew. simpl. eauto. }
  cbn [mbind res_bind].
  destruct (list_comprehension_ok
              (λ h, new_id ← id_map_getitem id_map (HistoryEntry.id h);
                    Ok (HistoryEntry.mk new_id (HistoryEntry.title h)
                          (HistoryEntry.completed_at h) (HistoryEntry.created_at h)))
              (State.history imported)) as [new_history ->].
  { intros h Hh. destruct (Hdom (HistoryEntry.id h)) as [new_id Hnew].
    - unfold collect_ids. rewrite !elem_of_union, !elem_of_list_to_set. right.
      by apply list_elem_of_fmap_2.
    - unfold id_map_getitem. rewrite Hnew. simpl. eauto. }
  cbn [mbind res_bind]. eauto.
Qed.

(** Remapping a well-formed state keeps its ids apart: none is twice on
    the held list or in the history, none in two of pool, held list and
    history. *)
Lemma remap_keeps_apart (imported remapped : State.t) (start_id : Z)
    (id_map : gmap Z Z) :
  well_formed imported →
  _remap_state imported start_id = Ok (remapped, id_map) →
  NoDup (BlockedTask.id <$> State.blocked remapped)
  ∧ NoDup (HistoryEntry.id <$> State.history remapped)
  ∧ (∀ b', b' ∈ State.blocked remapped →
           State.tasks remapped !! str (BlockedTask.id b') = None)
  ∧ (∀ h', h' ∈ State.history remapped →
           State.tasks remapped !! str (HistoryEntry.id h') = None)
  ∧ (∀ b' h', b' ∈ State.blocked remapped → h' ∈ State.history remapped →
              BlockedTask.id b' ≠ HistoryEntry.id h').
Proof.
  intros Hwf Hremap.
  destruct (remap_shape _ _ _ _ Hremap)
    as (_ & _ & Hinj & Htasks & Hblocked & Hhistory & _).
  assert (∀ k' task', State.tasks remapped !! k' = Some task' →
            ∃ task, State.tasks imported !! str (Task.id task) = Some task
                    ∧ id_map !! Task.id task = Some (Task.id task')) as Hpool.
  { intros k' task' Hk'.
    destruct (Htasks _ _ Hk') as (_ & k & task & old_id & Hk & Hint & Hnew & _).
    rewrite (wf_int_key _ _ _ Hwf Hk) in Hint. injection Hint as <-.
    exists task. split; [|done]. by destruct (wf_pool _ Hwf _ _ Hk) as [<- _]. }
  split_and!.
  - eapply (NoDup_images id_map); [done| |exact (wf_held_once _ Hwf)].
    apply Forall2_fmap. eapply Forall2_impl; [exact Hblocked|]. by intros b b' [? _].
  - eapply (NoDup_images id_map); [done| |exact (wf_history_once _ Hwf)].
    apply Forall2_fmap. eapply Forall2_impl; [exact Hhistory|]. by intros h h' [? _].
  - intros b' Hb'.
    destruct (State.tasks remapped !! str (BlockedTask.id b')) as [task'|] eqn:Hk;
      [|done].
    destruct (Htasks _ _ Hk) as [Hkey%str_inj _].
    destruct (Hpool _ _ Hk) as (task & Htask & Hnew).
    destruct (Forall2_elem_of_r _ _ _ _ Hblocked Hb') as (b & Hb & Hbnew & _).
    rewrite <-Hkey in Hnew. rewrite (Hinj _ _ _ Hnew Hbnew) in Htask.
    by rewrite (wf_pool_held _ Hwf b Hb) in Htask.
  - intros h' Hh'.
    destruct (State.tasks remapped !! str (HistoryEntry.id h')) as [task'|] eqn:Hk;
      [|done].
    destruct (Htasks _ _ Hk) as [Hkey%str_inj _].
    destruct (Hpool _ _ Hk) as (task & Htask & Hnew).
    destruct (Forall2_elem_of_r _ _ _ _ Hhistory Hh') as (h & Hh & Hhnew & _).
    rewrite <-Hkey in Hnew. rewrite (Hinj _ _ _ Hnew Hhnew) in Htask.
    by rewrite (wf_pool_history _ Hwf h Hh) in Htask.
  - intros b' h' Hb' Hh' Heq.
    destruct (Forall2_elem_of_r _ _ _ _ Hblocked Hb') as (b & Hb & Hbnew & _).
    destruct (Forall2_elem_of_r _ _ _ _ Hhistory Hh') as (h & Hh & Hhnew & _).
    rewrite Heq in Hbnew.
    by apply (wf_held_history _ Hwf b h Hb Hh), (Hinj _ _ _ Hbnew Hhnew).
Qed.

(** X19. Merging a well-formed file into a well-formed live state always
    returns, and what it saves is well formed again: every id lies from 1
    up to the new [next_id], a pool task is under the string of its own
    id, and no id is twice anywhere.  No task is lost or doubled: the
    pool, the held list and the history of the merged state have as many
    entries as those of the two states together. *)
Theorem merge_keeps_well_formed (current_state imported_state : State.t) :
  well_formed current_state →
  well_formed imported_state →
  ∃ merged,
    load_merge current_state imported_state = Ok merged
    ∧ well_formed merged
    ∧ size (State.tasks merged)
      = (size (State.tasks current_state) + size (State.tasks imported_state))%nat
    ∧ length (State.blocked merged)
      = (length (State.blocked current_state)
         + length (State.blocked imported_state))%nat
    ∧ length (State.history merged)
      = (length (State.history current_state)
         + length (State.history imported_state))%nat.
Proof.
  intros Hwf Hwfi.
  destruct (remap_well_formed_ok imported_state (State.next_id current_state) Hwfi)
    as (remapped & id_map & Hremap).
  unfold load_merge. rewrite Hremap. cbn [mbind res_bind]. eexists. split; [done|].
  destruct (remap_shape _ _ _ _ Hremap)
    as (Hnext & Hrange & Hinj & Htasks & Hblocked & Hhistory & Hedges).
  destruct (remap_keeps_apart _ _ _ _ Hwfi Hremap)
    as (Hnd_held & Hnd_hist & Hph & Phh & Hhh).
  pose proof (wf_next_id _ Hwf) as Hone.
  assert (∀ b', b' ∈ State.blocked remapped →
                State.next_id current_state ≤ BlockedTask.id b'
                < State.next_id remapped) as Hheld_range.
  { intros b' Hb'.
    destruct (Forall2_elem_of_r _ _ _ _ Hblocked Hb') as (b & _ & Hnew & _).
    by apply Hrange in Hnew. }
  assert (∀ h', h' ∈ State.history remapped →
                State.next_id current_state ≤ HistoryEntry.id h'
                < State.next_id remapped) as Hhist_range.
  { intros h' Hh'.
    destruct (Forall2_elem_of_r _ _ _ _ Hhistory Hh') as (h & _ & Hnew & _).
    by apply Hrange in Hnew. }
  assert (∀ k' task', State.tasks remapped !! k' = Some task' →
                      k' = str (Task.id task')
                      ∧ State.next_id current_state ≤ Task.id task'
                        < State.next_id remapped) as Hpool_range.
  { intros k' task' Hk'.
    destruct (Htasks _ _ Hk') as (Hkey & _ & _ & old_id & _ & _ & Hnew & _).
    split; [done|]. by apply Hrange in Hnew. }
  assert (State.tasks remapped ##ₘ State.tasks current_state) as Hdisj.
  { apply map_disjoint_spec. intros k task' task Hk' Hk.
    destruct (Hpool_range _ _ Hk') as [-> ?].
    rewrite (wf_key_fresh current_state (Task.id task') Hwf) in Hk; [done|lia]. }
  split_and!.
  - constructor; simpl.
    + lia.
    + intros k task [Hk|[_ Hk]]%lookup_union_Some_raw.
      * destruct (Hpool_range _ _ Hk). split; [done|lia].
      * destruct (wf_pool _ Hwf _ _ Hk). split; [done|lia].
    + intros b [Hb|Hb]%elem_of_app.
      * pose proof (wf_held _ Hwf b Hb). lia.
      * pose proof (Hheld_range b Hb). lia.
    + intros h [Hh|Hh]%elem_of_app.
      * pose proof (wf_history _ Hwf h Hh). lia.
      * pose proof (Hhist_range h Hh). lia.
    + intros e [He|He]%elem_of_app.
      * pose proof (wf_edges _ Hwf e He). lia.
      * destruct (Hedges e He) as (e0 & _ & Hfrom%Hrange & Hto%Hrange). lia.
    + rewrite fmap_app. apply NoDup_app. split; [exact (wf_held_once _ Hwf)|].
      split; [|done].
      intros x (b & -> & Hb)%list_elem_of_fmap (b' & Heq & Hb')%list_elem_of_fmap.
      pose proof (wf_held _ Hwf b Hb). pose proof (Hheld_range b' Hb'). lia.
    + rewrite fmap_app. apply NoDup_app. split; [exact (wf_history_once _ Hwf)|].
      split; [|done].
      intros x (h & -> & Hh)%list_elem_of_fmap (h' & Heq & Hh')%list_elem_of_fmap.
      pose proof (wf_history _ Hwf h Hh). pose proof (Hhist_range h' Hh'). lia.
    + intros b [Hb|Hb]%elem_of_app; apply lookup_union_None.
      * split; [|by apply (wf_pool_held _ Hwf)].
        eapply remap_key_fresh; [done|]. pose proof (wf_held _ Hwf b Hb). lia.
      * split; [by apply Hph|].
        apply wf_key_fresh; [done|]. pose proof (Hheld_range b Hb). lia.
    + intros h [Hh|Hh]%elem_of_app; apply lookup_union_None.
      * split; [|by apply (wf_pool_history _ Hwf)].
        eapply remap_key_fresh; [done|]. pose proof (wf_history _ Hwf h Hh). lia.
      * split; [by apply Phh|].
        apply wf_key_fresh; [done|]. pose proof (Hhist_range h Hh). lia.
    + intros b h [Hb|Hb]%elem_of_app [Hh|Hh]%elem_of_app.
      * by apply (wf_held_history _ Hwf).
      * pose proof (wf_held _ Hwf b Hb). pose proof (Hhist_range h Hh). lia.
      * pose proof (wf_history _ Hwf h Hh). pose proof (Hheld_range b Hb). lia.
      * by apply Hhh.
  - simpl. rewrite map_size_disj_union by done.
    apply _remap_state_inv in Hremap as (? & _ & _ & Hfold & _).
    rewrite (remap_tasks_size id_map (State.tasks imported_state) _ Hinj); [lia| |done].
    intros k1 k2 z [t1 H1] [t2 H2] Hz1 Hz2.
    rewrite (wf_int_key _ _ _ Hwfi H1) in Hz1.
    rewrite (wf_int_key _ _ _ Hwfi H2) in Hz2.
    destruct (wf_pool _ Hwfi _ _ H1) as [-> _].
    destruct (wf_pool _ Hwfi _ _ H2) as [-> _]. congruence.
  - simpl. rewrite length_app. by rewrite <-(Forall2_length _ _ _ Hblocked).
  - simpl. rewrite length_app. by rewrite <-(Forall2_length _ _ _ Hhistory).
Qed.

Lemma merge_keeps_well_formed_witness :
  ∃ merged,
    load_merge design_then_tests snapshot_123 = Ok merged
    ∧ well_formed merged
    ∧ size (State.tasks merged) = 4%nat.
Proof.
  destruct (merge_keeps_well_formed design_then_tests snapshot_123)
    as (merged & Hmerge & Hwf & Hsize & _).
  - apply reachable_well_formed, reachable_foldl_run, reachable_empty.
  - apply reachable_well_formed, reachable_foldl_run, reachable_empty.
  - exists merged. split; [done|]. split; [done|]. rewrite Hsize.
    vm_compute. reflexivity.
Defined.

(** A path through remapped edges is the image of a path through the
    imported edges. *)
Lemma tc_remapped_edges (id_map : gmap Z Z) (edges edges' : list Edge.t)
    (x' y' : Z) :
  (∀ a b c, id_map !! a = Some c → id_map !! b = Some c → a = b) →
  (∀ e', e' ∈ edges' →
         ∃ e, e ∈ edges
              ∧ id_map !! Edge.from_id e = Some (Edge.from_id e')
              ∧ id_map !! Edge.to_id e = Some (Edge.to_id e')) →
  tc (edge_rel edges') x' y' →
  ∃ x y, id_map !! x = Some x' ∧ id_map !! y = Some y' ∧ tc (edge_rel edges) x y.
Proof.
  intros Hinj Hedges Htc. induction Htc as [x' y' Hxy|x' z' y' Hxz _ IH].
  - destruct (Hedges _ Hxy) as ([x y] & He & Hx & Hy). simpl in *.
    exists x, y. split; [done|]. split; [done|]. by apply tc_once.
  - destruct (Hedges _ Hxz) as ([x z] & He & Hx & Hz). simpl in *.
    destruct IH as (z0 & y & Hz0 & Hy & Hzy).
    rewrite <-(Hinj _ _ _ Hz Hz0) in Hzy.
    exists x, y. split; [done|]. split; [done|]. by eapply tc_l.
Qed.

(** A path through two edge lists whose nodes lie on different sides of
    a bound stays in one of the lists. *)
Lemma tc_edge_rel_apart (edges edges' : list Edge.t) (bound x y : Z) :
  (∀ e, e ∈ edges → Edge.from_id e < bound ∧ Edge.to_id e < bound) →
  (∀ e, e ∈ edges' → bound ≤ Edge.from_id e ∧ bound ≤ Edge.to_id e) →
  tc (edge_rel (edges ++ edges')) x y →
  tc (edge_rel edges) x y ∨ tc (edge_rel edges') x y.
Proof.
  intros Hlow Hhigh Htc. induction Htc as [x y Hxy|x z y Hxz Hzy IH].
  - apply elem_of_app in Hxy as [Hxy|Hxy]; [left|right]; by apply tc_once.
  - apply elem_of_app in Hxz as [Hxz|Hxz].
    + left. eapply tc_l; [done|]. destruct IH as [IH|IH]; [done|].
      apply tc_first_step in IH as (w & Hzw & _).
      apply Hlow in Hxz. apply Hhigh in Hzw. simpl in *. lia.
    + right. eapply tc_l; [done|]. destruct IH as [IH|IH]; [|done].
      apply tc_first_step in IH as (w & Hzw & _).
      apply Hhigh in Hxz. apply Hlow in Hzw. simpl in *. lia.
Qed.

(** X20. A merge keeps the dependency graph acyclic: when the edges of a
    well-formed live state have no cycle and the edges of the file have
    none, the edges of the merged state have none.  The file itself need
    not be well formed. *)
Theorem merge_keeps_graph_acyclic (current_state imported_state merged : State.t) :
  well_formed current_state →
  acyclic (State.edges current_state) →
  acyclic (State.edges imported_state) →
  load_merge current_state imported_state = Ok merged →
  acyclic (State.edges merged).
Proof.
  intros Hwf Hac Haci (remapped & id_map & Hremap & ->)%load_merge_inv. simpl.
  destruct (remap_shape _ _ _ _ Hremap) as (_ & Hrange & Hinj & _ & _ & _ & Hedges).
  intros x Hx.
  apply (tc_edge_rel_apart _ _ (State.next_id current_state)) in Hx as [Hx|Hx].
  - by apply (Hac x).
  - destruct (tc_remapped_edges id_map (State.edges imported_state) _ _ _ Hinj Hedges Hx)
      as (a & b & Ha & Hb & Hab).
    rewrite (Hinj _ _ _ Ha Hb) in Hab. by apply (Haci b).
  - intros e He. pose proof (wf_edges _ Hwf e He). lia.
  - intros e' He'. destruct (Hedges e' He') as (e & _ & Hfrom%Hrange & Hto%Hrange).
    lia.
Qed.

Lemma merge_keeps_graph_acyclic_witness :
  ∃ merged,
    load_merge design_then_tests snapshot_123 = Ok merged
    ∧ acyclic (State.edges merged).
Proof.
  destruct (load_merge design_then_tests snapshot_123) as [merged|e] eqn:Hmerge;
    [|by vm_compute in Hmerge].
  exists merged. split; [done|].
  apply (merge_keeps_graph_acyclic design_then_tests snapshot_123 merged).
  - apply reachable_well_formed, reachable_foldl_run, reachable_empty.
  - apply reachable_acyclic, reachable_foldl_run, reachable_empty.
  - apply reachable_acyclic, reachable_foldl_run, reachable_empty.
  - done.
Defined.

(** ** The number of active tasks *)

Lemma active_count_subseteq (m m' : gmap string Task.t) :
  m ⊆ m' →
  map_fold (λ _ t n, if Task.active t then n + 1 else n) 0 m
  ≤ map_fold (λ _ t n, if Task.active t then n + 1 else n) 0 m'.
Proof.
  revert m'. induction m as [|k t m Hk IH] using map_ind; intros m' Hsub.
  - rewrite map_fold_empty. clear Hsub.
    induction m' as [|k t m' Hk IH] using map_ind; [by rewrite map_fold_empty|].
    rewrite active_count_insert, delete_id by done.
    destruct (Task.active t); lia.
  - assert (m' !! k = Some t) as Hk'.
    { eapply lookup_weaken; [|exact Hsub]. apply lookup_insert_eq. }
    rewrite active_count_insert, (active_count_delete m' k t Hk').
    rewrite delete_id by done.
    assert (m ⊆ delete k m') as Hsub'.
    { apply map_subseteq_spec. intros j x Hj.
      assert (j ≠ k) by (intros ->; congruence).
      rewrite lookup_delete_ne by done.
      eapply lookup_weaken; [|exact Hsub]. by rewrite lookup_insert_ne. }
    specialize (IH _ Hsub'). lia.
Qed.

Lemma active_count_delete_le (m : gmap string Task.t) (k : string) :
  map_fold (λ _ t n, if Task.active t then n + 1 else n) 0 (delete k m)
  ≤ map_fold (λ _ t n, if Task.active t then n + 1 else n) 0 m.
Proof. apply active_count_subseteq, delete_subseteq. Qed.

Lemma active_count_insert_inactive (m : gmap string Task.t) (k : string)
    (t : Task.t) :
  Task.active t = false →
  map_fold (λ _ t n, if Task.active t then n + 1 else n) 0 (<[k:=t]> m)
  ≤ map_fold (λ _ t n, if Task.active t then n + 1 else n) 0 m.
Proof.
  intros Hoff. rewrite active_count_insert, Hoff.
  pose proof (active_count_delete_le m k). lia.
Qed.

(** A saved link takes tasks out of the pool or leaves the pool alone. *)
Lemma link_tasks_subseteq (state state' : State.t) (from_id to_id : Z)
    (out : list string) :
  link state from_id to_id = Some (Saved state' out) →
  State.tasks state' ⊆ State.tasks state.
Proof.
  intros Hlink. destruct (State.get_blocked state from_id) as [parent|] eqn:Hheld.
  - destruct (link_under_held_cascades _ _ _ _ _ _ Hlink Hheld)
      as (all_to_move & _ & _ & Htasks & _).
    apply map_subseteq_spec. intros k task. rewrite Htasks. by case_decide.
  - by rewrite (link_saved_not_held _ _ _ _ _ Hlink Hheld).
Qed.

(** X21. Of [add], [link], [unlink], [mark], [config] and [reset], none
    but a saved [mark active] raises the number of active tasks, and that
    one raises it by one, to at most [max_active].  So a ceiling that
    holds before one of these six commands holds after it, unless the
    command is [config max_active].  [load] and [load --merge], which
    take the active flags of a file as they are, are not among them. *)
Theorem active_count_rises_only_on_activation (state : State.t) (c : command)
    (r : response) :
  exec state c = Some r →
  (State.active_count (persisted state r) ≤ State.active_count state
   ∨ (∃ now task_id by_ out,
        c = Mark now task_id ACTIVE by_
        ∧ r = Saved (persisted state r) out
        ∧ State.active_count (persisted state r) = State.active_count state + 1
        ∧ State.active_count (persisted state r)
          ≤ Config.max_active (State.config state)))
  ∧ ((∀ value, c ≠ SetConfig "max_active" value) →
     State.active_count state ≤ Config.max_active (State.config state) →
     State.active_count (persisted state r)
     ≤ Config.max_active (State.config (persisted state r))).
Proof.
  intros Hexec.
  assert (State.active_count (persisted state r) ≤ State.active_count state
          ∨ (∃ now task_id by_ out,
               c = Mark now task_id ACTIVE by_
               ∧ r = Saved (persisted state r) out
               ∧ State.active_count (persisted state r)
                 = State.active_count state + 1
               ∧ State.active_count (persisted state r)
                 ≤ Config.max_active (State.config state))) as Hcount.
  { destruct c as [now title blocked|from_id to_id|from_id to_id
                   |now task_id name by_|key value|]; simpl in Hexec.
    - left. injection Hexec as <-. unfold add, State.active_count.
      destruct blocked as [b|]; [destruct (truthy b)|]; simpl;
        first [by apply active_count_insert_inactive|lia].
    - left. destruct r as [state' out| |]; simpl; [|lia..].
      apply active_count_subseteq. by eapply link_tasks_subseteq.
    - left. injection Hexec as <-. unfold unlink.
      destruct (State.has_edge state from_id to_id); simpl; reflexivity.
    - injection Hexec as <-. unfold State.active_count.
      destruct name; unfold mark, not_in_pool.
      + destruct (State.get_task state task_id) as [task|] eqn:Hget;
          [|left; by destruct (State.get_blocked state task_id)].
        destruct (Task.active task) eqn:Hoff; [by left|].
        destruct (State.get_edges_to state task_id); [|by left].
        case_bool_decide as Hfull; [by left|]. right.
        exists now, task_id, by_. eexists. split; [done|]. split; [done|]. simpl.
        unfold State.active_count in Hfull.
        rewrite active_count_insert. simpl.
        rewrite (active_count_delete (State.tasks state) _ _ Hget), Hoff in Hfull |- *.
        lia.
      + left. destruct (State.get_task state task_id) as [task|];
          [|by destruct (State.get_blocked state task_id)].
        destruct (Task.active task); simpl; [|done].
        by apply active_count_insert_inactive.
      + left. destruct (State.get_task state task_id) as [task|];
          [|by destruct (State.get_blocked state task_id)].
        destruct (State.get_edges_to state task_id); simpl; [|done].
        apply active_count_delete_le.
      + left. destruct by_ as [b|]; [|done]. destruct (truthy b); [|done].
        destruct (State.get_task state task_id) as [task|];
          [|by destruct (State.get_blocked state task_id)].
        simpl. apply active_count_delete_le.
      + left. destruct (State.get_blocked state task_id) as [b|]; [|done].
        simpl. by apply active_count_insert_inactive.
      + left. destruct (State.tasks state !! str task_id) as [task|].
        { simpl. apply active_count_delete_le. }
        destruct (pop_first _ (State.blocked state)) as [[b rest]|]; [done|].
        by destruct (pop_first _ (State.history state)) as [[h rest]|].
    - left. injection Hexec as <-. unfold config.
      repeat case_bool_decide; repeat case_match; simpl; reflexivity.
    - left. injection Hexec as <-. unfold reset, State.active_count. simpl.
      pose proof (active_count_subseteq ∅ (State.tasks state)
                    (map_empty_subseteq _)) as Hle.
      by rewrite map_fold_empty in Hle |- *. }
  split; [done|]. intros Hother Hceiling.
  assert (Config.max_active (State.config (persisted state r))
          = Config.max_active (State.config state)) as ->.
  { destruct c as [now title blocked|from_id to_id|from_id to_id
                   |now task_id name by_|key value|]; simpl in Hexec.
    - injection Hexec as <-. unfold add.
      by destruct blocked as [b|]; [destruct (truthy b)|].
    - destruct r as [state' out| |]; simpl; [|done..].
      by destruct (link_saved_frame _ _ _ _ _ Hexec) as (_ & _ & ->).
    - injection Hexec as <-. unfold unlink.
      by destruct (State.has_edge state from_id to_id).
    - injection Hexec as <-. by rewrite mark_config.
    - injection Hexec as <-. unfold config.
      case_bool_decide as Hkey; [by destruct (Hother value); subst|].
      repeat case_bool_decide; repeat case_match; done.
    - by injection Hexec as <-. }
  destruct Hcount as [Hle|(_ & _ & _ & _ & _ & _ & _ & Hmax)]; [lia|done].
Qed.

Lemma active_count_rises_only_on_activation_witness :
  State.active_count (run one_slot_taken (Mark "2025-01-13T08:00:00" 1 DONE None))
  ≤ Config.max_active
      (State.config (run one_slot_taken (Mark "2025-01-13T08:00:00" 1 DONE None))).
Proof.
  destruct (active_count_rises_only_on_activation one_slot_taken
              (Mark "2025-01-13T08:00:00" 1 DONE None)
              (mark one_slot_taken "2025-01-13T08:00:00" 1 DONE None) eq_refl)
    as [_ Hceiling].
  apply Hceiling; [done|]. vm_compute. discriminate.
Defined.

(** ** [mark gone] *)

Lemma find_all_false {A} (p : A → bool) (l : list A) :
  (∀ x, x ∈ l → p x = false) → List.find p l = None.
Proof.
  induction l as [|y l IH]; intros Hall; [done|]. simpl.
  rewrite (Hall y) by left. apply IH. intros x Hx. apply Hall. by right.
Qed.

Lemma pop_first_is_Some {A} (p : A → bool) (l : list A) (x : A) :
  x ∈ l → p x = true → is_Some (pop_first p l).
Proof.
  induction l as [|y l IH]; [by intros ?%not_elem_of_nil|].
  simpl. destruct (p y) eqn:Hy; [by eauto|].
  intros [->|Hx]%elem_of_cons Hpx; [congruence|].
  destruct (IH Hx Hpx) as [[z l''] ->]. simpl. eauto.
Qed.

(** Taking out the first element that satisfies [p] does not change what
    a search for anything else finds. *)
Lemma find_pop_first {A} (p q : A → bool) (l rest : list A) (x : A) :
  pop_first p l = Some (x, rest) → q x = false →
  List.find q rest = List.find q l.
Proof.
  revert rest. induction l as [|y l IH]; intros rest; simpl; [done|].
  destruct (p y).
  - intros [= -> ->] Hq. by rewrite Hq.
  - destruct (pop_first p l) as [[z l'']|]; [|done]. simpl.
    intros [= -> <-] Hq. simpl. destruct (q y); [done|]. by apply IH.
Qed.

(** X22. [mark gone] fails, with "not found", exactly when the id is
    neither in the pool nor on hold nor in the history.  In a
    well-formed state a saved [mark gone] leaves the id nowhere: not in
    the pool, not on hold, not in the history; every other id names the
    task it named before, every other history entry stays, and
    [next_id] is kept, so the id is not issued again. *)
Theorem gone_forgets_the_task (state : State.t) (now : string) (task_id : Z)
    (by_ : option string) :
  (mark state now task_id GONE by_ = Failed (NotFound task_id)
   ↔ State.get_task state task_id = None
     ∧ State.get_blocked state task_id = None
     ∧ ∀ h, h ∈ State.history state → HistoryEntry.id h ≠ task_id)
  ∧ (well_formed state →
     ∀ state' out,
       mark state now task_id GONE by_ = Saved state' out →
       State.get_task state' task_id = None
       ∧ State.get_blocked state' task_id = None
       ∧ (∀ h, h ∈ State.history state' → HistoryEntry.id h ≠ task_id)
       ∧ (∀ other, other ≠ task_id →
            State.get_task state' other = State.get_task state other
            ∧ State.get_blocked state' other = State.get_blocked state other)
       ∧ (∀ h, h ∈ State.history state → HistoryEntry.id h ≠ task_id →
               h ∈ State.history state')
       ∧ State.next_id state' = State.next_id state).
Proof.
  split.
  - unfold mark, State.get_task, State.get_blocked. split.
    + destruct (State.tasks state !! str task_id) as [task|]; [done|].
      destruct (pop_first _ (State.blocked state)) as [[b rest]|] eqn:Hheld; [done|].
      destruct (pop_first _ (State.history state)) as [[h rest]|] eqn:Hhist; [done|].
      intros _. split; [done|]. split.
      * apply find_all_false. intros b Hb. by apply (pop_first_None _ _ _ Hheld).
      * intros h Hh.
        apply (bool_decide_eq_false (HistoryEntry.id h = task_id)).
        by apply (pop_first_None _ _ _ Hhist).
    + intros (-> & Hheld & Hhist).
      destruct (pop_first _ (State.blocked state)) as [[b rest]|] eqn:Hpop.
      { apply pop_first_Some in Hpop as (Hp & Hb%list_elem_of_In & _).
        by rewrite (find_none _ _ Hheld b Hb) in Hp. }
      destruct (pop_first _ (State.history state)) as [[h rest]|] eqn:Hpop';
        [|done].
      apply pop_first_Some in Hpop' as (Hp%bool_decide_eq_true & Hh & _).
      by destruct (Hhist h Hh).
  - intros Hwf state' out. unfold mark.
    destruct (State.tasks state !! str task_id) as [task|] eqn:Hpool.
    { intros [= <- _]. unfold State.get_task, State.get_blocked. simpl.
      split_and!.
      - apply lookup_delete_eq.
      - apply find_all_false. intros b Hb. apply bool_decide_eq_false. intros Heq.
        pose proof (wf_pool_held _ Hwf b Hb) as Hnone.
        rewrite Heq in Hnone. congruence.
      - intros h Hh Heq.
        pose proof (wf_pool_history _ Hwf h Hh) as Hnone.
        rewrite Heq in Hnone. congruence.
      - intros other Hother. split; [|done].
        apply lookup_delete_ne. by apply str_ne.
      - done.
      - done. }
    destruct (pop_first _ (State.blocked state)) as [[b rest]|] eqn:Hheld.
    { intros [= <- _]. unfold State.get_task, State.get_blocked. simpl.
      pose proof (pop_first_Some _ _ _ _ Hheld)
        as (Hb%bool_decide_eq_true & Hbin & _ & Hperm).
      split_and!.
      - done.
      - apply find_all_false. intros b' Hb'. apply bool_decide_eq_false. intros Heq.
        pose proof (wf_held_once _ Hwf) as Hnd.
        rewrite Hperm, fmap_cons in Hnd. apply NoDup_cons in Hnd as [Hnotin _].
        apply Hnotin. rewrite Hb, <-Heq. by apply list_elem_of_fmap_2.
      - intros h Hh Heq. apply (wf_held_history _ Hwf b h Hbin Hh). congruence.
      - intros other Hother. split; [done|].
        apply (find_pop_first _ _ _ _ _ Hheld).
        apply bool_decide_eq_false. congruence.
      - done.
      - done. }
    destruct (pop_first _ (State.history state)) as [[h rest]|] eqn:Hhist; [|done].
    intros [= <- _]. unfold State.get_task, State.get_blocked. simpl.
    pose proof (pop_first_Some _ _ _ _ Hhist)
      as (Hh%bool_decide_eq_true & Hhin & _ & Hperm).
    split_and!.
    + done.
    + apply find_all_false. intros b Hb. by apply (pop_first_None _ _ _ Hheld).
    + intros h' Hh' Heq.
      pose proof (wf_history_once _ Hwf) as Hnd.
      rewrite Hperm, fmap_cons in Hnd. apply NoDup_cons in Hnd as [Hnotin _].
      apply Hnotin. rewrite Hh, <-Heq. by apply list_elem_of_fmap_2.
    + done.
    + intros h' Hh' Hne. rewrite Hperm in Hh'.
      apply elem_of_cons in Hh' as [->|Hh']; [congruence|done].
    + done.
Qed.

Lemma gone_forgets_the_task_witness :
  State.get_task (run design_then_tests (Mark "2025-01-13T08:00:00" 1 GONE None)) 1
  = None
  ∧ State.get_task (run design_then_tests (Mark "2025-01-13T08:00:00" 1 GONE None)) 2
    = State.get_task design_then_tests 2.
Proof.
  destruct (gone_forgets_the_task design_then_tests "2025-01-13T08:00:00" 1 None)
    as [_ Hsaved].
  destruct (Hsaved
              ltac:(apply reachable_well_formed, reachable_foldl_run, reachable_empty)
              (run design_then_tests (Mark "2025-01-13T08:00:00" 1 GONE None))
              ["Task [1] gone: Design API"] eq_refl)
    as (Hpool & _ & _ & Hother & _).
  split; [done|]. by apply Hother.
Defined.

(** ** The groups of the task views *)

Lemma _get_descendants_loop_eq (state : State.t) (fuel : nat)
    (descendants : gset Z) (stack : list Z) :
  _get_descendants_loop fuel (State.edges state) descendants stack
  = _get_all_descendants_loop fuel state descendants stack.
Proof.
  revert descendants stack. induction fuel as [|fuel IH]; intros d stack; [done|].
  simpl. destruct stack as [|current stack]; [done|].
  destruct (_get_all_descendants_scan current (State.edges state) d stack).
  apply IH.
Qed.

(** [_get_descendants] returns the ids reached along one or more edges. *)
Lemma _get_descendants_spec (task_id : Z) (edges : list Edge.t) :
  ∃ descendants : gset Z,
    _get_descendants task_id edges = Some descendants
    ∧ ∀ n, n ∈ descendants ↔ tc (edge_rel edges) task_id n.
Proof.
  destruct (_get_all_descendants_spec (State.with_edges State.empty edges) task_id)
    as (descendants & Hd & Hiff).
  exists descendants. split; [|done].
  unfold _get_descendants.
  by rewrite (_get_descendants_loop_eq (State.with_edges State.empty edges)).
Qed.

Lemma group_pool_spec (tasks : gmap string Task.t) :
  (∀ k task, tasks !! k = Some task → k = str (Task.id task)) →
  ∃ active_ids inactive_ids all_tasks,
    group_pool tasks = Ok (active_ids, inactive_ids, all_tasks)
    ∧ (∀ n, all_tasks !! n = tasks !! str n)
    ∧ (∀ n, n ∈ active_ids
            ↔ ∃ task, tasks !! str n = Some task ∧ Task.active task = true)
    ∧ (∀ n, n ∈ inactive_ids
            ↔ ∃ task, tasks !! str n = Some task ∧ Task.active task = false).
Proof.
  unfold group_pool.
  apply (map_fold_weak_ind
           (λ r (m : gmap string Task.t),
              (∀ k task, m !! k = Some task → k = str (Task.id task)) →
              ∃ (active_ids inactive_ids : gset Z) (all_tasks : gmap Z Task.t),
                r = Ok (active_ids, inactive_ids, all_tasks)
                ∧ (∀ n, all_tasks !! n = m !! str n)
                ∧ (∀ n, n ∈ active_ids
                        ↔ ∃ task, m !! str n = Some task
                                  ∧ Task.active task = true)
                ∧ (∀ n, n ∈ inactive_ids
                        ↔ ∃ task, m !! str n = Some task
                                  ∧ Task.active task = false))).
  - intros _. exists ∅, ∅, ∅. split; [done|]. split_and!.
    + intros n. by rewrite !lookup_empty.
    + intros n. rewrite elem_of_empty. split; [done|].
      intros (task & Hk & _). by rewrite lookup_empty in Hk.
    + intros n. rewrite elem_of_empty. split; [done|].
      intros (task & Hk & _). by rewrite lookup_empty in Hk.
  - intros k task m r Hfresh IH Hkeys.
    destruct IH as (a & i & all & -> & Hall & Ha & Hi).
    { intros k' task' Hk'. apply Hkeys. rewrite lookup_insert_ne; [done|].
      intros ->. congruence. }
    pose proof (Hkeys k task (lookup_insert_eq _ _ _)) as ->.
    cbn [mbind res_bind]. rewrite int_str. cbn [mbind res_bind].
    assert (∀ n, <[Task.id task:=task]> all !! n
                 = <[str (Task.id task):=task]> m !! str n) as Hall'.
    { intros n. destruct (decide (n = Task.id task)) as [->|Hne].
      - by rewrite !lookup_insert_eq.
      - rewrite !lookup_insert_ne; [done|by apply str_ne|done]. }
    assert (∀ n (b : bool),
              (∃ t, <[str (Task.id task):=task]> m !! str n = Some t
                    ∧ Task.active t = b)
              ↔ (n = Task.id task ∧ Task.active task = b)
                ∨ ∃ t, m !! str n = Some t ∧ Task.active t = b) as Hsplit.
    { intros n b. destruct (decide (n = Task.id task)) as [->|Hne].
      - rewrite lookup_insert_eq. split.
        + intros (t & [= <-] & ?). by left.
        + intros [[_ ?]|(t & Ht & _)]; [by exists task|congruence].
      - rewrite lookup_insert_ne by (by apply str_ne). split; [by right|].
        by intros [[? _]|?]. }
    destruct (Task.active task) eqn:Hact.
    + exists ({[Task.id task]} ∪ a), i, (<[Task.id task:=task]> all).
      split; [done|]. split; [done|]. split.
      * intros n. rewrite Hsplit, elem_of_union, elem_of_singleton, Ha. tauto.
      * intros n. rewrite Hsplit, Hi. split; [by right|].
        by intros [[_ ?]|?].
    + exists a, ({[Task.id task]} ∪ i), (<[Task.id task:=task]> all).
      split; [done|]. split; [done|]. split.
      * intros n. rewrite Hsplit, Ha. split; [by right|].
        by intros [[_ ?]|?].
      * intros n. rewrite Hsplit, elem_of_union, elem_of_singleton, Hi. tauto.
Qed.

Lemma group_held_spec (blocked : list BlockedTask.t) :
  NoDup (BlockedTask.id <$> blocked) →
  (∀ n, (group_held blocked).2 !! n
        = List.find (λ b, bool_decide (BlockedTask.id b = n)) blocked)
  ∧ (∀ n, n ∈ (group_held blocked).1
          ↔ ∃ b, b ∈ blocked ∧ BlockedTask.id b = n).
Proof.
  unfold group_held.
  induction blocked as [|b l IH] using rev_ind; intros Hnd.
  { simpl. split; [by intros n; rewrite lookup_empty|].
    intros n. rewrite elem_of_empty. split; [done|].
    by intros (b & ?%not_elem_of_nil & _). }
  rewrite fmap_app in Hnd. apply NoDup_app in Hnd as (Hnd & Hnotin & _).
  destruct (IH Hnd) as [Hmap Hids]. rewrite foldl_app. simpl.
  destruct (foldl _ (∅, ∅) l) as [ids m]. simpl in *. split.
  - intros n. rewrite find_app. destruct (decide (n = BlockedTask.id b)) as [->|Hne].
    + rewrite lookup_insert_eq, find_all_false.
      * simpl. by rewrite bool_decide_eq_true_2.
      * intros b' Hb'. apply bool_decide_eq_false. intros Heq.
        apply (Hnotin (BlockedTask.id b)); [|by left].
        rewrite <-Heq. by apply list_elem_of_fmap_2.
    + rewrite lookup_insert_ne, Hmap by done.
      destruct (List.find _ l); [done|]. simpl.
      by rewrite bool_decide_eq_false_2.
  - intros n. rewrite elem_of_union, elem_of_singleton, Hids. split.
    + intros [->|(b' & ? & ?)].
      * exists b. split; [|done]. apply elem_of_app. right. left.
      * exists b'. split; [|done]. apply elem_of_app. by left.
    + intros (b' & [?|Hb'%list_elem_of_singleton]%elem_of_app & <-);
        [|subst b'; by left].
      right. by exists b'.
Qed.

Lemma find_active_workflow_spec (active_ids inactive_ids : gset Z)
    (edges : list Edge.t) :
  ∃ active_workflow_ids : gset Z,
    find_active_workflow active_ids inactive_ids edges = Some active_workflow_ids
    ∧ ∀ n, n ∈ active_workflow_ids
           ↔ n ∈ inactive_ids
             ∧ ∃ a, a ∈ active_ids ∧ tc (edge_rel edges) a n.
Proof.
  unfold find_active_workflow.
  assert (∀ (ds : list Z) (w0 : gset Z) n,
            n ∈ foldl (λ (w : gset Z) d,
                         if bool_decide (d ∈ inactive_ids) then {[d]} ∪ w else w)
                      w0 ds
            ↔ n ∈ w0 ∨ (n ∈ ds ∧ n ∈ inactive_ids)) as Hinner.
  { induction ds as [|d ds IH]; intros w0 n; simpl.
    - split; [by left|]. by intros [?|[?%not_elem_of_nil _]].
    - rewrite IH, elem_of_cons. case_bool_decide as Hd.
      + rewrite elem_of_union, elem_of_singleton. split.
        * intros [[->|?]|[? ?]]; [right; split; [by left|done]|by left|].
          right. split; [by right|done].
        * intros [?|[[->|?] ?]]; [left; by right|left; by left|by right].
      + split.
        * intros [?|[? ?]]; [by left|]. right. split; [by right|done].
        * intros [?|[[->|?] ?]]; [by left|done|by right]. }
  assert (∀ (l : list Z) (w0 : gset Z),
            ∃ w : gset Z,
              foldl (λ acc active_id,
                       active_workflow_ids ← acc;
                       descendants ← _get_descendants active_id edges;
                       Some (foldl (λ (w : gset Z) d,
                                      if bool_decide (d ∈ inactive_ids)
                                      then {[d]} ∪ w else w)
                                   active_workflow_ids (elements descendants)))
                    (Some w0) l
              = Some w
              ∧ ∀ n, n ∈ w
                     ↔ n ∈ w0
                       ∨ (n ∈ inactive_ids
                          ∧ ∃ a, a ∈ l ∧ tc (edge_rel edges) a n)) as Houter.
  { induction l as [|a l IH]; intros w0.
    - exists w0. split; [done|]. intros n. split; [by left|].
      by intros [?|[_ (a & ?%not_elem_of_nil & _)]].
    - simpl. destruct (_get_descendants_spec a edges) as (ds & -> & Hds). simpl.
      destruct (IH (foldl (λ (w : gset Z) d,
                             if bool_decide (d ∈ inactive_ids)
                             then {[d]} ∪ w else w) w0 (elements ds)))
        as (w & -> & Hw).
      exists w. split; [done|]. intros n.
      rewrite Hw, Hinner, elem_of_elements, Hds. split.
      + intros [[?|[? ?]]|[? (a' & ? & ?)]]; [by left| |].
        * right. split; [done|]. exists a. split; [left|done].
        * right. split; [done|]. exists a'. split; [by right|done].
      + intros [?|[? (a' & [->|?]%elem_of_cons & ?)]].
        * left. by left.
        * left. right. done.
        * right. split; [done|]. by exists a'. }
  destruct (Houter (elements active_ids) ∅) as (w & Hw & Hiff).
  exists w. split; [done|]. intros n. rewrite Hiff, elem_of_empty.
  split.
  - intros [Hfalse|[? (a & Ha%elem_of_elements & ?)]]; [done|].
    split; [done|]. by exists a.
  - intros [? (a & Ha & ?)]. right. split; [done|]. exists a.
    split; [by apply elem_of_elements|done].
Qed.

(** [below_active state n]: an active pool task reaches [n] along one or
    more edges. *)
Definition below_active (state : State.t) (n : Z) : Prop :=
  ∃ a task,
    State.get_task state a = Some task
    ∧ Task.active task = true
    ∧ tc (edge_rel (State.edges state)) a n.

(** X23. On a well-formed state the grouping of [render_dag] and
    [render_state_md] returns, and it puts every task in exactly one
    group: a pool task is on the active panel when it is active or an
    active task reaches it along the edges, and in the backlog
    otherwise; the held ids are the ids [get_blocked] finds, and none of
    them is in the other two groups.  The dicts the formatters index
    hold the task of every id of the groups. *)
Theorem views_group_every_task_once (state : State.t) :
  well_formed state →
  ∃ g,
    group_tasks_by_state state = Ok (Some g)
    ∧ (∀ n, Groups.all_tasks g !! n = State.get_task state n)
    ∧ (∀ n, Groups.blocked_tasks g !! n = State.get_blocked state n)
    ∧ (∀ n, n ∈ Groups.blocked_ids g ↔ is_Some (State.get_blocked state n))
    ∧ (∀ n, n ∈ Groups.active_panel_ids g
            ↔ ∃ task, State.get_task state n = Some task
                      ∧ (Task.active task = true ∨ below_active state n))
    ∧ (∀ n, n ∈ Groups.backlog_ids g
            ↔ ∃ task, State.get_task state n = Some task
                      ∧ Task.active task = false
                      ∧ ¬ below_active state n)
    ∧ Groups.active_panel_ids g ## Groups.backlog_ids g
    ∧ Groups.blocked_ids g ## Groups.active_panel_ids g
    ∧ Groups.blocked_ids g ## Groups.backlog_ids g.
Proof.
  intros Hwf. unfold group_tasks_by_state.
  destruct (group_pool_spec (State.tasks state))
    as (active_ids & inactive_ids & all_tasks & -> & Hall & Hactive & Hinactive).
  { intros k task Hk. by destruct (wf_pool _ Hwf _ _ Hk). }
  cbn [mbind res_bind].
  destruct (group_held_spec (State.blocked state) (wf_held_once _ Hwf))
    as [Hheld_map Hheld_ids].
  destruct (group_held (State.blocked state)) as [blocked_ids blocked_tasks].
  simpl in Hheld_map, Hheld_ids.
  destruct (find_active_workflow_spec active_ids inactive_ids (State.edges state))
    as (workflow & -> & Hworkflow).
  cbn [mbind option_bind]. eexists. split; [done|]. simpl.
  assert (∀ n, (∃ a, a ∈ active_ids ∧ tc (edge_rel (State.edges state)) a n)
               ↔ below_active state n) as Hbelow.
  { intros n. unfold below_active, State.get_task. split.
    - intros (a & (task & ? & ?)%Hactive & ?). by exists a, task.
    - intros (a & task & ? & ? & ?). exists a. split; [|done].
      apply Hactive. by exists task. }
  assert (∀ n, n ∈ blocked_ids ↔ is_Some (State.get_blocked state n)) as Hheld.
  { intros n. rewrite Hheld_ids. unfold State.get_blocked. split.
    - intros (b & Hb & Hid).
      destruct (List.find _ (State.blocked state)) as [b'|] eqn:Hfind; [by eexists|].
      apply list_elem_of_In in Hb.
      apply (find_none _ _ Hfind), bool_decide_eq_false in Hb. done.
    - intros [b [Hb%list_elem_of_In Hid%bool_decide_eq_true]%find_some].
      by exists b. }
  assert (∀ n, n ∈ active_ids ∪ workflow
               ↔ ∃ task, State.get_task state n = Some task
                         ∧ (Task.active task = true ∨ below_active state n))
    as Hpanel.
  { intros n. rewrite elem_of_union, Hactive, Hworkflow, Hinactive, Hbelow.
    unfold State.get_task. split.
    - intros [(task & ? & ?)|[(task & ? & ?) ?]]; exists task; tauto.
    - intros (task & Hk & [?|?]); [left; by exists task|].
      destruct (Task.active task) eqn:Hact; [left; by exists task|].
      right. split; [by exists task|done]. }
  assert (∀ n, n ∈ inactive_ids ∖ workflow
               ↔ ∃ task, State.get_task state n = Some task
                         ∧ Task.active task = false
                         ∧ ¬ below_active state n) as Hbacklog.
  { intros n. rewrite elem_of_difference, Hworkflow, Hinactive, Hbelow.
    unfold State.get_task. split.
    - intros [(task & ? & ?) Hnot]. exists task. split; [done|]. split; [done|].
      intros ?. apply Hnot. split; [by exists task|done].
    - intros (task & ? & ? & ?). split; [by exists task|]. tauto. }
  assert (∀ n, n ∈ blocked_ids → State.get_task state n = None) as Hapart.
  { intros n (b & Hb & <-)%Hheld_ids. by apply (wf_pool_held _ Hwf). }
  split_and!; [done|done|done|done|done| | |].
  - intros n (task & Hk & Hon)%Hpanel (task' & Hk' & Hoff & Hnot)%Hbacklog.
    rewrite Hk in Hk'. injection Hk' as <-.
    destruct Hon as [?|?]; [congruence|done].
  - intros n Hn%Hapart (task & Hk & _)%Hpanel. congruence.
  - intros n Hn%Hapart (task & Hk & _)%Hbacklog. congruence.
Qed.

Lemma views_group_every_task_once_witness :
  ∃ g,
    group_tasks_by_state (run one_slot_taken (Link 1 2)) = Ok (Some g)
    ∧ 2 ∈ Groups.active_panel_ids g.
Proof.
  destruct (views_group_every_task_once (run one_slot_taken (Link 1 2)))
    as (g & Hgroups & _ & _ & _ & Hpanel & _).
  - apply reachable_well_formed, reachable_run, reachable_foldl_run, reachable_empty.
  - exists g. split; [done|]. apply Hpanel.
    exists (Task.mk 2 "B" false "2025-01-12T10:00:00"). split; [reflexivity|].
    right. exists 1, (Task.mk 1 "A" true "2025-01-12T09:00:00").
    split; [reflexivity|]. split; [reflexivity|].
    apply tc_once. unfold edge_rel. vm_compute. left.
Defined.

(** ** Tasks are moved, not rewritten *)

(** [known state n title created_at]: the state has a task with id [n],
    that title and that creation date, in the pool, on hold or in the
    history. *)
Definition known (state : State.t) (n : Z) (title created_at : string) : Prop :=
  (∃ task, State.get_task state n = Some task
           ∧ Task.title task = title ∧ Task.created_at task = created_at)
  ∨ (∃ b, b ∈ State.blocked state ∧ BlockedTask.id b = n
          ∧ BlockedTask.title b = title ∧ BlockedTask.created_at b = created_at)
  ∨ (∃ h, h ∈ State.history state ∧ HistoryEntry.id h = n
          ∧ HistoryEntry.title h = title ∧ HistoryEntry.created_at h = created_at).

Lemma pop_first_elem_of {A} (p : A → bool) (l rest : list A) (x y : A) :
  pop_first p l = Some (x, rest) → y ∈ l → p y = false → y ∈ rest.
Proof.
  intros (Hx & _ & _ & Hperm)%pop_first_Some Hy Hpy. rewrite Hperm in Hy.
  apply elem_of_cons in Hy as [->|Hy]; [congruence|done].
Qed.

(** [mark] keeps every task but the one it is told to forget. *)
Lemma mark_known_kept (state : State.t) (now : string) (task_id : Z)
    (name : state_name) (by_ : option string) (n : Z) (title created_at : string) :
  well_formed state →
  ¬ (name = GONE ∧ n = task_id) →
  known state n title created_at →
  known (persisted state (mark state now task_id name by_)) n title created_at.
Proof.
  intros Hwf Hkeep Hknown. unfold mark, not_in_pool.
  destruct name.
  - destruct (State.get_task state task_id) as [task|] eqn:Hget;
      [|by destruct (State.get_blocked state task_id)].
    destruct (Task.active task); [done|].
    destruct (State.get_edges_to state task_id); [|done].
    case_bool_decide; [done|]. simpl.
    destruct Hknown as [(task' & Hget' & <- & <-)|Hrest]; [|by right].
    left. unfold State.get_task. simpl.
    destruct (decide (n = task_id)) as [->|Hne].
    + rewrite lookup_insert_eq. eexists. split; [done|]. simpl.
      rewrite Hget in Hget'. by injection Hget' as <-.
    + rewrite lookup_insert_ne by (by apply str_ne). by exists task'.
  - destruct (State.get_task state task_id) as [task|] eqn:Hget;
      [|by destruct (State.get_blocked state task_id)].
    destruct (Task.active task); simpl; [|done].
    destruct Hknown as [(task' & Hget' & <- & <-)|Hrest]; [|by right].
    left. unfold State.get_task. simpl.
    destruct (decide (n = task_id)) as [->|Hne].
    + rewrite lookup_insert_eq. eexists. split; [done|]. simpl.
      rewrite Hget in Hget'. by injection Hget' as <-.
    + rewrite lookup_insert_ne by (by apply str_ne). by exists task'.
  - destruct (State.get_task state task_id) as [task|] eqn:Hget;
      [|by destruct (State.get_blocked state task_id)].
    destruct (State.get_edges_to state task_id); simpl; [|done].
    destruct Hknown as [(task' & Hget' & <- & <-)|[Hheld|(h & Hh & Hrest)]].
    + destruct (decide (n = task_id)) as [->|Hne].
      * right. right. eexists. split; [apply elem_of_app; right; left|].
        simpl. rewrite Hget in Hget'. by injection Hget' as <-.
      * left. unfold State.get_task. simpl.
        rewrite lookup_delete_ne by (by apply str_ne). by exists task'.
    + right. by left.
    + right. right. exists h. split; [apply elem_of_app; by left|done].
  - destruct by_ as [b|]; [|done]. destruct (truthy b); [|done].
    destruct (State.get_task state task_id) as [task|] eqn:Hget;
      [|by destruct (State.get_blocked state task_id)].
    simpl.
    destruct Hknown as [(task' & Hget' & <- & <-)|[(b' & Hb' & Hrest)|Hhist]].
    + destruct (decide (n = task_id)) as [->|Hne].
      * right. left. eexists. split; [apply elem_of_app; right; left|].
        simpl. rewrite Hget in Hget'. by injection Hget' as <-.
      * left. unfold State.get_task. simpl.
        rewrite lookup_delete_ne by (by apply str_ne). by exists task'.
    + right. left. exists b'. split; [apply elem_of_app; by left|done].
    + right. by right.
  - destruct (State.get_blocked state task_id) as [b|] eqn:Hget; [|done]. simpl.
    apply get_blocked_Some in Hget as [Hb Hid].
    destruct Hknown as [(task' & Hget' & <- & <-)|[(b' & Hb' & Hid' & <- & <-)|Hhist]].
    + left. unfold State.get_task. simpl.
      rewrite lookup_insert_ne; [by exists task'|].
      intros Heq. apply str_inj in Heq as <-.
      pose proof (wf_pool_held _ Hwf b Hb) as Hnone.
      rewrite Hid in Hnone. unfold State.get_task in Hget'. congruence.
    + destruct (decide (n = task_id)) as [->|Hne].
      * left. unfold State.get_task. simpl. rewrite lookup_insert_eq.
        eexists. split; [done|]. simpl.
        by rewrite (NoDup_fmap_eq BlockedTask.id _ b b' (wf_held_once _ Hwf))
          by (done || congruence).
      * right. left. exists b'. split; [|done].
        apply list_elem_of_filter. split; [congruence|done].
    + right. by right.
  - destruct (State.tasks state !! str task_id) as [task|] eqn:Hpool.
    { simpl.
      destruct Hknown as [(task' & Hget' & <- & <-)|Hrest]; [|by right].
      left. unfold State.get_task. simpl.
      rewrite lookup_delete_ne; [by exists task'|].
      intros ->%str_inj. by apply Hkeep. }
    destruct (pop_first _ (State.blocked state)) as [[b rest]|] eqn:Hheld.
    { simpl.
      destruct Hknown as [Hp|[(b' & Hb' & Hid' & <- & <-)|Hhist]];
        [by left| |by right; right].
      right. left. exists b'. split; [|done].
      apply (pop_first_elem_of _ _ _ _ _ Hheld Hb').
      apply bool_decide_eq_false. intros Heq. apply Hkeep. split; congruence. }
    destruct (pop_first _ (State.history state)) as [[h rest]|] eqn:Hhist; [|done].
    simpl.
    destruct Hknown as [Hp|[Hb|(h' & Hh' & Hid' & <- & <-)]];
      [by left|by right; left|].
    right. right. exists h'. split; [|done].
    apply (pop_first_elem_of _ _ _ _ _ Hhist Hh').
    apply bool_decide_eq_false. intros Heq. apply Hkeep. split; congruence.
Qed.

(** [mark] makes no task up: what a state has after it, it had before. *)
Lemma mark_known_back (state : State.t) (now : string) (task_id : Z)
    (name : state_name) (by_ : option string) (n : Z) (title created_at : string) :
  known (persisted state (mark state now task_id name by_)) n title created_at →
  known state n title created_at.
Proof.
  unfold mark, not_in_pool.
  destruct name.
  - destruct (State.get_task state task_id) as [task|] eqn:Hget;
      [|by destruct (State.get_blocked state task_id)].
    destruct (Task.active task); [done|].
    destruct (State.get_edges_to state task_id); [|done].
    case_bool_decide; [done|]. simpl.
    intros [(task' & Hget' & <- & <-)|Hrest]; [|by right].
    left. unfold State.get_task in Hget'. simpl in Hget'.
    destruct (decide (n = task_id)) as [->|Hne].
    + rewrite lookup_insert_eq in Hget'. injection Hget' as <-. by exists task.
    + rewrite lookup_insert_ne in Hget' by (by apply str_ne). by exists task'.
  - destruct (State.get_task state task_id) as [task|] eqn:Hget;
      [|by destruct (State.get_blocked state task_id)].
    destruct (Task.active task); simpl; [|done].
    intros [(task' & Hget' & <- & <-)|Hrest]; [|by right].
    left. unfold State.get_task in Hget'. simpl in Hget'.
    destruct (decide (n = task_id)) as [->|Hne].
    + rewrite lookup_insert_eq in Hget'. injection Hget' as <-. by exists task.
    + rewrite lookup_insert_ne in Hget' by (by apply str_ne). by exists task'.
  - destruct (State.get_task state task_id) as [task|] eqn:Hget;
      [|by destruct (State.get_blocked state task_id)].
    destruct (State.get_edges_to state task_id); simpl; [|done].
    intros [(task' & Hget' & <- & <-)|[Hheld|(h & Hh & Hid & <- & <-)]].
    + left. unfold State.get_task in Hget'. simpl in Hget'.
      apply lookup_delete_Some in Hget' as [_ Hget']. by exists task'.
    + right. by left.
    + apply elem_of_app in Hh as [Hh|Hh%list_elem_of_singleton].
      * right. right. by exists h.
      * subst h. simpl in *. subst n. left. by exists task.
  - destruct by_ as [b|]; [|done]. destruct (truthy b); [|done].
    destruct (State.get_task state task_id) as [task|] eqn:Hget;
      [|by destruct (State.get_blocked state task_id)].
    simpl.
    intros [(task' & Hget' & <- & <-)|[(b' & Hb' & Hid & <- & <-)|Hhist]].
    + left. unfold State.get_task in Hget'. simpl in Hget'.
      apply lookup_delete_Some in Hget' as [_ Hget']. by exists task'.
    + apply elem_of_app in Hb' as [Hb'|Hb'%list_elem_of_singleton].
      * right. left. by exists b'.
      * subst b'. simpl in *. subst n. left. by exists task.
    + right. by right.
  - destruct (State.get_blocked state task_id) as [b|] eqn:Hget; [|done]. simpl.
    apply get_blocked_Some in Hget as [Hb Hid].
    intros [(task' & Hget' & <- & <-)|[(b' & Hb' & Hrest)|Hhist]].
    + unfold State.get_task in Hget'. simpl in Hget'.
      destruct (decide (n = task_id)) as [->|Hne].
      * rewrite lookup_insert_eq in Hget'. injection Hget' as <-. simpl.
        right. left. by exists b.
      * rewrite lookup_insert_ne in Hget' by (by apply str_ne).
        left. by exists task'.
    + apply list_elem_of_filter in Hb' as [_ Hb']. right. left. by exists b'.
    + right. by right.
  - destruct (State.tasks state !! str task_id) as [task|] eqn:Hpool.
    { simpl. intros [(task' & Hget' & <- & <-)|Hrest]; [|by right].
      unfold State.get_task in Hget'. simpl in Hget'.
      apply lookup_delete_Some in Hget' as [_ Hget']. left. by exists task'. }
    destruct (pop_first _ (State.blocked state)) as [[b rest]|] eqn:Hheld.
    { simpl. apply pop_first_Some in Hheld as (_ & _ & Hsub & _).
      intros [Hp|[(b' & Hb' & Hrest)|Hhist]]; [by left| |by right; right].
      right. left. exists b'. split; [by eapply elem_of_sublist|done]. }
    destruct (pop_first _ (State.history state)) as [[h rest]|] eqn:Hhist; [|done].
    simpl. apply pop_first_Some in Hhist as (_ & _ & Hsub & _).
    intros [Hp|[Hb|(h' & Hh' & Hrest)]]; [by left|by right; left|].
    right. right. exists h'. split; [by eapply elem_of_sublist|done].
Qed.

Lemma link_known_kept (state state' : State.t) (from_id to_id : Z)
    (out : list string) (n : Z) (title created_at : string) :
  link state from_id to_id = Some (Saved state' out) →
  known state n title created_at → known state' n title created_at.
Proof.
  intros Hlink Hknown.
  destruct (State.get_blocked state from_id) as [parent|] eqn:Hheld;
    [|by rewrite (link_saved_not_held _ _ _ _ _ Hlink Hheld)].
  destruct (link_under_held_cascades _ _ _ _ _ _ Hlink Hheld)
    as (all_to_move & _ & _ & Htasks & Hblocked & _).
  destruct (link_saved_frame _ _ _ _ _ Hlink) as (Hhistory & _ & _).
  destruct Hknown as [(task & Hget & <- & <-)|[(b & Hb & Hrest)|Hhist]].
  - destruct (decide (n ∈ all_to_move)) as [Hmoved|Hstays].
    + right. left. eexists. split.
      * rewrite Hblocked. apply elem_of_app. right.
        apply list_elem_of_omap. exists n. split; [done|].
        unfold held_entry. rewrite Hget. done.
      * done.
    + left. exists task. split; [|done].
      unfold State.get_task. rewrite Htasks.
      rewrite decide_False; [done|].
      intros (m & ->%str_inj & Hm)%list_elem_of_fmap. done.
  - right. left. exists b. split; [|done]. rewrite Hblocked.
    apply elem_of_app. by left.
  - right. right. by rewrite Hhistory.
Qed.

Lemma link_known_back (state state' : State.t) (from_id to_id : Z)
    (out : list string) (n : Z) (title created_at : string) :
  link state from_id to_id = Some (Saved state' out) →
  known state' n title created_at → known state n title created_at.
Proof.
  intros Hlink Hknown.
  destruct (State.get_blocked state from_id) as [parent|] eqn:Hheld;
    [|by rewrite (link_saved_not_held _ _ _ _ _ Hlink Hheld) in Hknown].
  destruct (link_under_held_cascades _ _ _ _ _ _ Hlink Hheld)
    as (all_to_move & _ & _ & Htasks & Hblocked & _).
  destruct (link_saved_frame _ _ _ _ _ Hlink) as (Hhistory & _ & _).
  destruct Hknown as [(task & Hget & <- & <-)|[(b & Hb & Hid & <- & <-)|Hhist]].
  - left. exists task. split; [|done].
    unfold State.get_task in *. rewrite Htasks in Hget. by case_decide.
  - rewrite Hblocked in Hb.
    apply elem_of_app in Hb as [Hb|(tid & Htid & Hentry)%list_elem_of_omap].
    + right. left. by exists b.
    + unfold held_entry in Hentry.
      destruct (State.get_task state tid) as [task|] eqn:Hget; [|done].
      simpl in Hentry. injection Hentry as <-. simpl in *. subst tid.
      left. by exists task.
  - right. right. by rewrite <-Hhistory.
Qed.

(** X24. [add], [link], [unlink], [mark], [config] and [reset] move
    tasks, they do not rewrite them.  A task a state has after one of
    these six commands, with its id, title and creation date, in the
    pool, on hold or in the history, it had before the command, or it is
    the task [add] just made under [next_id].  And a task a well-formed
    state has is still there after each of them, with the same id, title
    and creation date, unless the command is [reset] or [mark gone] on
    that id.  [load], which replaces the tasks, and [load --merge], which
    brings in renumbered ones, are not among the six. *)
Theorem tasks_are_moved_not_rewritten (state : State.t) (c : command)
    (r : response) (n : Z) (title created_at : string) :
  exec state c = Some r →
  (known (persisted state r) n title created_at →
   known state n title created_at
   ∨ ∃ blocked, c = Add created_at title blocked ∧ n = State.next_id state)
  ∧ (well_formed state →
     c ≠ Reset →
     (∀ now by_, c ≠ Mark now n GONE by_) →
     known state n title created_at →
     known (persisted state r) n title created_at).
Proof.
  intros Hexec. split.
  - destruct c as [now title' blocked|from_id to_id|from_id to_id
                   |now task_id name by_|key value|]; simpl in Hexec.
    + injection Hexec as <-. unfold add.
      assert (known
                (State.with_tasks
                   (State.with_next_id state (State.next_id state + 1))
                   (<[str (State.next_id state) :=
                        Task.mk (State.next_id state) title' false now]>
                      (State.tasks state)))
                n title created_at →
              known state n title created_at
              ∨ ∃ blocked0, Add now title' blocked = Add created_at title blocked0
                            ∧ n = State.next_id state) as Hregular.
      { intros [(task & Hget & <- & <-)|Hrest]; [|left; by right].
        unfold State.get_task in Hget. simpl in Hget.
        destruct (decide (n = State.next_id state)) as [->|Hne].
        - rewrite lookup_insert_eq in Hget. injection Hget as <-. right. by eexists.
        - rewrite lookup_insert_ne in Hget by (by apply str_ne).
          left. left. by exists task. }
      destruct blocked as [b|]; [|done]. destruct (truthy b); [|done]. simpl.
      intros [Hp|[(b' & Hb' & Hid & <- & <-)|Hhist]];
        [left; by left| |left; by right; right].
      apply elem_of_app in Hb' as [Hb'|Hb'%list_elem_of_singleton].
      * left. right. left. by exists b'.
      * subst b'. simpl in *. right. by eexists.
    + destruct r as [state' out| |]; simpl; [|by left..].
      intros Hknown. left. by eapply link_known_back.
    + injection Hexec as <-. unfold unlink.
      destruct (State.has_edge state from_id to_id); simpl; by left.
    + injection Hexec as <-. intros Hknown. left. by eapply mark_known_back.
    + injection Hexec as <-. unfold config.
      repeat case_bool_decide; repeat case_match; simpl; by left.
    + injection Hexec as <-. simpl.
      intros [(task & Hget & _)|[(b & Hb%not_elem_of_nil & _)|(h & Hh%not_elem_of_nil & _)]];
        [|done..].
      unfold State.get_task in Hget. simpl in Hget. by rewrite lookup_empty in Hget.
  - intros Hwf Hreset Hgone Hknown.
    destruct c as [now title' blocked|from_id to_id|from_id to_id
                   |now task_id name by_|key value|]; simpl in Hexec.
    + injection Hexec as <-. unfold add.
      assert (known
                (State.with_tasks
                   (State.with_next_id state (State.next_id state + 1))
                   (<[str (State.next_id state) :=
                        Task.mk (State.next_id state) title' false now]>
                      (State.tasks state)))
                n title created_at) as Hregular.
      { destruct Hknown as [(task & Hget & <- & <-)|Hrest]; [|by right].
        left. exists task. split; [|done].
        unfold State.get_task in *. simpl. rewrite lookup_insert_ne; [done|].
        intros Heq. rewrite <-Heq in Hget.
        rewrite (wf_key_fresh state (State.next_id state) Hwf) in Hget; [done|lia]. }
      destruct blocked as [b|]; [|done]. destruct (truthy b); [|done]. simpl.
      destruct Hknown as [Hp|[(b' & Hb' & Hrest)|Hhist]];
        [by left| |by right; right].
      right. left. exists b'. split; [apply elem_of_app; by left|done].
    + destruct r as [state' out| |]; simpl; [|done..].
      by eapply link_known_kept.
    + injection Hexec as <-. unfold unlink.
      by destruct (State.has_edge state from_id to_id).
    + injection Hexec as <-. apply mark_known_kept; [done| |done].
      intros [-> ->]. by apply (Hgone now by_).
    + injection Hexec as <-. unfold config.
      repeat case_bool_decide; repeat case_match; done.
    + done.
Qed.

Lemma tasks_are_moved_not_rewritten_witness :
  known (run design_then_tests (Mark "2025-01-13T08:00:00" 1 DONE None))
        1 "Design API" "2025-01-12T09:00:00".
Proof.
  destruct (tasks_are_moved_not_rewritten design_then_tests
              (Mark "2025-01-13T08:00:00" 1 DONE None)
              (mark design_then_tests "2025-01-13T08:00:00" 1 DONE None)
              1 "Design API" "2025-01-12T09:00:00" eq_refl)
    as [_ Hkept].
  apply Hkept.
  - apply reachable_well_formed, reachable_foldl_run, reachable_empty.
  - done.
  - done.
  - left. eexists. split; [reflexivity|]. split; reflexivity.
Defined.

(** ** [link] always answers *)

(** X25. [link] returns on every state and for every pair of ids: its
    two searches are its only loops, and their fuel suffices.  What it
    answers is decided by its checks in their order: NotFound for
    [from_id] when that task is neither in the pool nor on hold, else
    NotFound for [to_id] when that one is not, else SelfLoop when the ids
    are equal, else DuplicateEdge when the edge is in the list, else
    CycleDetected when [to_id] reaches [from_id] along the edges, and
    else it saves, with the new edge at the end of the list.  A failure
    saves nothing. *)
Theorem link_always_answers (state : State.t) (from_id to_id : Z) :
  (∃ r, link state from_id to_id = Some r)
  ∧ (_task_exists state from_id = false →
     link state from_id to_id = Some (Failed (NotFound from_id)))
  ∧ (_task_exists state from_id = true →
     (_task_exists state to_id = false →
      link state from_id to_id = Some (Failed (NotFound to_id)))
     ∧ (_task_exists state to_id = true →
        (from_id = to_id →
         link state from_id to_id = Some (Failed SelfLoop))
        ∧ (from_id ≠ to_id →
           (State.has_edge state from_id to_id = true →
            link state from_id to_id
            = Some (Failed (DuplicateEdge from_id to_id)))
           ∧ (State.has_edge state from_id to_id = false →
              (rtc (edge_rel (State.edges state)) to_id from_id →
               link state from_id to_id
               = Some (Failed (CycleDetected from_id to_id)))
              ∧ (¬ rtc (edge_rel (State.edges state)) to_id from_id →
                 ∃ state' out,
                   link state from_id to_id = Some (Saved state' out)
                   ∧ State.edges state'
                     = State.edges state ++ [Edge.mk from_id to_id])))))
  ∧ (∀ e, link state from_id to_id = Some (Failed e) →
          persisted state (Failed e) = state).
Proof.
  destruct (_would_create_cycle_spec state from_id to_id) as (b & Hb & Hiff).
  assert (_task_exists state from_id = true →
          _task_exists state to_id = true →
          from_id ≠ to_id →
          State.has_edge state from_id to_id = false →
          ¬ rtc (edge_rel (State.edges state)) to_id from_id →
          ∃ state' out,
            link state from_id to_id = Some (Saved state' out)
            ∧ State.edges state' = State.edges state ++ [Edge.mk from_id to_id])
    as Hsaves.
  { intros Hfrom Hto Hne Hnew Hno.
    assert (∃ state' out, link state from_id to_id = Some (Saved state' out))
      as (state' & out & Hlink).
    { unfold link. rewrite Hfrom, Hto. simpl.
      rewrite bool_decide_eq_false_2, Hnew, Hb by done. simpl.
      destruct b; [destruct Hno; by apply Hiff|].
      destruct (State.get_blocked _ from_id); [|by eexists _, _].
      destruct (_get_all_descendants_spec
                  (State.with_edges state
                     (State.edges state ++ [Edge.mk from_id to_id])) to_id)
        as (descendants & -> & _).
      simpl. destruct (link_cascade _ from_id _) as [state2 moved].
      by eexists _, _. }
    exists state', out. split; [done|].
    by destruct (link_saved _ _ _ _ _ Hlink) as (_ & _ & _ & _ & _ & ?). }
  split_and!.
  - destruct (_task_exists state from_id) eqn:Hfrom;
      [|unfold link; rewrite Hfrom; by eexists].
    destruct (_task_exists state to_id) eqn:Hto;
      [|unfold link; rewrite Hfrom, Hto; by eexists].
    destruct (decide (from_id = to_id)) as [Heq|Hne].
    { unfold link. rewrite Hfrom, Hto. simpl.
      rewrite bool_decide_eq_true_2 by done. by eexists. }
    destruct (State.has_edge state from_id to_id) eqn:Hnew.
    { unfold link. rewrite Hfrom, Hto. simpl.
      rewrite bool_decide_eq_false_2, Hnew by done. by eexists. }
    destruct b.
    + unfold link. rewrite Hfrom, Hto. simpl.
      rewrite bool_decide_eq_false_2, Hnew, Hb by done. by eexists.
    + destruct (Hsaves eq_refl eq_refl Hne eq_refl) as (state' & out & -> & _);
        [|by eexists].
      intros Hreach. by apply Hiff in Hreach.
  - intros Hfrom. unfold link. by rewrite Hfrom.
  - intros Hfrom. split.
    { intros Hto. unfold link. by rewrite Hfrom, Hto. }
    intros Hto. split.
    { intros Heq. unfold link. rewrite Hfrom, Hto. simpl.
      by rewrite bool_decide_eq_true_2. }
    intros Hne. split.
    { intros Hnew. unfold link. rewrite Hfrom, Hto. simpl.
      by rewrite bool_decide_eq_false_2, Hnew. }
    intros Hnew. split.
    { intros Hreach%Hiff. subst b. unfold link. rewrite Hfrom, Hto. simpl.
      by rewrite bool_decide_eq_false_2, Hnew, Hb. }
    by apply Hsaves.
  - done.
Qed.

Lemma link_always_answers_witness :
  ∃ state' out,
    link held_and_pool 1 2 = Some (Saved state' out)
    ∧ State.edges state' = State.edges held_and_pool ++ [Edge.mk 1 2].
Proof.
  destruct (link_always_answers held_and_pool 1 2) as (_ & _ & Hfrom & _).
  destruct (Hfrom eq_refl) as [_ Hto].
  destruct (Hto eq_refl) as [_ Hne].
  destruct (Hne ltac:(done)) as [_ Hnew].
  destruct (Hnew eq_refl) as [_ Hsaves].
  apply Hsaves.
  intros Hreach. inversion Hreach as [|x y z Hstep _]; subst.
  unfold edge_rel in Hstep. vm_compute in Hstep. inversion Hstep.
Defined.

(** ** Ids are issued in sequence *)

Definition is_add (c : command) : bool :=
  match c with
  | Add _ _ _ => true
  | _ => false
  end.

Lemma exec_next_id (state : State.t) (c : command) (r : response) :
  exec state c = Some r → c ≠ Reset →
  State.next_id (persisted state r)
  = State.next_id state + (if is_add c then 1 else 0).
Proof.
  destruct c as [now title blocked|from_id to_id|from_id to_id
                 |now task_id name by_|key value|]; simpl; intros Hexec Hreset.
  - injection Hexec as <-. unfold add.
    by destruct blocked as [b|]; [destruct (truthy b)|].
  - destruct r as [state' out| |]; simpl; [|lia..].
    destruct (link_saved_frame _ _ _ _ _ Hexec) as (_ & -> & _). lia.
  - injection Hexec as <-. unfold unlink.
    destruct (State.has_edge state from_id to_id); simpl; lia.
  - injection Hexec as <-. unfold mark, not_in_pool.
    destruct name; repeat case_match; simpl; lia.
  - injection Hexec as <-. unfold config.
    repeat case_bool_decide; repeat case_match; simpl; lia.
  - done.
Qed.

(** X26. Along a run of [add], [link], [unlink], [mark] and [config]
    commands, [next_id] grows by the number of [add] commands in the
    run, every one of which saves; [link], [unlink], [mark] and [config]
    do not move it, so along such a run it never goes down.  [reset],
    which puts it back to 1, and [load] and [load --merge], which set it
    from a file, are not in the run. *)
Theorem next_id_counts_adds (state : State.t) (cs : list command) :
  Forall (λ c, c ≠ Reset) cs →
  State.next_id (foldl run state cs)
  = State.next_id state + Z.of_nat (length (filter (λ c, is_add c = true) cs)).
Proof.
  intros Hcs. revert state.
  induction Hcs as [|c cs Hc _ IH]; intros state; [simpl; lia|].
  rewrite filter_cons. cbn [foldl]. rewrite IH.
  assert (State.next_id (run state c)
          = State.next_id state + (if is_add c then 1 else 0)) as ->.
  { unfold run. destruct (exec state c) as [r|] eqn:Hexec.
    - by apply exec_next_id.
    - destruct c; try done. simpl. lia. }
  destruct (is_add c); case_decide; try done; simpl length; lia.
Qed.

Lemma next_id_counts_adds_witness :
  State.next_id design_then_tests = 1 + 2.
Proof.
  apply (next_id_counts_adds State.empty
           [Add "2025-01-12T09:00:00" "Design API" None;
            Add "2025-01-12T10:00:00" "Write tests" None;
            Link 1 2]).
  repeat constructor; done.
Defined.
